(** * moss.glm: design matrices for fMRI general linear models

    A shallow embedding of [src/moss/glm.py].  Floating point arrays are
    embedded as lists of exact reals (the properties below are stated "in
    exact real arithmetic"); Python exceptions and numpy's non-finite values
    (nan, inf) are the two abnormal results of the [outcome] type.  Library
    routines of numpy, scipy and pandas are embedded by their documented
    behaviour, each next to the source line that calls it. *)

From Stdlib Require Import Reals Lra Lia List ZArith Bool Arith.
From Stdlib Require String DecimalString.
Import ListNotations.

Abbreviation string := String.string.
Import String.StringSyntax.
Delimit Scope string_scope with string.

Open Scope R_scope.

(* ================================================================== *)
(** * Python results *)

Inductive exn : Type :=
| ValueError
| IndexError
| TypeError
| ZeroDivisionError
| KeyError
| AttributeError
| NotImplementedError.

(** [Ok a]: the call returns [a].  [Raise e]: it raises [e].  [NonFinite]:
    the float result has a nan or an inf entry (numpy warns and goes on;
    the reals have no such value, so the embedding stops there). *)
Inductive outcome (A : Type) : Type :=
| Ok (a : A)
| Raise (e : exn)
| NonFinite.

Arguments Ok {A} a.
Arguments Raise {A} e.
Arguments NonFinite {A}.

Definition bind {A B : Type} (c : outcome A) (k : A -> outcome B) : outcome B :=
  match c with
  | Ok a => k a
  | Raise e => Raise e
  | NonFinite => NonFinite
  end.

Notation "x <- c ;; k" := (bind c (fun x => k))
  (at level 61, c at next level, right associativity).

Fixpoint mapM {A B : Type} (f : A -> outcome B) (l : list A) : outcome (list B) :=
  match l with
  | [] => Ok []
  | a :: l' => b <- f a ;; bs <- mapM f l' ;; Ok (b :: bs)
  end.

(* ================================================================== *)
(** * numpy arrays of floats *)

Definition Rltb (x y : R) : bool := if Rlt_dec x y then true else false.
Definition Reqb (x y : R) : bool := if Req_dec_T x y then true else false.

(** Ceiling of a real, and truncation toward zero ([int(x)]). *)
Definition Rceil (x : R) : Z := (1 - up (- x))%Z.
Definition Rtrunc (x : R) : Z :=
  if Rlt_dec x 0 then (1 - up (- x))%Z else (up x - 1)%Z.

(** Python's [a / b] on floats. *)
Definition pydiv (a b : R) : outcome R :=
  if Req_dec_T b 0 then Raise ZeroDivisionError else Ok (a / b).

(** numpy's elementwise [a / b]: dividing by zero gives inf or nan. *)
Definition npdiv (a b : R) : outcome R :=
  if Req_dec_T b 0 then NonFinite else Ok (a / b).

Fixpoint sum (l : list R) : R :=
  match l with
  | [] => 0
  | x :: l' => x + sum l'
  end.

Fixpoint zipWith {A B C : Type} (f : A -> B -> C) (l : list A) (m : list B) : list C :=
  match l, m with
  | a :: l', b :: m' => f a b :: zipWith f l' m'
  | _, _ => []
  end.

(** [np.arange(start, stop, step, float)]: [ceil((stop - start) / step)]
    values [start + i * step].  The quotient is the exact one: where it is
    a whole number, the double quotient of numpy can fall just beside it
    and give one value more. *)
Definition arange (start stop step : R) : outcome (list R) :=
  if Req_dec_T step 0 then Raise ZeroDivisionError
  else Ok (map (fun i => start + INR i * step)
               (seq 0 (Z.to_nat (Rceil ((stop - start) / step))))).

(** [np.linspace(start, stop, num)] with the float [num] truncated.  [num]
    is an exact real: where it is a whole number, the double that numpy
    truncates can fall just below it and give one value less. *)
Definition linspace (start stop num : R) : list R :=
  let n := Z.to_nat (Rtrunc num) in
  map (fun i => start + INR i * ((stop - start) / INR (n - 1))) (seq 0 n).

(** [np.searchsorted(a, v)] (side "left") on an ascending array: the number
    of leading entries strictly below [v]. *)
Fixpoint searchsorted (a : list R) (v : R) : nat :=
  match a with
  | [] => 0
  | x :: a' => if Rltb x v then S (searchsorted a' v) else 0
  end.

(** Position addressed by a Python index into an array of [n] entries:
    negative indices count from the end, anything else out of range raises. *)
Definition norm_index (n : nat) (i : Z) : outcome nat :=
  if (0 <=? i)%Z then
    if (i <? Z.of_nat n)%Z then Ok (Z.to_nat i) else Raise IndexError
  else
    if (- Z.of_nat n <=? i)%Z then Ok (Z.to_nat (i + Z.of_nat n)) else Raise IndexError.

Fixpoint set_nth (l : list R) (k : nat) (v : R) : list R :=
  match l, k with
  | [], _ => []
  | _ :: l', O => v :: l'
  | x :: l', S k' => x :: set_nth l' k' v
  end.

Definition getitem (a : list R) (i : Z) : outcome R :=
  k <- norm_index (length a) i ;; Ok (nth k a 0).

Definition setitem (a : list R) (i : Z) (v : R) : outcome (list R) :=
  k <- norm_index (length a) i ;; Ok (set_nth a k v).

(** [a[idx] = vals] with an index array: the writes happen in order, so for
    a repeated index the last one stays. *)
Fixpoint scatter (a : list R) (idx : list Z) (vals : list R) : outcome (list R) :=
  match idx, vals with
  | i :: idx', v :: vals' => a' <- setitem a i v ;; scatter a' idx' vals'
  | _, _ => Ok a
  end.

(** [a[idx] += vals] is [a[idx] = a[idx] + vals]: every sum reads the
    array as it was before the statement. *)
Definition iadd_at (a : list R) (idx : list Z) (vals : list R) : outcome (list R) :=
  old <- mapM (getitem a) idx ;;
  scatter a idx (zipWith Rplus old vals).

Definition isub_at (a : list R) (idx : list Z) (vals : list R) : outcome (list R) :=
  old <- mapM (getitem a) idx ;;
  scatter a idx (zipWith Rminus old vals).

Fixpoint cumsum_from (acc : R) (l : list R) : list R :=
  match l with
  | [] => []
  | x :: l' => (acc + x) :: cumsum_from (acc + x) l'
  end.

Definition cumsum (l : list R) : list R := cumsum_from 0 l.

Definition zeros_like (a : list R) : list R := map (fun _ => 0) a.

(* ================================================================== *)
(** * DesignMatrix._make_hires_ev_base *)

(** The loop of lines 352-354: an offset that fell on its onset is moved
    one sample later, unless it is the last sample. *)
Definition bump_offsets (tmax : Z) (t_onset t_offset : list Z) : list Z :=
  zipWith (fun on off =>
             if ((off <? tmax - 1) && (off =? on))%Z then (off + 1)%Z else off)
          t_onset t_offset.

(** [hft] is [self._hires_frametimes]; [onsets], [durations] and [vals] are
    the three columns of [info]. *)
Definition _make_hires_ev_base (hft onsets durations vals : list R) : outcome (list R) :=
  let tmax := Z.of_nat (length hft) in
  let ev := zeros_like hft in
  let t_onset :=
    map (fun o => Z.min (Z.of_nat (searchsorted hft o)) (tmax - 1)) onsets in
  ev <- iadd_at ev t_onset vals ;;
  let t_offset :=
    map (fun o => Z.min (Z.of_nat (searchsorted hft o)) (tmax - 1))
        (zipWith Rplus onsets durations) in
  let t_offset := bump_offsets tmax t_onset t_offset in
  ev <- isub_at ev t_offset vals ;;
  Ok (cumsum ev).

(** The onset sample of an event, as line 346 computes it. *)
Definition onset_index (hft : list R) (onset : R) : Z :=
  Z.min (Z.of_nat (searchsorted hft onset)) (Z.of_nat (length hft) - 1).

(* ================================================================== *)
(** * pandas tables *)

(** A column label: a string, or the position pandas gives the columns of
    a table built without names. *)
Inductive label : Type :=
| LStr (s : string)
| LInt (n : nat).

Definition label_eqb (a b : label) : bool :=
  match a, b with
  | LStr s, LStr t => String.eqb s t
  | LInt n, LInt m => Nat.eqb n m
  | _, _ => false
  end.

Fixpoint labels_eqb (a b : list label) : bool :=
  match a, b with
  | [], [] => true
  | x :: a', y :: b' => label_eqb x y && labels_eqb a' b'
  | _, _ => false
  end.

(** [index]: the row labels (times); [columns]: the labelled columns in
    order, each as long as the index.  Two columns may share a label. *)
Record DataFrame : Type := mkDataFrame {
  index : list R;
  columns : list (label * list R)
}.

Definition column_labels (df : DataFrame) : list label := map fst (columns df).

(** A 2-d float array, by its number of rows and its columns. *)
Record ndarray : Type := mkArray {
  shape0 : nat;
  acolumns : list (list R)
}.

(** [pd.DataFrame(data, index, columns)] from an array. *)
Definition DataFrame_of_array (data : ndarray) (idx : list R) (names : list label)
  : outcome DataFrame :=
  if negb (Nat.eqb (shape0 data) (length idx)
           && Nat.eqb (length (acolumns data)) (length names))
  then Raise ValueError
  else Ok (mkDataFrame idx (combine names (acolumns data))).

(** [df[key] = vals]: every column labelled [key] is overwritten; when there
    is none, a new last column is added. *)
Definition setcol (df : DataFrame) (key : label) (vals : list R) : DataFrame :=
  if existsb (label_eqb key) (column_labels df)
  then mkDataFrame (index df)
         (map (fun c => if label_eqb key (fst c) then (key, vals) else c) (columns df))
  else mkDataFrame (index df) (columns df ++ [(key, vals)]).

(** [df[key]] for a single label. *)
Definition getcol (df : DataFrame) (key : label) : outcome (list R) :=
  match find (fun c => label_eqb key (fst c)) (columns df) with
  | Some c => Ok (snd c)
  | None => Raise KeyError
  end.

(** [df[names]] for a list of labels. *)
Definition select (df : DataFrame) (names : list label) : outcome DataFrame :=
  cols <- mapM (fun key =>
                  match filter (fun c => label_eqb key (fst c)) (columns df) with
                  | [] => Raise KeyError
                  | cs => Ok cs
                  end) names ;;
  Ok (mkDataFrame (index df) (concat cols)).

(** [cols.isin(names)]. *)
Definition isin (cols names : list label) : list bool :=
  map (fun c => existsb (label_eqb c) names) cols.

(** [np.all(a == b)] on two indexes; pandas refuses to compare indexes of
    different lengths. *)
Fixpoint all_eq (a b : list R) : outcome bool :=
  match a, b with
  | [], [] => Ok true
  | x :: a', y :: b' => r <- all_eq a' b' ;; Ok (Reqb x y && r)
  | _, _ => Raise ValueError
  end.

(** [df.index = idx]. *)
Definition set_index (df : DataFrame) (idx : list R) : outcome DataFrame :=
  if Nat.eqb (length (index df)) (length idx)
  then Ok (mkDataFrame idx (columns df))
  else Raise ValueError.

Definition mean (col : list R) : outcome R := npdiv (sum col) (INR (length col)).

(** [col - col.mean()]. *)
Definition demean_column (col : list R) : outcome (list R) :=
  m <- mean col ;; Ok (map (fun v => v - m) col).

(** [X -= X.mean()], column by column. *)
Definition demean (df : DataFrame) : outcome DataFrame :=
  cols <- mapM (fun c => v <- demean_column (snd c) ;; Ok (fst c, v)) (columns df) ;;
  Ok (mkDataFrame (index df) cols).

Definition string_of_nat (n : nat) : string :=
  DecimalString.NilEmpty.string_of_uint (Nat.to_uint n).

(** [pd.Series([name_base + "_%d"] * n) % range(n)]. *)
Definition default_names (name_base : string) (n : nat) : list label :=
  map (fun i => LStr (String.append name_base (String.append "_"%string (string_of_nat i))))
      (seq 0 n).

(** [np.convolve(a, v)], the full discrete convolution. *)
Definition np_convolve (a v : list R) : outcome (list R) :=
  match a, v with
  | [], _ => Raise ValueError
  | _, [] => Raise ValueError
  | _, _ =>
      Ok (map (fun k =>
                 sum (map (fun i => if Nat.leb i k
                                    then nth i a 0 * nth (k - i) v 0 else 0)
                          (seq 0 (length a))))
              (seq 0 (length a + length v - 1)))
  end.

(** [scipy.interpolate.interp1d(x, y, kind="nearest")(x_new)] for ascending
    [x]: [x_new] outside the range of [x] raises; inside, the sample is
    found by searching the midpoints of consecutive [x]. *)
Definition interp1d_nearest (x y x_new : list R) : outcome (list R) :=
  if negb (Nat.eqb (length x) (length y)) then Raise ValueError
  else match x with
       | [] => Raise ValueError
       | x0 :: _ =>
           let x_bds := zipWith (fun a b => a / 2 + b / 2) (tl x) x in
           mapM (fun v =>
                   if Rltb v x0 || Rltb (last x x0) v then Raise ValueError
                   else Ok (nth (Nat.min (searchsorted x_bds v) (length x - 1)) y 0))
                x_new
       end.

(* ================================================================== *)
(** * HRF models *)

(** What Python does with [cls()]: the body of [__init__] runs, and has to
    return [None]. *)
Inductive pyvalue : Type :=
| PyNone
| PyExceptionClass (e : exn).

Inductive body_result : Type :=
| Returns (v : pyvalue)
| Raises (e : exn).

Definition instantiate {A : Type} (self : A) (r : body_result) : outcome A :=
  match r with
  | Raises e => Raise e
  | Returns PyNone => Ok self
  | Returns _ => Raise TypeError
  end.

Module HRFModel.
(** [raise NotImplementedError] *)
Definition __init__ : body_result := Raises NotImplementedError.
End HRFModel.

Module FIR.
Inductive t : Type := self.

(** [return NotImplementedError] *)
Definition __init__ : body_result := Returns (PyExceptionClass NotImplementedError).

(** [FIR()] *)
Definition new : outcome t := instantiate self __init__.
End FIR.

Module IdentityHRF.
Definition convolve (data frametimes : list R) (name : string) : outcome DataFrame :=
  DataFrame_of_array (mkArray (length data) [data]) frametimes [LStr name].
End IdentityHRF.

(** A frozen [scipy.stats] distribution, by its density. *)
Record rv_frozen : Type := { pdf : R -> outcome R }.

(** [scipy.stats.gamma(a, scale=scale)] at a whole shape [a], where the
    gamma function is a factorial.  A shape or scale that is not positive
    makes every density nan. *)
Definition gamma (a : nat) (scale : R) : rv_frozen :=
  {| pdf := fun x =>
       if (Nat.eqb a 0 || negb (Rltb 0 scale))%bool then NonFinite
       else if Rltb x 0 then Ok 0
       else Ok ((x / scale) ^ (a - 1) * exp (- (x / scale))
                / (INR (fact (a - 1)) * scale)) |}.

Module GammaDifferenceHRF.
Record t : Type := {
  _rv_pos : rv_frozen;
  _rv_neg : rv_frozen;
  _tr : R;
  _oversampling : R;
  _timepoints : list R;
  _temporal_deriv : bool;
  _ratio : R
}.

Definition __init__ (temporal_deriv : bool) (tr oversampling kernel_secs : R)
           (pos_shape : nat) (pos_scale : R) (neg_shape : nat) (neg_scale : R)
           (ratio : R) : outcome t :=
  dt <- pydiv tr oversampling ;;
  num <- pydiv kernel_secs dt ;;
  if (Rtrunc num <? 0)%Z then Raise ValueError
  else Ok {| _rv_pos := gamma pos_shape pos_scale;
             _rv_neg := gamma neg_shape neg_scale;
             _tr := tr;
             _oversampling := oversampling;
             _timepoints := linspace 0 kernel_secs num;
             _temporal_deriv := temporal_deriv;
             _ratio := ratio |}.

(** Lines 58-59: the difference of the two densities at the timepoints. *)
Definition unnormalized (h : t) : outcome (list R) :=
  y <- mapM (pdf (_rv_pos h)) (_timepoints h) ;;
  neg <- mapM (pdf (_rv_neg h)) (_timepoints h) ;;
  Ok (zipWith (fun p n => p - _ratio h * n) y neg).

(** Lines 58-60: the main channel, [y /= y.sum()]. *)
Definition kernel_main (h : t) : outcome (list R) :=
  y <- unnormalized h ;;
  mapM (fun v => npdiv v (sum y)) y.

(** [np.diff(y)] *)
Definition diff (y : list R) : list R := zipWith (fun a b => b - a) y (tl y).

(** The [kernel] property, as its channels ([kernel.T]). *)
Definition kernel (h : t) : outcome (list (list R)) :=
  y <- kernel_main h ;;
  if _temporal_deriv h then
    let dy := 0 :: diff y in
    q <- npdiv (sum (map Rsqr y)) (sum (map Rsqr dy)) ;;
    let scale := sqrt q in
    let dy := map (fun d => d * scale) dy in
    if Nat.eqb (length y) (length dy) then Ok [y; dy] else Raise ValueError
  else Ok [y].

(** [convolve] with an explicit [name], as [DesignMatrix._convolve] calls
    it; [frametimes] may be [None]. *)
Definition convolve (h : t) (data : list R) (frametimes : option (list R))
           (name : string) : outcome DataFrame :=
  let ntp := length data in
  frametimes <-
    match frametimes with
    | Some f => Ok f
    | None =>
        orig_ntp <- pydiv (INR ntp) (_oversampling h) ;;
        step <- pydiv (_tr h) (_oversampling h) ;;
        arange 0 (orig_ntp * _tr h) step
    end ;;
  kernel <- kernel h ;;
  out <- mapM (fun channel => c <- np_convolve data channel ;; Ok (firstn ntp c))
              kernel ;;
  let cols := if _temporal_deriv h
              then [LStr name; LStr (String.append name "_deriv"%string)]
              else [LStr name] in
  DataFrame_of_array (mkArray ntp out) frametimes cols.
End GammaDifferenceHRF.

(** The models a design matrix can be built with: the classes of the module
    that have a [convolve] and can be instantiated. *)
Inductive hrf_model : Type :=
| Identity
| GammaDifference (h : GammaDifferenceHRF.t).

Definition hrf_convolve (m : hrf_model) (data frametimes : list R) (name : string)
  : outcome DataFrame :=
  match m with
  | Identity => IdentityHRF.convolve data frametimes name
  | GammaDifference h => GammaDifferenceHRF.convolve h data (Some frametimes) name
  end.

(* ================================================================== *)
(** * fsl_highpass_matrix *)

(** Square and two-column arrays of known shape, by their entries. *)
Definition vector : Type := nat -> R.
Definition matrix : Type := nat -> nat -> R.

Fixpoint rsum (n : nat) (f : nat -> R) : R :=
  match n with
  | O => 0
  | S m => rsum m f + f m
  end.

(** [np.dot(A, B)] with inner dimension [m]. *)
Definition dot (m : nat) (A B : matrix) : matrix :=
  fun i j => rsum m (fun k => A i k * B k j).

Definition diag (v : vector) : matrix :=
  fun i j => if Nat.eqb i j then v i else 0.

Definition eye : matrix :=
  fun i j => if Nat.eqb i j then 1 else 0.

(** [sp.linalg.toeplitz(c)]: entry (i, j) is [c[|i - j|]]. *)
Definition toeplitz (c : vector) : matrix :=
  fun i j => if Nat.leb j i then c (i - j)%nat else c (j - i)%nat.

(** [np.linalg.pinv(A)] for [A] of shape (n, 2): the Moore-Penrose inverse,
    of shape (2, n).  With [G] the Gram matrix of the two columns, it is
    [inv(G) A^T] at rank 2, [A^T / trace(G)] at rank 1 and 0 at rank 0. *)
Definition pinv (n : nat) (A : matrix) : matrix :=
  let a := rsum n (fun i => A i 0%nat * A i 0%nat) in
  let b := rsum n (fun i => A i 0%nat * A i 1%nat) in
  let d := rsum n (fun i => A i 1%nat * A i 1%nat) in
  let det := a * d - b * b in
  if Req_dec_T det 0 then
    if Req_dec_T (a + d) 0 then fun _ _ => 0
    else fun r j => A j r / (a + d)
  else fun r j =>
         match r with
         | O => (d * A j 0%nat - b * A j 1%nat) / det
         | _ => (a * A j 1%nat - b * A j 0%nat) / det
         end.

(** The running-line kernel weights of lines 621-622. *)
Definition gauss_kernel (sig2n : R) : vector :=
  fun i => 1 / sqrt (2 * PI * sig2n) * exp (- Rsqr (INR i) / (2 * sig2n)).

(** [np.column_stack((np.ones(ntp), np.arange(ntp)))] *)
Definition design_X : matrix :=
  fun i j => match j with O => 1 | _ => INR i end.

Definition fsl_highpass_matrix (ntp : nat) (cutoff tr : R) : outcome matrix :=
  cutoff <- pydiv cutoff tr ;;
  let sig2n := Rsqr (cutoff / sqrt 2) in
  if Req_dec_T sig2n 0 then NonFinite
  else
    let kernel := gauss_kernel sig2n in
    let K := toeplitz kernel in
    let K := dot ntp (diag (fun i => 1 / rsum ntp (fun j => K i j))) K in
    let X := design_X in
    let H := fun k =>
               let W := diag (K k) in
               let hat := dot ntp (dot 2 X (pinv ntp (dot ntp W X))) W in
               hat k in
    Ok (fun i j => eye i j - H i j).

(** [np.dot(F, vals)] for a square [F] of size [ntp]. *)
Definition dot_vec (ntp : nat) (F : matrix) (vals : list R) : outcome (list R) :=
  if Nat.eqb (length vals) ntp
  then Ok (map (fun k => rsum ntp (fun j => F k j * nth j vals 0)) (seq 0 ntp))
  else Raise ValueError.

(* ================================================================== *)
(** * The event table *)

(** The [design] table: the two columns every table has, and the two it may
    lack.  Rows are positions in the columns. *)
Record EventTable : Type := mkEventTable {
  condition : list string;
  onset : list R;
  duration : option (list R);
  value : option (list R)
}.

Definition column_or_empty (c : option (list R)) : list R :=
  match c with
  | Some l => l
  | None => []
  end.

(** [col[mask]] *)
Fixpoint boolean_index {A : Type} (mask : list bool) (col : list A) : list A :=
  match mask, col with
  | b :: mask', x :: col' =>
      if b then x :: boolean_index mask' col' else boolean_index mask' col'
  | _, _ => []
  end.

(** [design.condition.unique()]: first occurrences, in order. *)
Fixpoint unique (l : list string) : list string :=
  match l with
  | [] => []
  | s :: l' => s :: filter (fun t => negb (String.eqb s t)) (unique l')
  end.

Fixpoint insert_sorted (s : string) (l : list string) : list string :=
  match l with
  | [] => [s]
  | t :: l' => if String.leb s t then s :: l else t :: insert_sorted s l'
  end.

(** [np.sort] on strings. *)
Definition np_sort (l : list string) : list string :=
  fold_right insert_sorted [] l.

(* ================================================================== *)
(** * DesignMatrix *)

(** A regressor, confound or artifact component as the caller gives it. *)
Inductive component : Type :=
| CArray (a : ndarray)
| CFrame (df : DataFrame).

(** [np.arange(n)] as floats. *)
Definition positions (n : nat) : list R := map INR (seq 0 n).

(** Lines 395-397: columns labelled 0..n-1 get the default names. *)
Definition relabelled (name_base : string) (n : nat) (comp : DataFrame) : DataFrame :=
  let names := column_labels comp in
  if labels_eqb names (map LInt (seq 0 n))
  then mkDataFrame (index comp)
         (combine (default_names name_base n) (map snd (columns comp)))
  else comp.

(** The index of a table is aligned when it is the acquisition grid, or the
    positions 0..n-1 of as many rows as the grid has. *)
Definition aligned (frametimes : list R) (df : DataFrame) : Prop :=
  index df = frametimes \/
  (index df = positions (length (index df)) /\
   length (index df) = length frametimes).

Definition _validate_component (frametimes : list R) (comp : option component)
           (name_base : string) : outcome (option DataFrame) :=
  match comp with
  | None => Ok None
  | Some c =>
      let n := match c with
               | CArray a => length (acolumns a)
               | CFrame df => length (columns df)
               end in
      comp <- match c with
              | CFrame df => Ok df
              | CArray a => DataFrame_of_array a frametimes (default_names name_base n)
              end ;;
      let comp := relabelled name_base n comp in
      m <- all_eq (index comp) frametimes ;;
      frametimes_match <-
        (if m then Ok true else all_eq (index comp) (positions (length (index comp)))) ;;
      if negb frametimes_match then Raise ValueError
      else comp <- set_index comp frametimes ;; Ok (Some comp)
  end.

Definition _make_hires_base (design : EventTable) (condition_names : list string)
           (hft : list R) : outcome DataFrame :=
  cols <- mapM (fun cond =>
                  let mask := map (String.eqb cond) (condition design) in
                  ev <- _make_hires_ev_base hft
                          (boolean_index mask (onset design))
                          (boolean_index mask (column_or_empty (duration design)))
                          (boolean_index mask (column_or_empty (value design))) ;;
                  Ok (LStr cond, ev))
               condition_names ;;
  Ok (mkDataFrame hft cols).

Definition _convolve (hrf : hrf_model) (hires_base : DataFrame)
           (condition_names : list string) (hft : list R) : outcome DataFrame :=
  fold_left (fun acc cond =>
               hires_conditions <- acc ;;
               data <- getcol hires_base (LStr cond) ;;
               res <- hrf_convolve hrf data hft cond ;;
               Ok (fold_left (fun df c => setcol df (fst c) (snd c))
                             (columns res) hires_conditions))
            condition_names (Ok hires_base).

Definition _subsample_condition_matrix (frametimes : list R) (tr : R) (hft : list R)
           (hires_conditions : DataFrame) : outcome DataFrame :=
  let frametime_midpoints := map (fun t => t + tr / 2) frametimes in
  cols <- mapM (fun c =>
                  v <- interp1d_nearest hft (snd c) frametime_midpoints ;;
                  Ok (fst c, v))
               (columns hires_conditions) ;;
  Ok (mkDataFrame frametimes cols).

Definition _highpass_filter (ntp : nat) (tr : R) (mat : DataFrame) (cutoff : R)
  : outcome DataFrame :=
  F <- fsl_highpass_matrix ntp cutoff tr ;;
  cols <- mapM (fun c => v <- dot_vec ntp F (snd c) ;; Ok (fst c, v)) (columns mat) ;;
  Ok (mkDataFrame (index mat) cols).

(** Lines 262-263: one indicator column for each flagged frame. *)
Definition artifact_indicators (artifacts : list bool) : ndarray :=
  let flagged := boolean_index artifacts (seq 0 (length artifacts)) in
  mkArray (length artifacts)
          (map (fun p => map (fun i => if Nat.eqb i p then 1 else 0)
                             (seq 0 (length artifacts)))
               flagged).

Definition optional_columns (piece : option DataFrame) : list (label * list R) :=
  match piece with
  | Some df => columns df
  | None => []
  end.

Module DesignMatrix.

(** The object's attributes, but for the two diagnostics [_pp_heights]
    and [_singular_values], which nothing here reads. *)
Record t : Type := {
  design : EventTable;
  tr : R;
  frametimes : list R;
  _hires_frametimes : list R;
  _condition_names : list string;
  _ntp : nat;
  _hires_base : DataFrame;
  _hires_conditions : DataFrame;
  design_matrix : DataFrame;
  _full_names : list label;
  _main_names : list label;
  _confound_names : list label;
  _artifact_names : list label;
  main_vector : list bool;
  condition_vector : list bool;
  confound_vector : option (list bool);
  artifact_vector : option (list bool)
}.

Section Init.

(** [PCA(n_components).fit_transform], of scikit-learn. *)
Variable PCA_fit_transform : R -> option DataFrame -> outcome ndarray.

(** Lines 213-216: the defaults are written into the caller's table. *)
Definition fill_defaults (design : EventTable) : EventTable :=
  let rows := length (condition design) in
  let design :=
    match duration design with
    | None => mkEventTable (condition design) (onset design)
                           (Some (repeat 0 rows)) (value design)
    | Some _ => design
    end in
  match value design with
  | None => mkEventTable (condition design) (onset design)
                         (duration design) (Some (repeat 1 rows))
  | Some _ => design
  end.

(** The result of [DesignMatrix(...)]: the caller's [design] table as
    the call leaves it, and the object or the exception. *)
Definition __init__ (design : EventTable) (hrf : hrf_model) (ntp : nat)
           (regressors confounds : option component)
           (artifacts : option (list bool))
           (condition_names : option (list string)) (confound_pca : bool)
           (tr : R) (hpf_cutoff : option R) (oversampling : R)
  : EventTable * outcome t :=
  let design := fill_defaults design in
  (design,
   let stop := INR ntp * tr in
   frametimes <- arange 0 stop tr ;;
   let stop := if Reqb oversampling 1 then stop + 1 else stop in
   step <- pydiv tr oversampling ;;
   hires_frametimes <- arange 0 stop step ;;
   let condition_names :=
     match condition_names with
     | None => np_sort (unique (condition design))
     | Some names => names
     end in
   hires_base <- _make_hires_base design condition_names hires_frametimes ;;
   hires_conditions <- _convolve hrf hires_base condition_names hires_frametimes ;;
   conditions <- _subsample_condition_matrix frametimes tr hires_frametimes
                   hires_conditions ;;
   conditions <- demean conditions ;;
   conditions <- match hpf_cutoff with
                 | Some cutoff => _highpass_filter ntp tr conditions cutoff
                 | None => Ok conditions
                 end ;;
   regressors <- _validate_component frametimes regressors "regressor"%string ;;
   confounds <- _validate_component frametimes confounds "confound"%string ;;
   confounds <-
     (if confound_pca then
        pca <- PCA_fit_transform (99 / 100) confounds ;;
        let n_conf := length (acolumns pca) in
        match confounds with
        | None => Raise AttributeError
        | Some c =>
            df <- DataFrame_of_array pca (index c)
                    (default_names "confound"%string n_conf) ;;
            Ok (Some df)
        end
      else Ok confounds) ;;
   artifacts <-
     match artifacts with
     | Some a =>
         if existsb (fun b => b) a
         then _validate_component frametimes
                (Some (CArray (artifact_indicators a))) "artifact"%string
         else Ok None
     | None => Ok None
     end ;;
   let X := mkDataFrame frametimes
              (columns conditions ++ optional_columns regressors
               ++ optional_columns confounds ++ optional_columns artifacts) in
   X <- demean X ;;
   let main_names :=
     map LStr condition_names ++ map fst (optional_columns regressors) in
   let conf_names := map fst (optional_columns confounds) in
   let art_names := map fst (optional_columns artifacts) in
   let cols := column_labels X in
   Ok {| design := design;
         tr := tr;
         frametimes := frametimes;
         _hires_frametimes := hires_frametimes;
         _condition_names := condition_names;
         _ntp := ntp;
         _hires_base := hires_base;
         _hires_conditions := hires_conditions;
         design_matrix := X;
         _full_names := cols;
         _main_names := main_names;
         _confound_names := conf_names;
         _artifact_names := art_names;
         main_vector := isin cols main_names;
         condition_vector := isin cols (map LStr condition_names);
         confound_vector :=
           match confounds with
           | Some _ => Some (isin cols conf_names)
           | None => None
           end;
         artifact_vector :=
           match artifacts with
           | Some _ => Some (isin cols art_names)
           | None => None
           end |}).

End Init.

Definition main_submatrix (self : t) : outcome DataFrame :=
  select (design_matrix self) (_main_names self).

Definition condition_submatrix (self : t) : outcome DataFrame :=
  select (design_matrix self) (map LStr (_condition_names self)).

Definition confound_submatrix (self : t) : outcome (option DataFrame) :=
  match _confound_names self with
  | [] => Ok None
  | names => df <- select (design_matrix self) names ;; Ok (Some df)
  end.

Definition artifact_submatrix (self : t) : outcome (option DataFrame) :=
  match _artifact_names self with
  | [] => Ok None
  | names => df <- select (design_matrix self) names ;; Ok (Some df)
  end.

End DesignMatrix.

(** Whether the model's [convolve] gives a second, derivative column. *)
Definition has_temporal_deriv (hrf : hrf_model) : bool :=
  match hrf with
  | Identity => false
  | GammaDifference h => GammaDifferenceHRF._temporal_deriv h
  end.

(** Entry [k] of a mask attribute; an attribute that is [None] flags no
    column. *)
Definition mask_at (mask : option (list bool)) (k : nat) : bool :=
  match mask with
  | Some m => nth k m false
  | None => false
  end.

(** The offset sample of an event, as lines 348-354 compute it: searched,
    clamped to the last sample, and moved one sample on when it fell on the
    onset sample before the last one. *)
Definition offset_index (hft : list R) (onset duration : R) : Z :=
  let tmax := Z.of_nat (length hft) in
  let off := Z.min (Z.of_nat (searchsorted hft (onset + duration))) (tmax - 1) in
  if ((off <? tmax - 1) && (off =? onset_index hft onset))%Z then (off + 1)%Z else off.

(** [DesignMatrix.contrast_vector]: [cols] are the columns of
    [self.design_matrix]; each pair of [zip(names, weights)] in turn writes
    its weight where the column is called by its name. *)
Definition contrast_vector_of (cols : list label) (names : list label)
           (weights : list R) : list R :=
  fold_left (fun vector nw =>
               zipWith (fun col v => if label_eqb col (fst nw) then snd nw else v)
                       cols vector)
            (combine names weights) (map (fun _ => 0) cols).

Definition contrast_vector (self : DesignMatrix.t) (names : list label)
           (weights : list R) : list R :=
  contrast_vector_of (column_labels (DesignMatrix.design_matrix self)) names weights.

(** What [fsl_highpass_filter] takes and returns: a 0-d, 1-d or 2-d array. *)
Inductive signal : Type :=
| Scalar (x : R)
| Signal1 (v : list R)
| Signal2 (a : ndarray).

(** [np.atleast_2d(data).reshape(ntp, -1)] for 1-d and 2-d [data], with
    [ntp = len(data)]: a 1-d array becomes one column; no array of no rows
    can be reshaped. *)
Definition as_columns (data : signal) : outcome ndarray :=
  match data with
  | Scalar _ => Raise TypeError
  | Signal1 v =>
      if Nat.eqb (length v) 0 then Raise ValueError else Ok (mkArray (length v) [v])
  | Signal2 a =>
      if Nat.eqb (shape0 a) 0 then Raise ValueError else Ok a
  end.

(** [data.squeeze()]: the axes of length 1 are dropped. *)
Definition squeeze (a : ndarray) : signal :=
  match shape0 a, acolumns a with
  | 1%nat, [c] => Scalar (nth 0 c 0)
  | _, [c] => Signal1 c
  | 1%nat, cols => Signal1 (map (fun c => nth 0 c 0) cols)
  | _, _ => Signal2 a
  end.

(** The value [fsl_highpass_filter] returns.  ([copy] only decides whether
    the caller's array is written as well.) *)
Definition fsl_highpass_filter (data : signal) (cutoff tr : R) : outcome signal :=
  data <- as_columns data ;;
  let ntp := shape0 data in
  F <- fsl_highpass_matrix ntp cutoff tr ;;
  cols <- mapM (dot_vec ntp F) (acolumns data) ;;
  Ok (squeeze (mkArray ntp cols)).

(* ================================================================== *)
(** * Sample inputs *)

(** [GammaDifferenceHRF(temporal_deriv=True, tr=1, oversampling=1,
    kernel_secs=2, pos_shape=1, pos_scale=1, neg_shape=2, neg_scale=1,
    ratio=.5)]: two timepoints, 0 and 2. *)
Definition hrf_two_points : GammaDifferenceHRF.t :=
  {| GammaDifferenceHRF._rv_pos := gamma 1 1;
     GammaDifferenceHRF._rv_neg := gamma 2 1;
     GammaDifferenceHRF._tr := 1;
     GammaDifferenceHRF._oversampling := 1;
     GammaDifferenceHRF._timepoints := [0; 2];
     GammaDifferenceHRF._temporal_deriv := true;
     GammaDifferenceHRF._ratio := 1 / 2 |}.

(** A table with one event of condition "A" at time 0, and neither a
    [duration] nor a [value] column. *)
Definition one_event : EventTable :=
  mkEventTable ["A"%string] [0] None None.

(** A stand-in for scikit-learn where no PCA is asked for. *)
Definition no_pca : R -> option DataFrame -> outcome ndarray :=
  fun _ _ => Raise ValueError.

(* ================================================================== *)
(** * Lemmas *)

Lemma set_nth_length l k v : length (set_nth l k v) = length l.
Proof.
  revert k; induction l as [|x l IH]; intros [|k]; simpl; auto.
Qed.

Lemma nth_set_nth l k v j :
  (k < length l)%nat ->
  nth j (set_nth l k v) 0 = if Nat.eqb j k then v else nth j l 0.
Proof.
  revert k j; induction l as [|x l IH]; intros [|k] [|j] H; simpl in *;
    try lia; auto.
  apply IH; lia.
Qed.

Lemma zeros_like_length a : length (zeros_like a) = length a.
Proof. apply length_map. Qed.

Lemma nth_zeros_like a j : nth j (zeros_like a) 0 = 0.
Proof.
  revert j; induction a as [|x a IH]; intros [|j]; simpl; auto.
Qed.

Lemma norm_index_in_range n i :
  (0 <= i < Z.of_nat n)%Z -> norm_index n i = Ok (Z.to_nat i).
Proof.
  intros H; unfold norm_index.
  destruct (Z.leb_spec 0 i); try lia.
  destruct (Z.ltb_spec i (Z.of_nat n)); try lia; reflexivity.
Qed.

Lemma cumsum_from_length acc l : length (cumsum_from acc l) = length l.
Proof. revert acc; induction l; intros; simpl; auto. Qed.

Lemma nth_cumsum_from acc l j :
  (j < length l)%nat ->
  nth j (cumsum_from acc l) 0 = acc + sum (firstn (S j) l).
Proof.
  revert acc j; induction l as [|x l IH]; intros acc [|j] H; simpl in *; try lia.
  - destruct l; simpl; lra.
  - rewrite IH by lia. simpl. lra.
Qed.

(** Prefix sums of an array that is pointwise a pulse up at [i] and down
    at [k]. *)
Lemma sum_firstn_pointwise (l : list R) (f : nat -> R) n :
  (n <= length l)%nat ->
  (forall j, (j < n)%nat -> nth j l 0 = f j) ->
  sum (firstn n l) = sum (map f (seq 0 n)).
Proof.
  revert l f; induction n as [|n IH]; intros l f Hn Hf; [reflexivity|].
  destruct l as [|x l]; simpl in Hn; [lia|].
  cbn [firstn seq map sum].
  rewrite <- seq_shift, map_map.
  rewrite (IH l (fun j => f (S j))).
  - rewrite <- (Hf 0%nat) by lia. reflexivity.
  - lia.
  - intros j Hj. apply (Hf (S j)). lia.
Qed.

Lemma sum_indicator (v : R) (i n : nat) :
  sum (map (fun j => if Nat.eqb j i then v else 0) (seq 0 n))
  = if Nat.ltb i n then v else 0.
Proof.
  induction n as [|n IH]; [reflexivity|].
  rewrite seq_S, map_app. simpl.
  assert (Happ : forall a b, sum (a ++ b) = sum a + sum b).
  { induction a; intros; simpl; [lra | rewrite IHa; lra]. }
  rewrite Happ, IH. simpl.
  destruct (Nat.ltb_spec i n), (Nat.ltb_spec i (S n)), (Nat.eqb_spec n i);
    try lia; lra.
Qed.

Lemma onset_index_range hft onset :
  hft <> [] ->
  (0 <= onset_index hft onset < Z.of_nat (length hft))%Z.
Proof.
  intros H. unfold onset_index.
  destruct hft as [|x hft]; [congruence|]. simpl length. lia.
Qed.

Lemma iadd_at_one a i v :
  (0 <= i < Z.of_nat (length a))%Z ->
  iadd_at a [i] [v] = Ok (set_nth a (Z.to_nat i) (nth (Z.to_nat i) a 0 + v)).
Proof.
  intros H. unfold iadd_at, getitem. cbn [mapM].
  rewrite (norm_index_in_range _ _ H). cbn [bind zipWith scatter].
  unfold setitem. rewrite (norm_index_in_range _ _ H). reflexivity.
Qed.

Lemma isub_at_one a i v :
  (0 <= i < Z.of_nat (length a))%Z ->
  isub_at a [i] [v] = Ok (set_nth a (Z.to_nat i) (nth (Z.to_nat i) a 0 - v)).
Proof.
  intros H. unfold isub_at, getitem. cbn [mapM].
  rewrite (norm_index_in_range _ _ H). cbn [bind zipWith scatter].
  unfold setitem. rewrite (norm_index_in_range _ _ H). reflexivity.
Qed.

(** The array of a single event of duration 0 before the running sum:
    [value] goes in at the onset sample [i] and out at the sample [k], the
    next one unless [i] is the last. *)
Lemma single_impulse_event (hft : list R) (onset value : R) :
  hft <> [] ->
  let i := onset_index hft onset in
  let k := if (i <? Z.of_nat (length hft) - 1)%Z then (i + 1)%Z else i in
  exists steps,
    _make_hires_ev_base hft [onset] [0] [value] = Ok (cumsum steps) /\
    length steps = length hft /\
    forall m, (m < length hft)%nat ->
      nth m steps 0 =
      (if Nat.eqb m (Z.to_nat i) then value else 0)
      + (if Nat.eqb m (Z.to_nat k) then - value else 0).
Proof.
  intros Hne i k.
  pose proof (onset_index_range hft onset Hne) as Hr. fold i in Hr.
  unfold _make_hires_ev_base. cbn [map zipWith].
  rewrite Rplus_0_r. fold (onset_index hft onset). fold i.
  set (n := length hft) in *.
  rewrite iadd_at_one by (rewrite zeros_like_length; exact Hr).
  cbn [bind]. rewrite nth_zeros_like.
  unfold bump_offsets. cbn [zipWith].
  rewrite Z.eqb_refl, andb_true_r. fold k.
  set (ev1 := set_nth (zeros_like hft) (Z.to_nat i) (0 + value)).
  assert (Hlen1 : length ev1 = n).
  { unfold ev1. rewrite set_nth_length. apply zeros_like_length. }
  assert (Hk : (0 <= k < Z.of_nat n)%Z).
  { unfold k. destruct (Z.ltb_spec i (Z.of_nat n - 1)); lia. }
  rewrite isub_at_one by (rewrite Hlen1; exact Hk).
  cbn [bind].
  set (ev2 := set_nth ev1 (Z.to_nat k) (nth (Z.to_nat k) ev1 0 - value)).
  exists ev2. split; [reflexivity|]. split.
  { unfold ev2. rewrite set_nth_length. exact Hlen1. }
  intros m Hm. unfold ev2. rewrite nth_set_nth by lia.
  unfold ev1. rewrite !nth_set_nth by (rewrite zeros_like_length; fold n; lia).
  rewrite !nth_zeros_like.
  destruct (Nat.eqb_spec m (Z.to_nat k)), (Nat.eqb_spec m (Z.to_nat i)),
           (Nat.eqb_spec (Z.to_nat k) (Z.to_nat i)); try lia; lra.
Qed.

Lemma sum_map_plus (f g : nat -> R) (l : list nat) :
  sum (map (fun m => f m + g m) l) = sum (map f l) + sum (map g l).
Proof. induction l as [|a l IH]; simpl; [lra | rewrite IH; lra]. Qed.

(** C1. For a single event of duration 0 on a non-empty hires grid, the
    encoded timecourse is [value] at the onset sample and 0 at every other
    sample when the onset sample is not the last one of the grid, and 0 at
    every sample when it is the last one. *)
Theorem zero_duration_event_is_one_sample_pulse (hft : list R) (onset value : R) :
  hft <> [] ->
  exists ev,
    _make_hires_ev_base hft [onset] [0] [value] = Ok ev /\
    length ev = length hft /\
    forall j, (j < length hft)%nat ->
      nth j ev 0 =
      if ((onset_index hft onset <? Z.of_nat (length hft) - 1)
          && (Z.of_nat j =? onset_index hft onset))%Z
      then value else 0.
Proof.
  intros Hne.
  pose proof (onset_index_range hft onset Hne) as Hr.
  destruct (single_impulse_event hft onset value Hne) as (steps & Hev & Hlen & Hpt).
  set (i := onset_index hft onset) in *.
  set (n := length hft) in *.
  exists (cumsum steps). split; [exact Hev|]. split.
  { unfold cumsum. rewrite cumsum_from_length. exact Hlen. }
  intros j Hj. unfold cumsum. rewrite nth_cumsum_from by lia.
  rewrite (sum_firstn_pointwise steps
             (fun m => (if Nat.eqb m (Z.to_nat i) then value else 0)
                       + (if Nat.eqb m
                               (Z.to_nat (if (i <? Z.of_nat n - 1)%Z
                                          then (i + 1)%Z else i))
                          then - value else 0)) (S j));
    [| lia | intros m Hm; apply Hpt; lia].
  rewrite sum_map_plus, !sum_indicator.
  destruct (Z.ltb_spec i (Z.of_nat n - 1)); cbn [andb];
    destruct (Z.eqb_spec (Z.of_nat j) i);
    repeat match goal with
           | |- context [Nat.ltb ?a ?b] => destruct (Nat.ltb_spec a b)
           end; try lia; lra.
Qed.

Lemma zero_duration_event_is_one_sample_pulse_witness :
  exists ev,
    _make_hires_ev_base [0; 1; 2] [1] [0] [5] = Ok ev /\
    length ev = 3%nat /\
    forall j, (j < 3)%nat ->
      nth j ev 0 =
      if (Z.ltb (onset_index [0; 1; 2] 1) (Z.of_nat 3 - 1)
          && Z.eqb (Z.of_nat j) (onset_index [0; 1; 2] 1))%bool
      then 5 else 0.
Proof.
  apply (zero_duration_event_is_one_sample_pulse [0; 1; 2] 1 5).
  discriminate.
Defined.

(** On an empty grid the clamp of line 346 gives index -1, which no entry
    of the empty [ev] answers to: the encoder raises. *)
Lemma empty_grid_raises onset duration value :
  _make_hires_ev_base [] [onset] [duration] [value] = Raise IndexError.
Proof. reflexivity. Qed.

(* ------------------------------------------------------------------ *)
(** ** Results and real numbers *)

Lemma bind_Ok_inv {A B : Type} (c : outcome A) (k : A -> outcome B) (b : B) :
  bind c k = Ok b -> exists a, c = Ok a /\ k a = Ok b.
Proof. destruct c; simpl; intros H; try discriminate. eauto. Qed.

Lemma Ok_inj {A : Type} (a b : A) : Ok a = Ok b -> a = b.
Proof. intros H. inversion H. reflexivity. Qed.

Lemma mapM_Ok_map {A B : Type} (f : A -> outcome B) (g : A -> B) (l : list A) :
  (forall a, In a l -> f a = Ok (g a)) -> mapM f l = Ok (map g l).
Proof.
  induction l as [|a l IH]; intros H; simpl; [reflexivity|].
  rewrite (H a) by (left; reflexivity). simpl.
  rewrite IH by (intros; apply H; right; assumption). reflexivity.
Qed.

Lemma up_IZR (z : Z) : up (IZR z) = (z + 1)%Z.
Proof.
  symmetry. apply up_tech; [lra|]. rewrite plus_IZR. lra.
Qed.

Lemma Rceil_IZR (z : Z) : Rceil (IZR z) = z.
Proof. unfold Rceil. rewrite <- opp_IZR, up_IZR. lia. Qed.

Lemma Rtrunc_IZR (z : Z) : Rtrunc (IZR z) = z.
Proof.
  unfold Rtrunc. destruct (Rlt_dec (IZR z) 0).
  - rewrite <- opp_IZR, up_IZR. lia.
  - rewrite up_IZR. lia.
Qed.

Lemma pydiv_Ok a b : b <> 0 -> pydiv a b = Ok (a / b).
Proof. intros H. unfold pydiv. destruct (Req_dec_T b 0); [contradiction | reflexivity]. Qed.

Lemma npdiv_Ok a b : b <> 0 -> npdiv a b = Ok (a / b).
Proof. intros H. unfold npdiv. destruct (Req_dec_T b 0); [contradiction | reflexivity]. Qed.

Lemma npdiv_zero a : npdiv a 0 = NonFinite.
Proof. unfold npdiv. destruct (Req_dec_T 0 0); [reflexivity | congruence]. Qed.

Lemma Rltb_true x y : x < y -> Rltb x y = true.
Proof. intros H. unfold Rltb. destruct (Rlt_dec x y); [reflexivity | contradiction]. Qed.

Lemma Rltb_false x y : ~ x < y -> Rltb x y = false.
Proof. intros H. unfold Rltb. destruct (Rlt_dec x y); [contradiction | reflexivity]. Qed.

Lemma Reqb_true x y : x = y -> Reqb x y = true.
Proof. intros H. unfold Reqb. destruct (Req_dec_T x y); [reflexivity | contradiction]. Qed.

Lemma Reqb_false x y : x <> y -> Reqb x y = false.
Proof. intros H. unfold Reqb. destruct (Req_dec_T x y); [contradiction | reflexivity]. Qed.

Lemma sum_map_div (l : list R) (s : R) : sum (map (fun v => v / s) l) = sum l / s.
Proof.
  induction l as [|x l IH]; simpl; [unfold Rdiv; lra|].
  rewrite IH. unfold Rdiv. lra.
Qed.

(* ------------------------------------------------------------------ *)
(** ** FIR *)

(** C3. [FIR()] does fail, but with the TypeError Python raises for an
    [__init__] that returns a value, not with the NotImplementedError the
    body names (and its parent class raises). *)
Theorem FIR_construction_raises_TypeError :
  FIR.new = Raise TypeError /\
  FIR.new <> Raise NotImplementedError /\
  instantiate FIR.self HRFModel.__init__ = Raise NotImplementedError.
Proof. repeat split. discriminate. Qed.

(* ------------------------------------------------------------------ *)
(** ** GammaDifferenceHRF.kernel *)

(** C7, amended. Whenever the difference of the two densities at the
    timepoints has a sum other than zero, the main channel of the kernel
    sums to 1, and it is the first channel of [kernel] with or without the
    derivative. *)
Theorem kernel_main_sums_to_one (h : GammaDifferenceHRF.t) (y : list R) :
  GammaDifferenceHRF.unnormalized h = Ok y ->
  sum y <> 0 ->
  exists k,
    GammaDifferenceHRF.kernel_main h = Ok k /\
    sum k = 1 /\
    forall chans, GammaDifferenceHRF.kernel h = Ok chans -> nth 0 chans [] = k.
Proof.
  intros Hy Hs.
  assert (Hk : GammaDifferenceHRF.kernel_main h = Ok (map (fun v => v / sum y) y)).
  { unfold GammaDifferenceHRF.kernel_main. rewrite Hy. simpl.
    apply mapM_Ok_map. intros a _. apply npdiv_Ok; assumption. }
  exists (map (fun v => v / sum y) y). split; [exact Hk|]. split.
  - rewrite sum_map_div. field. assumption.
  - intros chans Hc. unfold GammaDifferenceHRF.kernel in Hc.
    rewrite Hk in Hc. simpl in Hc.
    destruct (GammaDifferenceHRF._temporal_deriv h).
    + apply bind_Ok_inv in Hc as (q & _ & Hc).
      match type of Hc with
      | (if ?c then _ else _) = _ => destruct c
      end; inversion Hc; reflexivity.
    + inversion Hc; reflexivity.
Qed.

Lemma hrf_two_points_init :
  GammaDifferenceHRF.__init__ true 1 1 2 1 1 2 1 (1 / 2) = Ok hrf_two_points.
Proof.
  unfold GammaDifferenceHRF.__init__.
  rewrite (pydiv_Ok 1 1) by lra. cbn [bind].
  rewrite (pydiv_Ok 2 (1 / 1)) by lra. cbn [bind].
  replace (2 / (1 / 1)) with (IZR 2) by field.
  unfold linspace. rewrite Rtrunc_IZR. cbn [Z.ltb Z.compare].
  change (Z.to_nat 2) with 2%nat. cbn [Nat.sub seq map].
  unfold hrf_two_points. do 2 f_equal.
  f_equal; [simpl; lra|]. f_equal. simpl. field.
Qed.

Lemma hrf_two_points_unnormalized :
  GammaDifferenceHRF.unnormalized hrf_two_points = Ok [1; 0].
Proof.
  unfold GammaDifferenceHRF.unnormalized, hrf_two_points, gamma.
  cbn [GammaDifferenceHRF._rv_pos GammaDifferenceHRF._rv_neg
       GammaDifferenceHRF._timepoints GammaDifferenceHRF._ratio pdf mapM
       Nat.eqb orb negb].
  rewrite (Rltb_true 0 1) by lra.
  rewrite (Rltb_false 0 0) by lra.
  rewrite (Rltb_false 2 0) by lra.
  cbn [negb bind zipWith Nat.sub fact pow INR Nat.mul Nat.add].
  replace (- (0 / 1)) with 0 by field. rewrite exp_0.
  do 2 f_equal; [field|]. f_equal. field.
Qed.

Lemma kernel_main_sums_to_one_witness :
  exists k,
    GammaDifferenceHRF.kernel_main hrf_two_points = Ok k /\
    sum k = 1 /\
    forall chans, GammaDifferenceHRF.kernel hrf_two_points = Ok chans ->
                  nth 0 chans [] = k.
Proof.
  apply (kernel_main_sums_to_one hrf_two_points [1; 0]).
  - exact hrf_two_points_unnormalized.
  - simpl. lra.
Defined.

(** C7 as stated fails: with the same shape and scale for both gamma
    densities and ratio 1 (other arguments at their defaults) the difference
    is zero at every timepoint, and dividing by its sum leaves no finite
    kernel. *)
Lemma kernel_not_normalized_when_densities_cancel :
  exists h,
    GammaDifferenceHRF.__init__ false 2 16 32 6 1 6 1 1 = Ok h /\
    GammaDifferenceHRF.kernel_main h = NonFinite /\
    GammaDifferenceHRF.kernel h = NonFinite.
Proof.
  unfold GammaDifferenceHRF.__init__.
  rewrite (pydiv_Ok 2 16) by lra. cbn [bind].
  rewrite (pydiv_Ok 32 (2 / 16)) by lra. cbn [bind].
  replace (32 / (2 / 16)) with (IZR 256) by field.
  rewrite Rtrunc_IZR. cbn [Z.ltb Z.compare].
  eexists. split; [reflexivity|].
  assert (Hm : GammaDifferenceHRF.kernel_main
                 {| GammaDifferenceHRF._rv_pos := gamma 6 1;
                    GammaDifferenceHRF._rv_neg := gamma 6 1;
                    GammaDifferenceHRF._tr := 2;
                    GammaDifferenceHRF._oversampling := 16;
                    GammaDifferenceHRF._timepoints := linspace 0 32 (IZR 256);
                    GammaDifferenceHRF._temporal_deriv := false;
                    GammaDifferenceHRF._ratio := 1 |} = NonFinite).
  { unfold GammaDifferenceHRF.kernel_main, GammaDifferenceHRF.unnormalized.
    cbn [GammaDifferenceHRF._rv_pos GammaDifferenceHRF._rv_neg
         GammaDifferenceHRF._timepoints GammaDifferenceHRF._ratio].
    set (f := fun x : R =>
                if Rltb x 0 then 0
                else (x / 1) ^ (6 - 1) * exp (- (x / 1)) / (INR (fact (6 - 1)) * 1)).
    assert (Hpdf : forall l, mapM (pdf (gamma 6 1)) l = Ok (map f l)).
    { intros l. apply mapM_Ok_map. intros a _. unfold gamma, f. cbn [pdf Nat.eqb orb].
      rewrite (Rltb_true 0 1) by lra. cbn [negb].
      destruct (Rltb a 0); reflexivity. }
    rewrite Hpdf. cbn [bind].
    assert (Hz : forall l : list R,
               zipWith (fun p n => p - 1 * n) (map f l) (map f l) = map (fun _ => 0) l).
    { induction l as [|a l IH]; simpl; [reflexivity|]. rewrite IH. f_equal. lra. }
    rewrite Hz.
    assert (Hs : forall l : list R, sum (map (fun _ => 0) l) = 0).
    { induction l as [|a l IH]; simpl; [reflexivity | rewrite IH; lra]. }
    rewrite Hs.
    unfold linspace. rewrite Rtrunc_IZR.
    change (Z.to_nat 256) with (S 255). cbn [seq map mapM].
    rewrite npdiv_zero. reflexivity. }
  split; [exact Hm|].
  unfold GammaDifferenceHRF.kernel. rewrite Hm. reflexivity.
Qed.

(* ------------------------------------------------------------------ *)
(** ** The resampler *)

Lemma last_nonempty (l : list R) (d e : R) : l <> [] -> last l d = last l e.
Proof.
  induction l as [|x l IH]; intros H; [congruence|].
  destruct l as [|y l]; [reflexivity|].
  change (last (y :: l) d = last (y :: l) e). apply IH. discriminate.
Qed.

Lemma interp1d_nearest_in_range (x y x_new : list R) :
  x <> [] ->
  length y = length x ->
  (forall v, In v x_new -> hd 0 x <= v <= last x 0) ->
  interp1d_nearest x y x_new =
  Ok (map (fun v =>
             nth (Nat.min
                    (searchsorted (zipWith (fun a b => a / 2 + b / 2) (tl x) x) v)
                    (length x - 1)) y 0) x_new).
Proof.
  intros Hne Hlen Hin. unfold interp1d_nearest.
  rewrite Hlen, Nat.eqb_refl. cbn [negb].
  destruct x as [|x0 x']; [congruence|].
  apply mapM_Ok_map. intros v Hv. specialize (Hin v Hv). cbn [hd] in Hin.
  rewrite (last_nonempty (x0 :: x') x0 0) by discriminate.
  rewrite Rltb_false by lra. rewrite Rltb_false by lra. reflexivity.
Qed.

Lemma nth_constant (l : list R) (c : R) (i : nat) :
  (forall v, In v l -> v = c) -> (i < length l)%nat -> nth i l 0 = c.
Proof. intros H Hi. apply H. apply nth_In. exact Hi. Qed.

(** C8. When the midpoints [t + tr/2] of all acquisition times lie within
    the hires grid, resampling succeeds, and every hires timecourse that is
    the constant [c] comes out as [c] at every acquisition time. *)
Theorem resampling_preserves_constants
        (frametimes hft : list R) (tr c : R) (hires_conditions : DataFrame) :
  hft <> [] ->
  (forall col, In col (columns hires_conditions) -> length (snd col) = length hft) ->
  (forall t, In t frametimes -> hd 0 hft <= t + tr / 2 <= last hft 0) ->
  exists X,
    _subsample_condition_matrix frametimes tr hft hires_conditions = Ok X /\
    index X = frametimes /\
    length (columns X) = length (columns hires_conditions) /\
    forall k key vals,
      nth_error (columns hires_conditions) k = Some (key, vals) ->
      (forall v, In v vals -> v = c) ->
      nth_error (columns X) k = Some (key, repeat c (length frametimes)).
Proof.
  intros Hne Hlen Hmid.
  set (mids := map (fun t => t + tr / 2) frametimes).
  set (pick := fun (vals : list R) (v : R) =>
                 nth (Nat.min
                        (searchsorted (zipWith (fun a b => a / 2 + b / 2) (tl hft) hft) v)
                        (length hft - 1)) vals 0).
  set (g := fun col : label * list R => (fst col, map (pick (snd col)) mids)).
  exists (mkDataFrame frametimes (map g (columns hires_conditions))).
  split; [|split; [reflexivity | split; [apply length_map|]]].
  - unfold _subsample_condition_matrix. fold mids.
    rewrite (mapM_Ok_map _ g); [reflexivity|].
    intros col Hcol.
    rewrite interp1d_nearest_in_range; [reflexivity | assumption | auto |].
    intros v Hv. unfold mids in Hv. apply in_map_iff in Hv as (t & <- & Ht). auto.
  - intros k key vals Hk Hc. cbn [columns].
    rewrite nth_error_map, Hk. cbn [option_map]. unfold g. cbn [fst snd].
    do 2 f_equal. unfold mids. rewrite map_map.
    assert (Hl : length vals = length hft).
    { apply (Hlen (key, vals)). eapply nth_error_In; eassumption. }
    assert (Hpos : (0 < length hft)%nat).
    { destruct hft; [congruence | simpl; lia]. }
    clear - Hc Hl Hpos. induction frametimes as [|t l IH]; [reflexivity|].
    cbn [map length repeat]. rewrite IH. f_equal.
    unfold pick. apply nth_constant; [assumption | lia].
Qed.

Lemma resampling_preserves_constants_witness :
  exists X,
    _subsample_condition_matrix [0; 1] 1 [0; 1; 2]
      (mkDataFrame [0; 1; 2] [(LStr "A"%string, [7; 7; 7])]) = Ok X /\
    index X = [0; 1] /\
    length (columns X) = 1%nat /\
    forall k key vals,
      nth_error [(LStr "A"%string, [7; 7; 7])] k = Some (key, vals) ->
      (forall v, In v vals -> v = 7) ->
      nth_error (columns X) k = Some (key, repeat 7 2).
Proof.
  apply (resampling_preserves_constants [0; 1] [0; 1; 2] 1 7
           (mkDataFrame [0; 1; 2] [(LStr "A"%string, [7; 7; 7])])).
  - discriminate.
  - intros col [<- | []]. reflexivity.
  - intros t [<- | [<- | []]]; simpl; lra.
Defined.

(** Outside the grid the resampler raises: here the last midpoint, 1.5,
    lies beyond the last hires time, 1. *)
Lemma resampling_outside_grid_raises :
  _subsample_condition_matrix [0; 1] 1 [0; 1]
    (mkDataFrame [0; 1] [(LStr "A"%string, [7; 7])]) = Raise ValueError.
Proof.
  unfold _subsample_condition_matrix, interp1d_nearest.
  cbn [columns map mapM snd length Nat.eqb negb last bind].
  rewrite (Rltb_false (0 + 1 / 2) 0) by lra.
  rewrite (Rltb_false 1 (0 + 1 / 2)) by lra.
  rewrite (Rltb_false (1 + 1 / 2) 0) by lra.
  rewrite (Rltb_true 1 (1 + 1 / 2)) by lra.
  reflexivity.
Qed.

(* ------------------------------------------------------------------ *)
(** ** Component validation *)

Lemma all_eq_length_mismatch (a b : list R) :
  length a <> length b -> all_eq a b = Raise ValueError.
Proof.
  revert b; induction a as [|x a IH]; intros [|y b] H; simpl in *;
    try congruence; try reflexivity.
  rewrite IH by congruence. reflexivity.
Qed.

Lemma all_eq_same_length (a b : list R) :
  length a = length b ->
  exists m, all_eq a b = Ok m /\ (m = true <-> a = b).
Proof.
  revert b; induction a as [|x a IH]; intros [|y b] H; simpl in *; try discriminate.
  - exists true. repeat split.
  - destruct (IH b) as (m & Hm & Hiff); [congruence|].
    rewrite Hm. cbn [bind]. eexists; split; [reflexivity|].
    unfold Reqb. destruct (Req_dec_T x y) as [->|Hxy]; cbn [andb].
    + rewrite Hiff. split; [intros ->; reflexivity | intros E; inversion E; reflexivity].
    + split; [discriminate | intros E; inversion E; contradiction].
Qed.

Lemma positions_length n : length (positions n) = n.
Proof. unfold positions. rewrite length_map, length_seq. reflexivity. Qed.

Lemma default_names_length base n : length (default_names base n) = n.
Proof. unfold default_names. rewrite length_map, length_seq. reflexivity. Qed.

Lemma map_snd_combine {A B : Type} (l : list A) (m : list B) :
  length l = length m -> map snd (combine l m) = m.
Proof.
  revert m; induction l as [|a l IH]; intros [|b m] H; simpl in *;
    try discriminate; try reflexivity.
  f_equal. apply IH. congruence.
Qed.

Lemma relabelled_index base n df : index (relabelled base n df) = index df.
Proof. unfold relabelled. destruct (labels_eqb _ _); reflexivity. Qed.

Lemma relabelled_data base df :
  map snd (columns (relabelled base (length (columns df)) df)) = map snd (columns df).
Proof.
  unfold relabelled. destruct (labels_eqb _ _); [|reflexivity].
  cbn [columns]. apply map_snd_combine.
  rewrite default_names_length, length_map. reflexivity.
Qed.

Lemma validate_frame_unfold frametimes df base :
  _validate_component frametimes (Some (CFrame df)) base =
  (m <- all_eq (index df) frametimes ;;
   frametimes_match <-
     (if m then Ok true else all_eq (index df) (positions (length (index df)))) ;;
   if negb frametimes_match then Raise ValueError
   else comp <- set_index (relabelled base (length (columns df)) df) frametimes ;;
        Ok (Some comp)).
Proof.
  unfold _validate_component. cbn [bind].
  rewrite relabelled_index. reflexivity.
Qed.

(** C4. A table whose index is the acquisition grid or the plain positions
    0..n-1 is accepted and put on the acquisition grid, data unchanged; a
    table with any other index raises ValueError; an array is accepted with
    the acquisition grid as index when it has one row per frame and raises
    ValueError otherwise. *)
Theorem validate_component_accepts_aligned_only
        (frametimes : list R) (name_base : string) :
  (forall df, aligned frametimes df ->
     exists comp,
       _validate_component frametimes (Some (CFrame df)) name_base = Ok (Some comp) /\
       index comp = frametimes /\
       map snd (columns comp) = map snd (columns df)) /\
  (forall df, ~ aligned frametimes df ->
     _validate_component frametimes (Some (CFrame df)) name_base = Raise ValueError) /\
  (forall a, shape0 a = length frametimes ->
     exists comp,
       _validate_component frametimes (Some (CArray a)) name_base = Ok (Some comp) /\
       index comp = frametimes /\
       map snd (columns comp) = acolumns a) /\
  (forall a, shape0 a <> length frametimes ->
     _validate_component frametimes (Some (CArray a)) name_base = Raise ValueError).
Proof.
  repeat split.
  - (* aligned tables *)
    intros df Hal. rewrite validate_frame_unfold.
    assert (Hlen : length (index df) = length frametimes).
    { destruct Hal as [-> | [_ H]]; [reflexivity | exact H]. }
    destruct (all_eq_same_length (index df) frametimes Hlen) as (m & Hm & Hiff).
    rewrite Hm. cbn [bind].
    assert (Hmatch : (if m then Ok true
                      else all_eq (index df) (positions (length (index df)))) = Ok true).
    { destruct m; [reflexivity|].
      destruct Hal as [E | [E _]]; [apply Hiff in E; discriminate|].
      destruct (all_eq_same_length (index df) (positions (length (index df))))
        as (m' & Hm' & Hiff'); [rewrite positions_length; reflexivity|].
      rewrite Hm'. f_equal. apply Hiff'. exact E. }
    rewrite Hmatch. cbn [bind negb].
    unfold set_index. rewrite relabelled_index, Hlen, Nat.eqb_refl. cbn [bind].
    eexists. split; [reflexivity|]. split; [reflexivity|].
    cbn [columns]. apply relabelled_data.
  - (* any other index *)
    intros df Hnot. rewrite validate_frame_unfold.
    destruct (Nat.eq_dec (length (index df)) (length frametimes)) as [Hlen | Hlen].
    + destruct (all_eq_same_length (index df) frametimes Hlen) as (m & Hm & Hiff).
      rewrite Hm. cbn [bind].
      destruct m.
      * exfalso. apply Hnot. left. apply Hiff. reflexivity.
      * destruct (all_eq_same_length (index df) (positions (length (index df))))
          as (m' & Hm' & Hiff'); [rewrite positions_length; reflexivity|].
        rewrite Hm'. cbn [bind].
        destruct m'; [|reflexivity].
        exfalso. apply Hnot. right. split; [apply Hiff'; reflexivity | exact Hlen].
    + rewrite all_eq_length_mismatch by exact Hlen. reflexivity.
  - (* arrays of the right height *)
    intros a Ha. unfold _validate_component, DataFrame_of_array.
    rewrite Ha, default_names_length, !Nat.eqb_refl. cbn [andb negb bind].
    set (df := mkDataFrame frametimes
                 (combine (default_names name_base (length (acolumns a))) (acolumns a))).
    assert (Hdata : map snd (columns df) = acolumns a).
    { apply map_snd_combine. apply default_names_length. }
    assert (Hncol : length (columns df) = length (acolumns a)).
    { rewrite <- Hdata, length_map. reflexivity. }
    rewrite <- Hncol.
    rewrite relabelled_index. cbn [index df].
    destruct (all_eq_same_length frametimes frametimes eq_refl) as (m & Hm & Hiff).
    rewrite Hm. cbn [bind].
    replace m with true by (symmetry; apply Hiff; reflexivity).
    cbn [bind negb]. unfold set_index. rewrite relabelled_index.
    cbn [index df]. rewrite Nat.eqb_refl. cbn [bind].
    eexists. split; [reflexivity|]. split; [reflexivity|].
    cbn [columns]. rewrite relabelled_data. exact Hdata.
  - (* arrays of another height *)
    intros a Ha. unfold _validate_component, DataFrame_of_array.
    apply Nat.eqb_neq in Ha. rewrite Ha. reflexivity.
Qed.

Lemma validate_component_accepts_aligned_only_witness :
  exists comp,
    _validate_component [0; 2]
      (Some (CFrame (mkDataFrame [0; 1] [(LInt 0, [3; 5])]))) "confound"%string
    = Ok (Some comp) /\
    index comp = [0; 2] /\
    map snd (columns comp) = [[3; 5]].
Proof.
  apply (proj1 (validate_component_accepts_aligned_only [0; 2] "confound"%string)).
  right. split; reflexivity.
Defined.

(** An index that is neither the grid nor the positions is refused. *)
Lemma misaligned_index_raises :
  _validate_component [0; 2]
    (Some (CFrame (mkDataFrame [5; 7] [(LStr "motion"%string, [3; 5])])))
    "confound"%string
  = Raise ValueError.
Proof.
  rewrite validate_frame_unfold. cbn [index all_eq bind length positions seq map].
  rewrite (Reqb_false 5 0), (Reqb_false 7 2), (Reqb_false 5 (INR 0)),
    (Reqb_false 7 (INR 1)) by (simpl; lra).
  reflexivity.
Qed.

(* ------------------------------------------------------------------ *)
(** ** The constructor, step by step *)

Section InitInversion.

Variable PCA_fit_transform : R -> option DataFrame -> outcome ndarray.
Variables (design : EventTable) (hrf : hrf_model) (ntp : nat).
Variables (regressors confounds : option component).
Variables (artifacts : option (list bool)) (condition_names : option (list string)).
Variables (confound_pca : bool) (tr : R) (hpf_cutoff : option R) (oversampling : R).
Variables (design' : EventTable) (dm : DesignMatrix.t).

Hypothesis Hinit :
  DesignMatrix.__init__ PCA_fit_transform design hrf ntp regressors confounds
    artifacts condition_names confound_pca tr hpf_cutoff oversampling
  = (design', Ok dm).

Let names : list string :=
  match condition_names with
  | None => np_sort (unique (condition design'))
  | Some l => l
  end.

Lemma init_table : design' = DesignMatrix.fill_defaults design.
Proof. unfold DesignMatrix.__init__ in Hinit. inversion Hinit. reflexivity. Qed.

Lemma init_steps :
  exists frametimes hft hires_base hires_conditions sampled centred conditions
         regs confs confs' arts,
    arange 0 (INR ntp * tr) tr = Ok frametimes /\
    _make_hires_base design' names hft = Ok hires_base /\
    _convolve hrf hires_base names hft = Ok hires_conditions /\
    _subsample_condition_matrix frametimes tr hft hires_conditions = Ok sampled /\
    demean sampled = Ok centred /\
    match hpf_cutoff with
    | Some cutoff => _highpass_filter ntp tr centred cutoff
    | None => Ok centred
    end = Ok conditions /\
    _validate_component frametimes regressors "regressor"%string = Ok regs /\
    _validate_component frametimes confounds "confound"%string = Ok confs /\
    (if confound_pca then
       pca <- PCA_fit_transform (99 / 100) confs ;;
       match confs with
       | None => Raise AttributeError
       | Some c =>
           df <- DataFrame_of_array pca (index c)
                   (default_names "confound"%string (length (acolumns pca))) ;;
           Ok (Some df)
       end
     else Ok confs) = Ok confs' /\
    match artifacts with
    | Some a =>
        if existsb (fun b => b) a
        then _validate_component frametimes
               (Some (CArray (artifact_indicators a))) "artifact"%string
        else Ok None
    | None => Ok None
    end = Ok arts /\
    demean (mkDataFrame frametimes
              (columns conditions ++ optional_columns regs
               ++ optional_columns confs' ++ optional_columns arts))
    = Ok (DesignMatrix.design_matrix dm) /\
    DesignMatrix.frametimes dm = frametimes /\
    DesignMatrix._condition_names dm = names /\
    DesignMatrix._full_names dm = column_labels (DesignMatrix.design_matrix dm) /\
    DesignMatrix._main_names dm
      = map LStr names ++ map fst (optional_columns regs) /\
    DesignMatrix._confound_names dm = map fst (optional_columns confs') /\
    DesignMatrix._artifact_names dm = map fst (optional_columns arts) /\
    DesignMatrix.main_vector dm
      = isin (DesignMatrix._full_names dm) (DesignMatrix._main_names dm) /\
    DesignMatrix.confound_vector dm
      = match confs' with
        | Some _ => Some (isin (DesignMatrix._full_names dm)
                               (DesignMatrix._confound_names dm))
        | None => None
        end /\
    DesignMatrix.artifact_vector dm
      = match arts with
        | Some _ => Some (isin (DesignMatrix._full_names dm)
                               (DesignMatrix._artifact_names dm))
        | None => None
        end.
Proof.
  pose proof init_table as Ht.
  unfold DesignMatrix.__init__ in Hinit.
  rewrite <- Ht in Hinit.
  assert (H : snd (design', Ok dm) = Ok dm) by reflexivity.
  rewrite <- Hinit in H. cbn [snd] in H. clear Hinit.
  fold names in H.
  apply bind_Ok_inv in H as (frametimes & Hft & H).
  apply bind_Ok_inv in H as (step & _ & H).
  apply bind_Ok_inv in H as (hft & _ & H).
  apply bind_Ok_inv in H as (hires_base & Hhb & H).
  apply bind_Ok_inv in H as (hires_conditions & Hhc & H).
  apply bind_Ok_inv in H as (sampled & Hs & H).
  apply bind_Ok_inv in H as (centred & Hc & H).
  apply bind_Ok_inv in H as (conditions & Hcond & H).
  apply bind_Ok_inv in H as (regs & Hregs & H).
  apply bind_Ok_inv in H as (confs & Hconfs & H).
  apply bind_Ok_inv in H as (confs' & Hconfs' & H).
  apply bind_Ok_inv in H as (arts & Harts & H).
  apply bind_Ok_inv in H as (X & HX & H).
  inversion H; subst dm; clear H. cbn.
  exists frametimes, hft, hires_base, hires_conditions, sampled, centred,
         conditions, regs, confs, confs', arts.
  repeat (split; [first [assumption | reflexivity]|]). reflexivity.
Qed.

End InitInversion.

(* ------------------------------------------------------------------ *)
(** ** Mean-centering *)

Lemma mapM_In_inv {A B : Type} (f : A -> outcome B) (l : list A) (r : list B) (b : B) :
  mapM f l = Ok r -> In b r -> exists a, In a l /\ f a = Ok b.
Proof.
  revert r; induction l as [|a l IH]; simpl; intros r H Hb.
  - inversion H; subst. contradiction.
  - apply bind_Ok_inv in H as (b0 & Hb0 & H).
    apply bind_Ok_inv in H as (bs & Hbs & H).
    inversion H; subst. destruct Hb as [<- | Hb].
    + exists a. auto.
    + destruct (IH bs Hbs Hb) as (a' & Ha' & Hf). exists a'. auto.
Qed.

Lemma sum_map_minus (l : list R) (m : R) :
  sum (map (fun v => v - m) l) = sum l - INR (length l) * m.
Proof.
  induction l as [|x l IH]; [simpl; lra|].
  cbn [map sum length]. rewrite IH, S_INR. lra.
Qed.

Lemma demean_column_mean_zero (col v : list R) :
  demean_column col = Ok v -> mean v = Ok 0 /\ length v = length col.
Proof.
  unfold demean_column. intros H.
  apply bind_Ok_inv in H as (m & Hm & H). inversion H; subst v; clear H.
  unfold mean, npdiv in *.
  destruct (Req_dec_T (INR (length col)) 0) as [|Hn]; [discriminate|].
  inversion Hm; subst m; clear Hm.
  rewrite length_map.
  destruct (Req_dec_T (INR (length col)) 0); [contradiction|].
  split; [|reflexivity]. f_equal. rewrite sum_map_minus. field. assumption.
Qed.

Lemma demean_mean_zero (df X : DataFrame) :
  demean df = Ok X ->
  forall col, In col (columns X) -> mean (snd col) = Ok 0.
Proof.
  unfold demean. intros H col Hcol.
  apply bind_Ok_inv in H as (cols & Hcols & H). inversion H; subst X; clear H.
  cbn [columns] in Hcol.
  destruct (mapM_In_inv _ _ _ _ Hcols Hcol) as (c & _ & Hc).
  apply bind_Ok_inv in Hc as (v & Hv & Hc). inversion Hc; subst col. cbn [snd].
  apply (demean_column_mean_zero (snd c)). exact Hv.
Qed.

(** C2. In every design matrix that is constructed, each column of the full
    matrix has a mean, over its rows, of exactly 0. *)
Theorem design_matrix_columns_have_mean_zero
        (PCA_fit_transform : R -> option DataFrame -> outcome ndarray)
        (design : EventTable) (hrf : hrf_model) (ntp : nat)
        (regressors confounds : option component) (artifacts : option (list bool))
        (condition_names : option (list string)) (confound_pca : bool)
        (tr : R) (hpf_cutoff : option R) (oversampling : R)
        (design' : EventTable) (dm : DesignMatrix.t) :
  DesignMatrix.__init__ PCA_fit_transform design hrf ntp regressors confounds
    artifacts condition_names confound_pca tr hpf_cutoff oversampling
  = (design', Ok dm) ->
  forall col, In col (columns (DesignMatrix.design_matrix dm)) ->
    mean (snd col) = Ok 0.
Proof.
  intros Hinit.
  destruct (init_steps _ _ _ _ _ _ _ _ _ _ _ _ _ _ Hinit)
    as (ft & hft & hb & hc & s & c & conds & regs & confs & confs' & arts & H).
  decompose [and] H. eapply demean_mean_zero. eassumption.
Qed.

(* ------------------------------------------------------------------ *)
(** ** Artifacts *)

(** C6. When the artifact mask has no flagged frame, the constructed design
    matrix has no artifact submatrix (and no artifact mask). *)
Theorem all_false_artifacts_give_no_submatrix
        (PCA_fit_transform : R -> option DataFrame -> outcome ndarray)
        (design : EventTable) (hrf : hrf_model) (ntp : nat)
        (regressors confounds : option component) (artifacts : list bool)
        (condition_names : option (list string)) (confound_pca : bool)
        (tr : R) (hpf_cutoff : option R) (oversampling : R)
        (design' : EventTable) (dm : DesignMatrix.t) :
  existsb (fun b => b) artifacts = false ->
  DesignMatrix.__init__ PCA_fit_transform design hrf ntp regressors confounds
    (Some artifacts) condition_names confound_pca tr hpf_cutoff oversampling
  = (design', Ok dm) ->
  DesignMatrix.artifact_submatrix dm = Ok None /\
  DesignMatrix._artifact_names dm = [] /\
  DesignMatrix.artifact_vector dm = None.
Proof.
  intros Hmask Hinit.
  destruct (init_steps _ _ _ _ _ _ _ _ _ _ _ _ _ _ Hinit)
    as (ft & hft & hb & hc & s & c & conds & regs & confs & confs' & arts & H).
  decompose [and] H. clear H.
  rewrite Hmask in *.
  match goal with Ha : Ok None = Ok arts |- _ => inversion Ha; subst arts end.
  unfold DesignMatrix.artifact_submatrix.
  repeat match goal with E : _ dm = _ |- _ => rewrite E end.
  repeat split.
Qed.

(* ------------------------------------------------------------------ *)
(** ** The caller's event table *)

(** C9, amended. The constructor leaves the [condition] and [onset] columns
    and any [duration] and [value] column of the caller's table as they are,
    and adds a [duration] column of zeros and a [value] column of ones where
    the table has none; a table that has both columns is left unchanged. *)
Theorem init_only_adds_missing_columns
        (PCA_fit_transform : R -> option DataFrame -> outcome ndarray)
        (design : EventTable) (hrf : hrf_model) (ntp : nat)
        (regressors confounds : option component) (artifacts : option (list bool))
        (condition_names : option (list string)) (confound_pca : bool)
        (tr : R) (hpf_cutoff : option R) (oversampling : R) :
  let design' :=
    fst (DesignMatrix.__init__ PCA_fit_transform design hrf ntp regressors confounds
           artifacts condition_names confound_pca tr hpf_cutoff oversampling) in
  condition design' = condition design /\
  onset design' = onset design /\
  duration design' =
    Some (match duration design with
          | Some l => l
          | None => repeat 0 (length (condition design))
          end) /\
  value design' =
    Some (match value design with
          | Some l => l
          | None => repeat 1 (length (condition design))
          end) /\
  (duration design <> None -> value design <> None -> design' = design).
Proof.
  unfold DesignMatrix.__init__. cbn [fst]. unfold DesignMatrix.fill_defaults.
  destruct design as [c o [d|] [v|]]; cbn; repeat split; congruence.
Qed.

Lemma init_only_adds_missing_columns_witness :
  fst (DesignMatrix.__init__ no_pca (mkEventTable ["A"%string] [0] (Some [2]) (Some [1]))
         Identity 2 None None None None false 1 None 1)
  = mkEventTable ["A"%string] [0] (Some [2]) (Some [1]).
Proof.
  apply (init_only_adds_missing_columns no_pca
           (mkEventTable ["A"%string] [0] (Some [2]) (Some [1]))
           Identity 2 None None None None false 1 None 1); discriminate.
Defined.

(* ------------------------------------------------------------------ *)
(** ** Column labels through the pipeline *)

Lemma label_eqb_eq (a b : label) : label_eqb a b = true <-> a = b.
Proof.
  destruct a as [s|n], b as [t|m]; simpl; split; intros H; try discriminate.
  - apply String.eqb_eq in H. congruence.
  - inversion H. apply String.eqb_refl.
  - apply Nat.eqb_eq in H. congruence.
  - inversion H. apply Nat.eqb_refl.
Qed.

Lemma existsb_label_In (l : label) (names : list label) :
  existsb (label_eqb l) names = true <-> In l names.
Proof.
  rewrite existsb_exists. split.
  - intros (x & Hx & E). apply label_eqb_eq in E. congruence.
  - intros H. exists l. split; [assumption | apply label_eqb_eq; reflexivity].
Qed.

Lemma mapM_labels {A : Type} (f : A -> outcome (list R)) (g : A -> label)
      (l : list A) (r : list (label * list R)) :
  mapM (fun x => v <- f x ;; Ok (g x, v)) l = Ok r -> map fst r = map g l.
Proof.
  revert r; induction l as [|a l IH]; simpl; intros r H.
  - inversion H; reflexivity.
  - apply bind_Ok_inv in H as (b & Hb & H).
    apply bind_Ok_inv in Hb as (v & _ & Hb). inversion Hb; subst b.
    apply bind_Ok_inv in H as (bs & Hbs & H). inversion H; subst r.
    simpl. f_equal. apply IH. exact Hbs.
Qed.

Lemma demean_labels df X : demean df = Ok X -> column_labels X = column_labels df.
Proof.
  unfold demean. intros H. apply bind_Ok_inv in H as (cols & Hc & H).
  inversion H; subst X. unfold column_labels. cbn [columns].
  exact (mapM_labels _ fst _ _ Hc).
Qed.

Lemma subsample_labels ft tr hft hc X :
  _subsample_condition_matrix ft tr hft hc = Ok X ->
  column_labels X = column_labels hc.
Proof.
  unfold _subsample_condition_matrix. intros H.
  apply bind_Ok_inv in H as (cols & Hc & H).
  inversion H; subst X. unfold column_labels. cbn [columns].
  exact (mapM_labels _ fst _ _ Hc).
Qed.

Lemma highpass_labels ntp tr mat cutoff X :
  _highpass_filter ntp tr mat cutoff = Ok X ->
  column_labels X = column_labels mat.
Proof.
  unfold _highpass_filter. intros H.
  apply bind_Ok_inv in H as (F & _ & H).
  apply bind_Ok_inv in H as (cols & Hc & H).
  inversion H; subst X. unfold column_labels. cbn [columns].
  exact (mapM_labels _ fst _ _ Hc).
Qed.

Lemma make_hires_base_labels design names hft hb :
  _make_hires_base design names hft = Ok hb ->
  column_labels hb = map LStr names.
Proof.
  unfold _make_hires_base. intros H.
  apply bind_Ok_inv in H as (cols & Hc & H).
  inversion H; subst hb. unfold column_labels. cbn [columns].
  exact (mapM_labels _ LStr _ _ Hc).
Qed.

Lemma map_fst_combine {A B : Type} (l : list A) (m : list B) :
  length l = length m -> map fst (combine l m) = l.
Proof.
  revert m; induction l as [|a l IH]; intros [|b m] H; simpl in *;
    try discriminate; try reflexivity.
  f_equal. apply IH. congruence.
Qed.

Lemma setcol_labels_cases df key vals :
  column_labels (setcol df key vals)
  = if existsb (label_eqb key) (column_labels df)
    then column_labels df
    else column_labels df ++ [key].
Proof.
  unfold setcol. destruct (existsb (label_eqb key) (column_labels df)) eqn:E.
  - unfold column_labels. cbn [columns]. rewrite map_map.
    apply map_ext. intros c.
    destruct (label_eqb key (fst c)) eqn:Ec; [|reflexivity].
    apply label_eqb_eq in Ec. exact Ec.
  - unfold column_labels. cbn [columns]. rewrite map_app. reflexivity.
Qed.

Lemma hrf_convolve_labels hrf data hft cond res :
  hrf_convolve hrf data hft cond = Ok res ->
  column_labels res
  = if has_temporal_deriv hrf
    then [LStr cond; LStr (String.append cond "_deriv"%string)]
    else [LStr cond].
Proof.
  intros H. destruct hrf as [|h]; cbn [hrf_convolve has_temporal_deriv] in *.
  - unfold IdentityHRF.convolve, DataFrame_of_array in H.
    destruct (negb _); inversion H. reflexivity.
  - unfold GammaDifferenceHRF.convolve in H. cbn [bind] in H.
    apply bind_Ok_inv in H as (k & _ & H).
    apply bind_Ok_inv in H as (out & _ & H).
    unfold DataFrame_of_array in H. cbn [shape0 acolumns] in H.
    destruct (negb _) eqn:E; [discriminate|].
    apply Ok_inj in H. subst res.
    apply negb_false_iff, andb_true_iff in E as [_ E].
    apply Nat.eqb_eq in E.
    unfold column_labels. cbn [columns]. apply map_fst_combine.
    symmetry. exact E.
Qed.

(** The labels after [_convolve]: the condition names, then labels
    [<condition>_deriv], which only a model with a temporal derivative
    adds, and which it adds for every condition. *)
Lemma convolve_labels hrf hb names hft hc :
  column_labels hb = map LStr names ->
  _convolve hrf hb names hft = Ok hc ->
  exists derivs,
    column_labels hc = map LStr names ++ derivs /\
    (forall l, In l derivs ->
       has_temporal_deriv hrf = true /\
       exists c, In c names /\ l = LStr (String.append c "_deriv"%string)) /\
    (has_temporal_deriv hrf = true ->
     forall c, In c names ->
       In (LStr (String.append c "_deriv"%string)) (map LStr names ++ derivs)).
Proof.
  intros Hhb. unfold _convolve.
  assert (Hgen : forall todo done acc,
             (forall c, In c todo -> In c names) ->
             (forall df, acc = Ok df ->
                exists derivs,
                  column_labels df = map LStr names ++ derivs /\
                  (forall l, In l derivs ->
                     has_temporal_deriv hrf = true /\
                     exists c, In c names
                               /\ l = LStr (String.append c "_deriv"%string)) /\
                  (has_temporal_deriv hrf = true ->
                   forall c, In c done ->
                     In (LStr (String.append c "_deriv"%string))
                        (map LStr names ++ derivs))) ->
             fold_left
               (fun acc cond =>
                  hires_conditions <- acc ;;
                  data <- getcol hb (LStr cond) ;;
                  res <- hrf_convolve hrf data hft cond ;;
                  Ok (fold_left (fun df c => setcol df (fst c) (snd c))
                                (columns res) hires_conditions))
               todo acc = Ok hc ->
             exists derivs,
               column_labels hc = map LStr names ++ derivs /\
               (forall l, In l derivs ->
                  has_temporal_deriv hrf = true /\
                  exists c, In c names
                            /\ l = LStr (String.append c "_deriv"%string)) /\
               (has_temporal_deriv hrf = true ->
                forall c, In c (done ++ todo) ->
                  In (LStr (String.append c "_deriv"%string))
                     (map LStr names ++ derivs))).
  { induction todo as [|cond todo IH]; intros done acc Hin Hacc H.
    - simpl in H. destruct (Hacc _ H) as (d & Hl & Hd1 & Hd2).
      exists d. rewrite app_nil_r. auto.
    - cbn [fold_left] in H.
      replace (done ++ cond :: todo) with ((done ++ [cond]) ++ todo)
        by (rewrite <- app_assoc; reflexivity).
      eapply IH; [| |exact H].
      + intros c Hc. apply Hin. right. exact Hc.
      + intros df Hdf.
        apply bind_Ok_inv in Hdf as (hcs & Ha & Hdf).
        apply bind_Ok_inv in Hdf as (data & _ & Hdf).
        apply bind_Ok_inv in Hdf as (res & Hres & Hdf).
        apply Ok_inj in Hdf. subst df.
        destruct (Hacc _ Ha) as (d & Hl & Hd1 & Hd2).
        pose proof (hrf_convolve_labels _ _ _ _ _ Hres) as Hlr.
        assert (Hcond : existsb (label_eqb (LStr cond)) (column_labels hcs) = true).
        { apply existsb_label_In. rewrite Hl. apply in_or_app. left.
          apply in_map. apply Hin. left. reflexivity. }
        unfold column_labels in Hlr.
        destruct (has_temporal_deriv hrf) eqn:Ed.
        * destruct (columns res) as [|[k1 v1] [|[k2 v2] [|c3 rest]]];
            try discriminate.
          cbn [map fst] in Hlr. inversion Hlr; subst k1 k2; clear Hlr.
          cbn [fold_left fst snd].
          rewrite setcol_labels_cases.
          rewrite (setcol_labels_cases hcs), Hcond.
          destruct (existsb (label_eqb (LStr (String.append cond "_deriv"%string)))
                            (column_labels hcs)) eqn:Ek.
          -- exists d. split; [exact Hl|]. split; [exact Hd1|].
             intros _ c Hc. apply in_app_or in Hc as [Hc | [<- | []]].
             ++ apply Hd2; [reflexivity | exact Hc].
             ++ rewrite <- Hl. apply existsb_label_In. exact Ek.
          -- exists (d ++ [LStr (String.append cond "_deriv"%string)]).
             split; [rewrite Hl, app_assoc; reflexivity|]. split.
             ++ intros l Hlin. apply in_app_or in Hlin as [Hlin | [<- | []]].
                ** apply Hd1. exact Hlin.
                ** split; [reflexivity|]. exists cond. split; [|reflexivity].
                   apply Hin. left. reflexivity.
             ++ intros _ c Hc. rewrite app_assoc. apply in_or_app.
                apply in_app_or in Hc as [Hc | [<- | []]].
                ** left. apply Hd2; [reflexivity | exact Hc].
                ** right. left. reflexivity.
        * destruct (columns res) as [|[k1 v1] [|c2 rest]]; try discriminate.
          cbn [map fst] in Hlr. inversion Hlr; subst k1; clear Hlr.
          cbn [fold_left fst snd].
          rewrite setcol_labels_cases, Hcond.
          exists d. split; [exact Hl|]. split; [exact Hd1|].
          intros Habs. discriminate. }
  intros H. apply (Hgen names [] (Ok hb)); [auto | | exact H].
  intros df Hdf. apply Ok_inj in Hdf. subst df.
  exists []. rewrite app_nil_r. split; [exact Hhb|]. split.
  - intros l [].
  - intros _ c [].
Qed.

Lemma nth_isin (cols names : list label) (k : nat) (d : label) :
  (k < length cols)%nat ->
  nth k (isin cols names) false = existsb (label_eqb (nth k cols d)) names.
Proof.
  intros Hk. unfold isin.
  rewrite (nth_indep _ false (existsb (label_eqb d) names))
    by (rewrite length_map; exact Hk).
  apply (map_nth (fun c => existsb (label_eqb c) names)).
Qed.

(* ------------------------------------------------------------------ *)
(** ** The column masks *)

(** C5, amended. In every constructed design matrix, whatever the model,
    a column is flagged by the main, the confound or the artifact mask (a
    mask that is [None] flagging none) unless the model has a temporal
    derivative and the column is a [<condition>_deriv] column; with a
    temporal derivative there is such a column for every condition, and it
    is flagged by no mask unless its name is also a main, confound or
    artifact name; and where no name is shared between the main, confound
    and artifact names, no column is flagged by two of the masks. *)
Theorem masks_partition_columns_except_derivatives
        (PCA_fit_transform : R -> option DataFrame -> outcome ndarray)
        (design : EventTable) (hrf : hrf_model) (ntp : nat)
        (regressors confounds : option component) (artifacts : option (list bool))
        (condition_names : option (list string)) (confound_pca : bool)
        (tr : R) (hpf_cutoff : option R) (oversampling : R)
        (design' : EventTable) (dm : DesignMatrix.t) :
  DesignMatrix.__init__ PCA_fit_transform design hrf ntp regressors confounds
    artifacts condition_names confound_pca tr hpf_cutoff oversampling
  = (design', Ok dm) ->
  DesignMatrix._full_names dm = column_labels (DesignMatrix.design_matrix dm) /\
  length (DesignMatrix.main_vector dm) = length (DesignMatrix._full_names dm) /\
  (forall k, (k < length (DesignMatrix._full_names dm))%nat ->
     nth k (DesignMatrix.main_vector dm) false
     || mask_at (DesignMatrix.confound_vector dm) k
     || mask_at (DesignMatrix.artifact_vector dm) k = true \/
     (has_temporal_deriv hrf = true /\
      exists c, In c (DesignMatrix._condition_names dm) /\
                nth k (DesignMatrix._full_names dm) (LInt 0)
                = LStr (String.append c "_deriv"%string))) /\
  (has_temporal_deriv hrf = true ->
   forall c, In c (DesignMatrix._condition_names dm) ->
     In (LStr (String.append c "_deriv"%string)) (DesignMatrix._full_names dm) /\
     forall k, (k < length (DesignMatrix._full_names dm))%nat ->
       nth k (DesignMatrix._full_names dm) (LInt 0)
       = LStr (String.append c "_deriv"%string) ->
       ~ In (LStr (String.append c "_deriv"%string))
            (DesignMatrix._main_names dm ++ DesignMatrix._confound_names dm
             ++ DesignMatrix._artifact_names dm) ->
       nth k (DesignMatrix.main_vector dm) false = false /\
       mask_at (DesignMatrix.confound_vector dm) k = false /\
       mask_at (DesignMatrix.artifact_vector dm) k = false) /\
  ((forall l, In l (DesignMatrix._main_names dm) ->
              ~ In l (DesignMatrix._confound_names dm)) ->
   (forall l, In l (DesignMatrix._main_names dm) ->
              ~ In l (DesignMatrix._artifact_names dm)) ->
   (forall l, In l (DesignMatrix._confound_names dm) ->
              ~ In l (DesignMatrix._artifact_names dm)) ->
   forall k, (k < length (DesignMatrix._full_names dm))%nat ->
     nth k (DesignMatrix.main_vector dm) false
     && mask_at (DesignMatrix.confound_vector dm) k = false /\
     nth k (DesignMatrix.main_vector dm) false
     && mask_at (DesignMatrix.artifact_vector dm) k = false /\
     mask_at (DesignMatrix.confound_vector dm) k
     && mask_at (DesignMatrix.artifact_vector dm) k = false).
Proof.
  intros Hinit.
  destruct (init_steps _ _ _ _ _ _ _ _ _ _ _ _ _ _ Hinit)
    as (ft & hft & hb & hc & s & c & conds & regs & confs & confs' & arts & H).
  destruct H as (_ & Hhb & Hhc & Hs & Hc & Hcond & _ & _ & _ & _ & HX & _ & Hcn
                 & Hfull & Hmain & Hconf & Hart & Hmv & Hcv & Hav).
  set (names := match condition_names with
                | Some l => l
                | None => np_sort (unique (condition design'))
                end) in *.
  destruct (convolve_labels _ _ _ _ _ (make_hires_base_labels _ _ _ _ Hhb) Hhc)
    as (derivs & Hlhc & Hd1 & Hd2).
  (* the condition columns: the condition names, then the derivatives *)
  assert (Hlc : column_labels conds = map LStr names ++ derivs).
  { assert (Hlcen : column_labels c = map LStr names ++ derivs).
    { rewrite (demean_labels _ _ Hc), (subsample_labels _ _ _ _ _ Hs). exact Hlhc. }
    destruct hpf_cutoff as [cutoff|].
    - rewrite (highpass_labels _ _ _ _ _ Hcond). exact Hlcen.
    - inversion Hcond; subst conds. exact Hlcen. }
  assert (Hcols : DesignMatrix._full_names dm
                  = (map LStr names ++ derivs)
                    ++ map fst (optional_columns regs)
                    ++ DesignMatrix._confound_names dm
                    ++ DesignMatrix._artifact_names dm).
  { rewrite Hfull, (demean_labels _ _ HX), Hconf, Hart.
    unfold column_labels in *. cbn [columns].
    rewrite !map_app, Hlc. reflexivity. }
  assert (Hcv' : forall k, (k < length (DesignMatrix._full_names dm))%nat ->
            mask_at (DesignMatrix.confound_vector dm) k
            = existsb (label_eqb (nth k (DesignMatrix._full_names dm) (LInt 0)))
                      (DesignMatrix._confound_names dm)).
  { intros k Hk. rewrite Hcv. destruct confs' as [df|]; cbn [mask_at].
    - apply nth_isin. exact Hk.
    - rewrite Hconf. reflexivity. }
  assert (Hav' : forall k, (k < length (DesignMatrix._full_names dm))%nat ->
            mask_at (DesignMatrix.artifact_vector dm) k
            = existsb (label_eqb (nth k (DesignMatrix._full_names dm) (LInt 0)))
                      (DesignMatrix._artifact_names dm)).
  { intros k Hk. rewrite Hav. destruct arts as [df|]; cbn [mask_at].
    - apply nth_isin. exact Hk.
    - rewrite Hart. reflexivity. }
  assert (Hmv' : forall k, (k < length (DesignMatrix._full_names dm))%nat ->
            nth k (DesignMatrix.main_vector dm) false
            = existsb (label_eqb (nth k (DesignMatrix._full_names dm) (LInt 0)))
                      (DesignMatrix._main_names dm)).
  { intros k Hk. rewrite Hmv. apply nth_isin. exact Hk. }
  split; [exact Hfull|]. split.
  { rewrite Hmv. unfold isin. apply length_map. }
  split; [|split].
  - intros k Hk. rewrite Hmv', Hcv', Hav' by exact Hk.
    pose proof (nth_In _ (LInt 0) Hk) as Hin.
    rewrite Hcols in Hin at 2.
    apply in_app_or in Hin as [Hin | Hin];
      [apply in_app_or in Hin as [Hin | Hin]
      |apply in_app_or in Hin as [Hin | Hin];
       [|apply in_app_or in Hin as [Hin | Hin]]].
    + left. rewrite (proj2 (existsb_label_In _ _)); [reflexivity|].
      rewrite Hmain. apply in_or_app. left. exact Hin.
    + right. destruct (Hd1 _ Hin) as (Hd & c0 & Hc0 & El).
      split; [exact Hd|]. exists c0. rewrite Hcn. split; assumption.
    + left. rewrite (proj2 (existsb_label_In _ _)); [reflexivity|].
      rewrite Hmain. apply in_or_app. right. exact Hin.
    + left. rewrite (proj2 (existsb_label_In _ (DesignMatrix._confound_names dm)))
        by exact Hin.
      rewrite orb_true_r. reflexivity.
    + left. rewrite (proj2 (existsb_label_In _ (DesignMatrix._artifact_names dm)))
        by exact Hin.
      rewrite orb_true_r. reflexivity.
  - intros Hd c0 Hc0. rewrite Hcn in Hc0. split.
    + rewrite Hcols. apply in_or_app. left. apply Hd2; assumption.
    + intros k Hk El Hnot. rewrite Hmv', Hcv', Hav' by exact Hk. rewrite El.
      repeat split;
        match goal with
        | |- existsb ?f ?l = false =>
            destruct (existsb f l) eqn:E; [|reflexivity];
            exfalso; apply Hnot; apply existsb_label_In in E;
            rewrite !in_app_iff; auto
        end.
  - intros D1 D2 D3 k Hk. rewrite Hmv', Hcv', Hav' by exact Hk.
    set (l := nth k (DesignMatrix._full_names dm) (LInt 0)).
    destruct (existsb (label_eqb l) (DesignMatrix._main_names dm)) eqn:Em,
             (existsb (label_eqb l) (DesignMatrix._confound_names dm)) eqn:Ec,
             (existsb (label_eqb l) (DesignMatrix._artifact_names dm)) eqn:Ea;
      repeat split; try reflexivity; exfalso;
      repeat match goal with
             | E : existsb _ _ = true |- _ => apply existsb_label_In in E
             end;
      first [ exact (D1 l Em Ec) | exact (D2 l Em Ea) | exact (D3 l Ec Ea) ].
Qed.

(* ------------------------------------------------------------------ *)
(** ** Two constructions, carried out *)

Ltac decide_Rltb :=
  repeat match goal with
         | |- context [Rltb ?a ?b] =>
             first [ rewrite (Rltb_true a b) by (simpl; lra)
                   | rewrite (Rltb_false a b) by (simpl; lra) ]
         end.

Lemma arange_integer start stop step (z : Z) :
  step <> 0 -> (stop - start) / step = IZR z ->
  arange start stop step
  = Ok (map (fun i => start + INR i * step) (seq 0 (Z.to_nat z))).
Proof.
  intros Hs Hz. unfold arange.
  destruct (Req_dec_T step 0); [contradiction|].
  rewrite Hz, Rceil_IZR. reflexivity.
Qed.

Lemma frametimes_two : arange 0 (INR 2 * 1) 1 = Ok [0; 1].
Proof.
  rewrite (arange_integer _ _ _ 2); [|lra | simpl; field].
  change (Z.to_nat 2) with 2%nat. cbn [seq map].
  do 2 f_equal; [simpl; lra|]. f_equal. simpl. lra.
Qed.

Lemma hires_frametimes_three : arange 0 (INR 2 * 1 + 1) (1 / 1) = Ok [0; 1; 2].
Proof.
  rewrite (arange_integer _ _ _ 3); [|lra | simpl; field].
  change (Z.to_nat 3) with 3%nat. cbn [seq map].
  do 2 f_equal; [simpl; lra|]. f_equal; [simpl; lra|]. f_equal. simpl. lra.
Qed.

Lemma one_event_encoded :
  exists e0 e1 e2, _make_hires_ev_base [0; 1; 2] [0] [0] [1] = Ok [e0; e1; e2].
Proof.
  destruct (single_impulse_event [0; 1; 2] 0 1) as (steps & Hev & Hlen & _);
    [discriminate|].
  destruct steps as [|s0 [|s1 [|s2 [|s3 steps]]]]; try discriminate.
  do 3 eexists. exact Hev.
Qed.

Ltac decide_npdiv :=
  repeat match goal with
         | |- context [npdiv ?a ?b] => rewrite (npdiv_Ok a b) by (simpl; lra)
         end.

(** The first steps of a construction at [tr = 1], [oversampling = 1] and
    two frames, from the table [one_event]: the times, the condition
    names and the encoded event. *)
Ltac first_steps e0 e1 e2 :=
  unfold DesignMatrix.__init__;
  change (DesignMatrix.fill_defaults one_event)
    with (mkEventTable ["A"%string] [0] (Some [0]) (Some [1]));
  rewrite frametimes_two; cbn [bind];
  rewrite (Reqb_true 1 1) by reflexivity;
  rewrite (pydiv_Ok 1 1) by lra; cbn [bind];
  rewrite hires_frametimes_three; cbn [bind];
  change (np_sort (unique (condition (mkEventTable ["A"%string] [0] (Some [0]) (Some [1])))))
    with ["A"%string];
  unfold _make_hires_base;
  cbn [mapM map condition onset duration value column_or_empty boolean_index];
  change (String.eqb "A" "A") with true; cbn [boolean_index];
  destruct one_event_encoded as (e0 & e1 & e2 & ->); cbn [bind].

(** The table [one_event], the identity model, two frames one second apart,
    no oversampling and no filter, with one confound given as an array and
    an artifact mask that flags no frame. *)
Lemma identity_construction :
  exists dm,
    DesignMatrix.__init__ no_pca one_event Identity 2 None
      (Some (CArray (mkArray 2 [[3; 5]]))) (Some [false; false]) None false
      1 None 1
    = (mkEventTable ["A"%string] [0] (Some [0]) (Some [1]), Ok dm).
Proof.
  first_steps e0 e1 e2.
  unfold _convolve, getcol, hrf_convolve, IdentityHRF.convolve, DataFrame_of_array.
  cbn.
  unfold _subsample_condition_matrix, interp1d_nearest. cbn. decide_Rltb. cbn.
  unfold demean, demean_column, mean. cbn. decide_npdiv. cbn.
  rewrite !Reqb_true by reflexivity. cbn. decide_npdiv. cbn.
  eexists. reflexivity.
Qed.

Lemma hrf_two_points_kernel :
  exists a0 a1 b0 b1,
    GammaDifferenceHRF.kernel hrf_two_points = Ok [[a0; a1]; [b0; b1]].
Proof.
  unfold GammaDifferenceHRF.kernel, GammaDifferenceHRF.kernel_main.
  rewrite hrf_two_points_unnormalized. cbn [bind mapM sum].
  decide_npdiv. cbn [bind].
  cbn [hrf_two_points GammaDifferenceHRF._temporal_deriv GammaDifferenceHRF.diff
       tl zipWith map sum].
  rewrite npdiv_Ok by (unfold Rsqr; lra).
  cbn [bind length Nat.eqb map]. do 4 eexists. reflexivity.
Qed.

(** The table [one_event] and the model [hrf_two_points], which has a
    temporal derivative; two frames one second apart, no oversampling, no
    filter and nothing else. *)
Lemma derivative_construction :
  exists dm,
    DesignMatrix.__init__ no_pca one_event (GammaDifference hrf_two_points) 2
      None None None None false 1 None 1
    = (mkEventTable ["A"%string] [0] (Some [0]) (Some [1]), Ok dm) /\
    DesignMatrix._full_names dm = [LStr "A"%string; LStr "A_deriv"%string] /\
    DesignMatrix.main_vector dm = [true; false] /\
    DesignMatrix.confound_vector dm = None /\
    DesignMatrix.artifact_vector dm = None.
Proof.
  first_steps e0 e1 e2.
  unfold _convolve, getcol, hrf_convolve, GammaDifferenceHRF.convolve.
  cbn [fold_left columns find fst snd label_eqb bind].
  change (String.eqb "A" "A") with true. cbn [bind snd length].
  destruct hrf_two_points_kernel as (a0 & a1 & b0 & b1 & ->).
  unfold DataFrame_of_array. cbn.
  unfold _subsample_condition_matrix, interp1d_nearest. cbn. decide_Rltb. cbn.
  unfold demean, demean_column, mean. cbn. decide_npdiv. cbn.
  decide_npdiv. cbn.
  eexists. split; [reflexivity|]. cbn. repeat split.
Qed.

(** The table [one_event] and the identity model, with a regressor table
    and a confound table that both call their one column "x". *)
Lemma shared_name_construction :
  exists dm,
    DesignMatrix.__init__ no_pca one_event Identity 2
      (Some (CFrame (mkDataFrame [0; 1] [(LStr "x"%string, [1; 2])])))
      (Some (CFrame (mkDataFrame [0; 1] [(LStr "x"%string, [3; 5])])))
      None None false 1 None 1
    = (mkEventTable ["A"%string] [0] (Some [0]) (Some [1]), Ok dm) /\
    DesignMatrix._full_names dm
    = [LStr "A"%string; LStr "x"%string; LStr "x"%string] /\
    DesignMatrix.main_vector dm = [true; true; true] /\
    DesignMatrix.confound_vector dm = Some [false; true; true].
Proof.
  first_steps e0 e1 e2.
  unfold _convolve, getcol, hrf_convolve, IdentityHRF.convolve, DataFrame_of_array.
  cbn.
  unfold _subsample_condition_matrix, interp1d_nearest. cbn. decide_Rltb. cbn.
  unfold demean, demean_column, mean. cbn. decide_npdiv. cbn.
  rewrite !Reqb_true by reflexivity. cbn. decide_npdiv. cbn.
  eexists. split; [reflexivity|]. cbn. repeat split.
Qed.

Lemma design_matrix_columns_have_mean_zero_witness :
  exists dm,
    DesignMatrix.__init__ no_pca one_event Identity 2 None
      (Some (CArray (mkArray 2 [[3; 5]]))) (Some [false; false]) None false
      1 None 1
    = (mkEventTable ["A"%string] [0] (Some [0]) (Some [1]), Ok dm) /\
    forall col, In col (columns (DesignMatrix.design_matrix dm)) ->
      mean (snd col) = Ok 0.
Proof.
  destruct identity_construction as (dm & H). exists dm. split; [exact H|].
  exact (design_matrix_columns_have_mean_zero _ _ _ _ _ _ _ _ _ _ _ _ _ _ H).
Defined.

Lemma all_false_artifacts_give_no_submatrix_witness :
  exists dm,
    DesignMatrix.__init__ no_pca one_event Identity 2 None
      (Some (CArray (mkArray 2 [[3; 5]]))) (Some [false; false]) None false
      1 None 1
    = (mkEventTable ["A"%string] [0] (Some [0]) (Some [1]), Ok dm) /\
    DesignMatrix.artifact_submatrix dm = Ok None /\
    DesignMatrix._artifact_names dm = [] /\
    DesignMatrix.artifact_vector dm = None.
Proof.
  destruct identity_construction as (dm & H). exists dm. split; [exact H|].
  exact (all_false_artifacts_give_no_submatrix _ _ _ _ _ _ [false; false]
           _ _ _ _ _ _ _ eq_refl H).
Defined.

Lemma masks_partition_columns_except_derivatives_witness :
  exists dm,
    DesignMatrix.__init__ no_pca one_event (GammaDifference hrf_two_points) 2
      None None None None false 1 None 1
    = (mkEventTable ["A"%string] [0] (Some [0]) (Some [1]), Ok dm) /\
    forall k, (k < length (DesignMatrix._full_names dm))%nat ->
      nth k (DesignMatrix.main_vector dm) false
      || mask_at (DesignMatrix.confound_vector dm) k
      || mask_at (DesignMatrix.artifact_vector dm) k = true \/
      (has_temporal_deriv (GammaDifference hrf_two_points) = true /\
       exists c, In c (DesignMatrix._condition_names dm) /\
                 nth k (DesignMatrix._full_names dm) (LInt 0)
                 = LStr (String.append c "_deriv"%string)).
Proof.
  destruct derivative_construction as (dm & H & _). exists dm. split; [exact H|].
  exact (proj1 (proj2 (proj2
           (masks_partition_columns_except_derivatives _ _ _ _ _ _ _ _ _ _ _ _ _ _ H)))).
Defined.

(** C5 as stated fails in two ways.  With a temporal derivative in the
    model, the column "A_deriv" of the design matrix is flagged by none of
    the three masks.  With a regressor table and a confound table that both
    have a column "x", the regressor column is flagged by the main mask and
    by the confound mask. *)
Lemma masks_do_not_partition_columns :
  (exists design' dm,
     DesignMatrix.__init__ no_pca one_event (GammaDifference hrf_two_points) 2
       None None None None false 1 None 1
     = (design', Ok dm) /\
     nth 1 (DesignMatrix._full_names dm) (LInt 0) = LStr "A_deriv"%string /\
     nth 1 (DesignMatrix.main_vector dm) false = false /\
     mask_at (DesignMatrix.confound_vector dm) 1 = false /\
     mask_at (DesignMatrix.artifact_vector dm) 1 = false) /\
  (exists design' dm,
     DesignMatrix.__init__ no_pca one_event Identity 2
       (Some (CFrame (mkDataFrame [0; 1] [(LStr "x"%string, [1; 2])])))
       (Some (CFrame (mkDataFrame [0; 1] [(LStr "x"%string, [3; 5])])))
       None None false 1 None 1
     = (design', Ok dm) /\
     nth 1 (DesignMatrix._full_names dm) (LInt 0) = LStr "x"%string /\
     nth 1 (DesignMatrix.main_vector dm) false = true /\
     mask_at (DesignMatrix.confound_vector dm) 1 = true).
Proof.
  split.
  - destruct derivative_construction as (dm & H & Hn & Hm & Hc & Ha).
    eexists. exists dm. split; [exact H|].
    rewrite Hn, Hm, Hc, Ha. repeat split.
  - destruct shared_name_construction as (dm & H & Hn & Hm & Hc).
    eexists. exists dm. split; [exact H|].
    rewrite Hn, Hm, Hc. repeat split.
Qed.

(** C9 as stated fails: a construction that succeeds, from a table without
    [duration] and [value] columns, leaves the table with both. *)
Lemma construction_adds_columns_to_table :
  exists design' dm,
    DesignMatrix.__init__ no_pca one_event Identity 2 None
      (Some (CArray (mkArray 2 [[3; 5]]))) (Some [false; false]) None false
      1 None 1
    = (design', Ok dm) /\
    duration one_event = None /\
    duration design' = Some [0] /\
    value design' = Some [1] /\
    design' <> one_event.
Proof.
  destruct identity_construction as (dm & H).
  eexists. exists dm. split; [exact H|]. repeat split. discriminate.
Qed.

(* ------------------------------------------------------------------ *)
(** ** Finite sums and the arrays of the filter *)

Lemma rsum_ext n (f g : nat -> R) :
  (forall i, (i < n)%nat -> f i = g i) -> rsum n f = rsum n g.
Proof.
  induction n as [|n IH]; intros H; [reflexivity|].
  simpl. rewrite IH by (intros; apply H; lia). rewrite H by lia. reflexivity.
Qed.

Lemma rsum_plus n (f g : nat -> R) :
  rsum n (fun i => f i + g i) = rsum n f + rsum n g.
Proof. induction n as [|n IH]; simpl; [lra | rewrite IH; lra]. Qed.

Lemma rsum_minus n (f g : nat -> R) :
  rsum n (fun i => f i - g i) = rsum n f - rsum n g.
Proof. induction n as [|n IH]; simpl; [lra | rewrite IH; lra]. Qed.

Lemma rsum_scal_l n (c : R) (f : nat -> R) :
  rsum n (fun i => c * f i) = c * rsum n f.
Proof. induction n as [|n IH]; simpl; [lra | rewrite IH; lra]. Qed.

Lemma rsum_scal_r n (c : R) (f : nat -> R) :
  rsum n (fun i => f i * c) = rsum n f * c.
Proof. induction n as [|n IH]; simpl; [lra | rewrite IH; lra]. Qed.

Lemma rsum_nonneg n (f : nat -> R) :
  (forall i, (i < n)%nat -> 0 <= f i) -> 0 <= rsum n f.
Proof.
  induction n as [|n IH]; intros H; simpl; [lra|].
  specialize (H n ltac:(lia)) as Hn.
  assert (0 <= rsum n f) by (apply IH; intros; apply H; lia). lra.
Qed.

Lemma rsum_pos n (f : nat -> R) :
  (1 <= n)%nat -> (forall i, (i < n)%nat -> 0 < f i) -> 0 < rsum n f.
Proof.
  intros Hn H. destruct n as [|n]; [lia|]. simpl.
  assert (0 <= rsum n f).
  { apply rsum_nonneg. intros i Hi. apply Rlt_le, H. lia. }
  specialize (H n ltac:(lia)). lra.
Qed.

(** A sum with a single entry that is not zero. *)
Lemma rsum_single n (f : nat -> R) (i : nat) :
  (i < n)%nat -> (forall k, k <> i -> f k = 0) -> rsum n f = f i.
Proof.
  induction n as [|n IH]; intros Hi H; [lia|]. simpl.
  destruct (Nat.eq_dec i n) as [->|Hne].
  - rewrite (rsum_ext n f (fun _ => 0)) by (intros k Hk; apply H; lia).
    clear. induction n; simpl; lra.
  - rewrite IH by (auto; lia). rewrite (H n) by lia. lra.
Qed.

Lemma dot_diag_l n (v : vector) (B : matrix) i j :
  (i < n)%nat -> dot n (diag v) B i j = v i * B i j.
Proof.
  intros Hi. unfold dot, diag.
  rewrite (rsum_single n _ i Hi).
  - rewrite Nat.eqb_refl. reflexivity.
  - intros k Hk. destruct (Nat.eqb_spec i k); [congruence | lra].
Qed.

Lemma dot_diag_r n (A : matrix) (v : vector) i j :
  (j < n)%nat -> dot n A (diag v) i j = A i j * v j.
Proof.
  intros Hj. unfold dot, diag.
  rewrite (rsum_single n _ j Hj).
  - rewrite Nat.eqb_refl. reflexivity.
  - intros k Hk. destruct (Nat.eqb_spec k j); [congruence | lra].
Qed.

Lemma rsum_eye n k : (k < n)%nat -> rsum n (eye k) = 1.
Proof.
  intros Hk. rewrite (rsum_single n _ k Hk).
  - unfold eye. rewrite Nat.eqb_refl. reflexivity.
  - intros j Hj. unfold eye. destruct (Nat.eqb_spec k j); [congruence | reflexivity].
Qed.

(** The Gram determinant of the two columns [a_i] and [a_i * i], written
    with the weights [a_i^2]: Lagrange's identity, one row at a time. *)
Lemma weighted_spread n (a : nat -> R) (t : R) :
  rsum n (fun i => a i * Rsqr (t - INR i))
  = rsum n a * Rsqr t - 2 * t * rsum n (fun i => a i * INR i)
    + rsum n (fun i => a i * Rsqr (INR i)).
Proof.
  induction n as [|n IH]; simpl; [unfold Rsqr; lra|].
  rewrite IH. unfold Rsqr. ring.
Qed.

Lemma gram_step n (a : nat -> R) :
  rsum (S n) a * rsum (S n) (fun i => a i * Rsqr (INR i))
  - Rsqr (rsum (S n) (fun i => a i * INR i))
  = (rsum n a * rsum n (fun i => a i * Rsqr (INR i))
     - Rsqr (rsum n (fun i => a i * INR i)))
    + a n * rsum n (fun i => a i * Rsqr (INR n - INR i)).
Proof. rewrite weighted_spread. simpl. unfold Rsqr. ring. Qed.

Lemma gram_nonneg n (a : nat -> R) :
  (forall i, (i < n)%nat -> 0 < a i) ->
  0 <= rsum n a * rsum n (fun i => a i * Rsqr (INR i))
       - Rsqr (rsum n (fun i => a i * INR i)).
Proof.
  induction n as [|n IH]; intros Ha.
  - simpl. unfold Rsqr. lra.
  - rewrite gram_step.
    assert (H1 : 0 <= rsum n a * rsum n (fun i => a i * Rsqr (INR i))
                      - Rsqr (rsum n (fun i => a i * INR i)))
      by (apply IH; intros; apply Ha; lia).
    assert (H2 : 0 <= rsum n (fun i => a i * Rsqr (INR n - INR i))).
    { apply rsum_nonneg. intros i Hi. apply Rmult_le_pos.
      - apply Rlt_le, Ha. lia.
      - apply Rle_0_sqr. }
    assert (H3 : 0 < a n) by (apply Ha; lia).
    nra.
Qed.

Lemma gram_pos n (a : nat -> R) :
  (2 <= n)%nat ->
  (forall i, (i < n)%nat -> 0 < a i) ->
  0 < rsum n a * rsum n (fun i => a i * Rsqr (INR i))
      - Rsqr (rsum n (fun i => a i * INR i)).
Proof.
  intros Hn Ha. destruct n as [|n]; [lia|].
  rewrite gram_step.
  assert (H1 : 0 <= rsum n a * rsum n (fun i => a i * Rsqr (INR i))
                    - Rsqr (rsum n (fun i => a i * INR i)))
    by (apply gram_nonneg; intros; apply Ha; lia).
  assert (H2 : 0 < rsum n (fun i => a i * Rsqr (INR n - INR i))).
  { apply rsum_pos; [lia|]. intros i Hi. apply Rmult_lt_0_compat.
    - apply Ha. lia.
    - apply Rsqr_pos_lt. apply lt_INR in Hi. lra. }
  assert (H3 : 0 < a n) by (apply Ha; lia).
  nra.
Qed.

(** At full column rank [pinv] is a left inverse: the first column of
    [pinv(A) A] is that of the identity. *)
Lemma pinv_left_inverse n (A : matrix) :
  rsum n (fun i => A i 0%nat * A i 0%nat) * rsum n (fun i => A i 1%nat * A i 1%nat)
  - rsum n (fun i => A i 0%nat * A i 1%nat) * rsum n (fun i => A i 0%nat * A i 1%nat)
  <> 0 ->
  dot n (pinv n A) A 0%nat 0%nat = 1 /\
  dot n (pinv n A) A 1%nat 0%nat = 0 /\
  dot n (pinv n A) A 0%nat 1%nat = 0 /\
  dot n (pinv n A) A 1%nat 1%nat = 1.
Proof.
  intros Hdet. unfold dot, pinv.
  set (a := rsum n (fun i => A i 0%nat * A i 0%nat)) in *.
  set (b := rsum n (fun i => A i 0%nat * A i 1%nat)) in *.
  set (d := rsum n (fun i => A i 1%nat * A i 1%nat)) in *.
  destruct (Req_dec_T (a * d - b * b) 0) as [E|_]; [contradiction|].
  assert (Hba : rsum n (fun i => A i 1%nat * A i 0%nat) = b).
  { unfold b. apply rsum_ext. intros; ring. }
  repeat split.
  - rewrite (rsum_ext n _ (fun k => (d * (A k 0%nat * A k 0%nat)
                                     - b * (A k 0%nat * A k 1%nat))
                                    * / (a * d - b * b)))
      by (intros; unfold Rdiv; ring).
    rewrite rsum_scal_r, rsum_minus, !rsum_scal_l. fold a b. field. exact Hdet.
  - rewrite (rsum_ext n _ (fun k => (a * (A k 1%nat * A k 0%nat)
                                     - b * (A k 0%nat * A k 0%nat))
                                    * / (a * d - b * b)))
      by (intros; unfold Rdiv; ring).
    rewrite rsum_scal_r, rsum_minus, !rsum_scal_l, Hba. fold a. field. exact Hdet.
  - rewrite (rsum_ext n _ (fun k => (d * (A k 0%nat * A k 1%nat)
                                     - b * (A k 1%nat * A k 1%nat))
                                    * / (a * d - b * b)))
      by (intros; unfold Rdiv; ring).
    rewrite rsum_scal_r, rsum_minus, !rsum_scal_l. fold b d. field. exact Hdet.
  - rewrite (rsum_ext n _ (fun k => (a * (A k 1%nat * A k 1%nat)
                                     - b * (A k 0%nat * A k 1%nat))
                                    * / (a * d - b * b)))
      by (intros; unfold Rdiv; ring).
    rewrite rsum_scal_r, rsum_minus, !rsum_scal_l. fold b d. field. exact Hdet.
Qed.

(** With [pinv(A) A = I], [A pinv(A) A = A] and [pinv(A) A pinv(A) = pinv(A)]
    follow; the last Penrose condition is that [A pinv(A)] is symmetric. *)
Lemma pinv_projection_symmetric n (A : matrix) i j :
  dot 2 A (pinv n A) i j = dot 2 A (pinv n A) j i.
Proof.
  unfold dot, pinv.
  destruct (Req_dec_T _ 0); [destruct (Req_dec_T _ 0)|];
    simpl; unfold Rdiv; ring.
Qed.

(* ------------------------------------------------------------------ *)
(** ** fsl_highpass_matrix *)

Lemma gauss_kernel_pos sig2n i : 0 < sig2n -> 0 < gauss_kernel sig2n i.
Proof.
  intros H. unfold gauss_kernel. apply Rmult_lt_0_compat; [|apply exp_pos].
  apply Rdiv_lt_0_compat; [lra|]. apply sqrt_lt_R0.
  pose proof PI_RGT_0. nra.
Qed.

Lemma toeplitz_pos (c : vector) i j : (forall m, 0 < c m) -> 0 < toeplitz c i j.
Proof. intros H. unfold toeplitz. destruct (Nat.leb j i); apply H. Qed.

(** Every row of the hat matrix built from positive weights [w] sums to 1:
    the weighted fit reproduces a constant. *)
Lemma hat_row_sums_to_one (ntp : nat) (w : vector) (k : nat) :
  (2 <= ntp)%nat ->
  (forall i, (i < ntp)%nat -> 0 < w i) ->
  rsum ntp (dot ntp (dot 2 design_X (pinv ntp (dot ntp (diag w) design_X)))
                (diag w) k) = 1.
Proof.
  intros Hn Hw.
  set (A := dot ntp (diag w) design_X).
  assert (HA0 : forall i, (i < ntp)%nat -> A i 0%nat = w i).
  { intros i Hi. unfold A. rewrite dot_diag_l by exact Hi. simpl. ring. }
  assert (HA1 : forall i, (i < ntp)%nat -> A i 1%nat = w i * INR i).
  { intros i Hi. unfold A. rewrite dot_diag_l by exact Hi. reflexivity. }
  set (a := fun i => w i * w i).
  assert (Hdet :
    rsum ntp (fun i => A i 0%nat * A i 0%nat) * rsum ntp (fun i => A i 1%nat * A i 1%nat)
    - rsum ntp (fun i => A i 0%nat * A i 1%nat) * rsum ntp (fun i => A i 0%nat * A i 1%nat)
    <> 0).
  { rewrite (rsum_ext ntp (fun i => A i 0%nat * A i 0%nat) a)
      by (intros i Hi; rewrite HA0 by exact Hi; reflexivity).
    rewrite (rsum_ext ntp (fun i => A i 1%nat * A i 1%nat)
                      (fun i => a i * Rsqr (INR i)))
      by (intros i Hi; rewrite HA1 by exact Hi; unfold a, Rsqr; ring).
    rewrite (rsum_ext ntp (fun i => A i 0%nat * A i 1%nat) (fun i => a i * INR i))
      by (intros i Hi; rewrite HA0, HA1 by exact Hi; unfold a; ring).
    assert (Hg := gram_pos ntp a Hn).
    unfold Rsqr at 2 in Hg.
    assert (0 < rsum ntp a * rsum ntp (fun i => a i * Rsqr (INR i))
                - rsum ntp (fun i => a i * INR i) * rsum ntp (fun i => a i * INR i)).
    { apply Hg. intros i Hi. unfold a. specialize (Hw i Hi). nra. }
    lra. }
  destruct (pinv_left_inverse ntp A Hdet) as (H00 & H10 & _ & _).
  unfold dot in H00, H10.
  rewrite (rsum_ext ntp _
             (fun j => pinv ntp A 0%nat j * A j 0%nat
                       + INR k * (pinv ntp A 1%nat j * A j 0%nat))).
  - rewrite rsum_plus, rsum_scal_l, H00, H10. ring.
  - intros j Hj. rewrite dot_diag_r by exact Hj.
    rewrite HA0 by exact Hj. unfold dot. simpl. ring.
Qed.

Lemma map_seq_zero (f : nat -> R) (n s : nat) :
  (forall k, (s <= k < s + n)%nat -> f k = 0) -> map f (seq s n) = repeat 0 n.
Proof.
  revert s; induction n as [|n IH]; intros s H; [reflexivity|].
  simpl. rewrite (H s) by lia. f_equal. apply IH. intros k Hk. apply H. lia.
Qed.

Lemma nth_repeat_lt (c : R) (n j : nat) : (j < n)%nat -> nth j (repeat c n) 0 = c.
Proof.
  revert j; induction n as [|n IH]; intros j Hj; [lia|].
  destruct j; simpl; [reflexivity | apply IH; lia].
Qed.

(** C10. For at least two timepoints and a positive cutoff and TR, the
    filter matrix is built, each of its rows sums to 0, and applied to a
    constant signal it gives 0 at every timepoint, the first and the last
    included. *)
Theorem highpass_matrix_annihilates_constants (ntp : nat) (cutoff tr : R) :
  (2 <= ntp)%nat -> 0 < cutoff -> 0 < tr ->
  exists F,
    fsl_highpass_matrix ntp cutoff tr = Ok F /\
    (forall c k, (k < ntp)%nat -> rsum ntp (fun j => F k j * c) = 0) /\
    (forall c, dot_vec ntp F (repeat c ntp) = Ok (repeat 0 ntp)).
Proof.
  intros Hn Hc Htr. unfold fsl_highpass_matrix.
  rewrite pydiv_Ok by lra. cbn [bind].
  set (sig2n := Rsqr (cutoff / tr / sqrt 2)).
  assert (Hsig : 0 < sig2n).
  { unfold sig2n. apply Rsqr_pos_lt.
    assert (0 < sqrt 2) by (apply sqrt_lt_R0; lra).
    assert (0 < cutoff / tr) by (apply Rdiv_lt_0_compat; assumption).
    assert (0 < cutoff / tr / sqrt 2) by (apply Rdiv_lt_0_compat; assumption).
    lra. }
  destruct (Req_dec_T sig2n 0) as [E|_]; [lra|].
  set (K0 := toeplitz (gauss_kernel sig2n)).
  set (K := dot ntp (diag (fun i => 1 / rsum ntp (fun j => K0 i j))) K0).
  assert (HK0 : forall i j, 0 < K0 i j).
  { intros i j. apply toeplitz_pos. intros m. apply gauss_kernel_pos. exact Hsig. }
  assert (HK : forall k i, (k < ntp)%nat -> 0 < K k i).
  { intros k i Hk. unfold K. rewrite dot_diag_l by exact Hk.
    apply Rmult_lt_0_compat; [|apply HK0].
    apply Rdiv_lt_0_compat; [lra|]. apply rsum_pos; [lia|]. intros; apply HK0. }
  eexists. split; [reflexivity|].
  assert (Hrows : forall c k, (k < ntp)%nat ->
            rsum ntp (fun j =>
              (eye k j
               - dot ntp (dot 2 design_X (pinv ntp (dot ntp (diag (K k)) design_X)))
                     (diag (K k)) k j) * c) = 0).
  { intros c k Hk. rewrite rsum_scal_r, rsum_minus, rsum_eye by exact Hk.
    rewrite hat_row_sums_to_one; [ring | exact Hn |].
    intros i _. apply HK. exact Hk. }
  split; [exact Hrows|].
  intros c. unfold dot_vec. rewrite repeat_length, Nat.eqb_refl. f_equal.
  apply map_seq_zero. intros k Hk.
  etransitivity; [|apply (Hrows c k); lia].
  apply rsum_ext. intros j Hj. rewrite nth_repeat_lt by exact Hj. reflexivity.
Qed.

Lemma highpass_matrix_annihilates_constants_witness :
  exists F,
    fsl_highpass_matrix 10 128 2 = Ok F /\
    (forall c k, (k < 10)%nat -> rsum 10 (fun j => F k j * c) = 0) /\
    (forall c, dot_vec 10 F (repeat c 10) = Ok (repeat 0 10)).
Proof.
  apply (highpass_matrix_annihilates_constants 10 128 2); [lia | lra | lra].
Defined.

(* ================================================================== *)
(** * Further properties *)

(* ------------------------------------------------------------------ *)
(** ** The event encoder *)


Lemma offset_index_range hft onset duration :
  hft <> [] ->
  (0 <= offset_index hft onset duration < Z.of_nat (length hft))%Z.
Proof.
  intros H. unfold offset_index.
  destruct hft as [|x hft]; [congruence|]. cbn [length].
  match goal with |- context [if ?c then _ else _] => destruct c eqn:E end; [|lia].
  apply andb_true_iff in E as [E _]. apply Z.ltb_lt in E. lia.
Qed.





Lemma set_nth_twice (l : list R) (k : nat) (v w : R) :
  set_nth (set_nth l k v) k w = set_nth l k w.
Proof.
  revert k; induction l as [|x l IH]; intros [|k]; simpl; try reflexivity.
  f_equal. apply IH.
Qed.

Lemma iadd_at_same_index a i v1 v2 :
  (0 <= i < Z.of_nat (length a))%Z ->
  iadd_at a [i; i] [v1; v2] = iadd_at a [i] [v2].
Proof.
  intros H. unfold iadd_at, getitem. cbn [mapM].
  rewrite (norm_index_in_range _ _ H). cbn [bind zipWith scatter].
  unfold setitem. rewrite (norm_index_in_range _ _ H). cbn [bind].
  rewrite set_nth_length, (norm_index_in_range _ _ H). cbn [bind].
  rewrite set_nth_twice. reflexivity.
Qed.

Lemma isub_at_same_index a i v1 v2 :
  (0 <= i < Z.of_nat (length a))%Z ->
  isub_at a [i; i] [v1; v2] = isub_at a [i] [v2].
Proof.
  intros H. unfold isub_at, getitem. cbn [mapM].
  rewrite (norm_index_in_range _ _ H). cbn [bind zipWith scatter].
  unfold setitem. rewrite (norm_index_in_range _ _ H). cbn [bind].
  rewrite set_nth_length, (norm_index_in_range _ _ H). cbn [bind].
  rewrite set_nth_twice. reflexivity.
Qed.

(** X2. Two events of one condition with the same onset and duration do
    not add up: the timecourse is that of the second event alone. *)
Theorem coinciding_events_keep_last_value (hft : list R) (onset duration v1 v2 : R) :
  hft <> [] ->
  _make_hires_ev_base hft [onset; onset] [duration; duration] [v1; v2]
  = _make_hires_ev_base hft [onset] [duration] [v2].
Proof.
  intros Hne.
  pose proof (onset_index_range hft onset Hne) as Hr.
  pose proof (offset_index_range hft onset duration Hne) as Hk.
  unfold onset_index in Hr.
  unfold _make_hires_ev_base. cbn [map zipWith].
  rewrite iadd_at_same_index by (rewrite zeros_like_length; exact Hr).
  destruct (iadd_at (zeros_like hft)
              [Z.min (Z.of_nat (searchsorted hft onset)) (Z.of_nat (length hft) - 1)]
              [v2]) as [ev| |] eqn:E; cbn [bind]; try reflexivity.
  unfold bump_offsets. cbn [zipWith].
  apply (f_equal (fun r => ev0 <- r ;; Ok (cumsum ev0))).
  apply isub_at_same_index.
  assert (Hlen : length ev = length hft).
  { rewrite iadd_at_one in E by (rewrite zeros_like_length; exact Hr).
    inversion E. rewrite set_nth_length. apply zeros_like_length. }
  rewrite Hlen. exact Hk.
Qed.

Lemma coinciding_events_keep_last_value_witness :
  _make_hires_ev_base [0; 1; 2] [0; 0] [1; 1] [1; 2]
  = _make_hires_ev_base [0; 1; 2] [0] [1] [2].
Proof.
  apply (coinciding_events_keep_last_value [0; 1; 2] 0 1 1 2). discriminate.
Defined.

Lemma scatter_length (a : list R) (idx : list Z) (vals r : list R) :
  scatter a idx vals = Ok r -> length r = length a.
Proof.
  revert a vals; induction idx as [|i idx IH]; intros a vals H.
  - simpl in H. inversion H; reflexivity.
  - destruct vals as [|v vals]; simpl in H; [inversion H; reflexivity|].
    apply bind_Ok_inv in H as (a' & Ha' & H).
    unfold setitem in Ha'. apply bind_Ok_inv in Ha' as (k & _ & Ha').
    inversion Ha'; subst a'. rewrite (IH _ _ H). apply set_nth_length.
Qed.

Lemma make_hires_ev_base_length (hft onsets durations vals ev : list R) :
  _make_hires_ev_base hft onsets durations vals = Ok ev ->
  length ev = length hft.
Proof.
  unfold _make_hires_ev_base, iadd_at, isub_at. intros H.
  apply bind_Ok_inv in H as (ev1 & H1 & H).
  apply bind_Ok_inv in H1 as (old1 & _ & H1).
  apply bind_Ok_inv in H as (ev2 & H2 & H).
  apply bind_Ok_inv in H2 as (old2 & _ & H2).
  inversion H; subst ev. unfold cumsum. rewrite cumsum_from_length.
  rewrite (scatter_length _ _ _ _ H2), (scatter_length _ _ _ _ H1).
  apply zeros_like_length.
Qed.

Lemma cumsum_zeros (l : list R) : cumsum (zeros_like l) = repeat 0 (length l).
Proof.
  unfold cumsum, zeros_like. induction l as [|x l IH]; [reflexivity|].
  cbn [map cumsum_from length repeat]. rewrite Rplus_0_l, IH. reflexivity.
Qed.

Lemma boolean_index_none {A : Type} (mask : list bool) (col : list A) :
  (forall b, In b mask -> b = false) -> boolean_index mask col = [].
Proof.
  revert col; induction mask as [|b mask IH]; intros col H; [reflexivity|].
  destruct col as [|x col]; [reflexivity|]. simpl.
  rewrite (H b) by (left; reflexivity). apply IH. intros; apply H; right; assumption.
Qed.

Lemma find_in_mapM {A : Type} (f : A -> outcome (list R)) (g : A -> label)
      (l : list A) (r : list (label * list R)) (key : label) :
  mapM (fun x => v <- f x ;; Ok (g x, v)) l = Ok r ->
  (exists x, In x l /\ g x = key) ->
  exists x v, In x l /\ g x = key /\ f x = Ok v /\
              find (fun c => label_eqb key (fst c)) r = Some (key, v).
Proof.
  revert r; induction l as [|a l IH]; intros r H (x & Hx & Hg); [contradiction|].
  simpl in H.
  apply bind_Ok_inv in H as (b & Hb & H).
  apply bind_Ok_inv in Hb as (v & Hv & Hb). inversion Hb; subst b.
  apply bind_Ok_inv in H as (bs & Hbs & H). inversion H; subst r.
  cbn [find fst].
  destruct (label_eqb key (g a)) eqn:E.
  - apply label_eqb_eq in E. exists a, v. repeat split; auto.
    + left; reflexivity.
    + rewrite E. reflexivity.
  - destruct Hx as [-> | Hx].
    + rewrite Hg in E. assert (label_eqb key key = true) by (apply label_eqb_eq; reflexivity).
      congruence.
    + destruct (IH bs Hbs (ex_intro _ x (conj Hx Hg))) as (x' & v' & Hin & Hg' & Hf & Hfind).
      exists x', v'. repeat split; auto. right; assumption.
Qed.

(** X3. A condition name that no row of the table carries is no error: its
    column of the hires matrix is 0 at every sample. *)
Theorem condition_without_events_is_zero_column
        (design : EventTable) (condition_names : list string) (hft : list R)
        (hires_base : DataFrame) (cond : string) :
  _make_hires_base design condition_names hft = Ok hires_base ->
  In cond condition_names ->
  ~ In cond (condition design) ->
  getcol hires_base (LStr cond) = Ok (repeat 0 (length hft)).
Proof.
  unfold _make_hires_base. intros H Hin Hnot.
  apply bind_Ok_inv in H as (cols & Hcols & H). inversion H; subst hires_base.
  unfold getcol. cbn [columns].
  destruct (find_in_mapM _ LStr _ _ (LStr cond) Hcols) as (x & v & _ & Hx & Hf & Hfind).
  { exists cond. auto. }
  inversion Hx; subst x. rewrite Hfind. cbn [snd]. f_equal.
  assert (Hmask : forall b, In b (map (String.eqb cond) (condition design)) -> b = false).
  { intros b Hb. apply in_map_iff in Hb as (c & <- & Hc).
    apply String.eqb_neq. intros ->. contradiction. }
  rewrite !boolean_index_none in Hf by exact Hmask.
  unfold _make_hires_ev_base in Hf. cbn in Hf.
  inversion Hf. apply cumsum_zeros.
Qed.

Lemma condition_without_events_is_zero_column_witness :
  getcol (mkDataFrame [0; 1] [(LStr "B"%string, cumsum (zeros_like [0; 1]))])
         (LStr "B"%string)
  = Ok (repeat 0 2).
Proof.
  apply (condition_without_events_is_zero_column one_event ["B"%string] [0; 1]
           (mkDataFrame [0; 1] [(LStr "B"%string, cumsum (zeros_like [0; 1]))])
           "B"%string).
  - reflexivity.
  - left; reflexivity.
  - intros [H | []]. discriminate.
Defined.

(* ------------------------------------------------------------------ *)
(** ** The GammaDifference model *)

Lemma sum_squares_nonneg (l : list R) : 0 <= sum (map Rsqr l).
Proof.
  induction l as [|x l IH]; simpl; [lra|]. pose proof (Rle_0_sqr x). lra.
Qed.

Lemma sum_squares_scaled (l : list R) (s : R) :
  sum (map Rsqr (map (fun d => d * s) l)) = s * s * sum (map Rsqr l).
Proof.
  induction l as [|x l IH]; simpl; [lra|]. rewrite IH. unfold Rsqr. ring.
Qed.

(** X4. When a temporal derivative is asked for and the kernel is finite,
    it has two channels of one length; the derivative channel starts at 0
    and its sum of squares equals that of the main channel. *)
Theorem derivative_channel_matches_main_energy
        (h : GammaDifferenceHRF.t) (chans : list (list R)) :
  GammaDifferenceHRF._temporal_deriv h = true ->
  GammaDifferenceHRF.kernel h = Ok chans ->
  exists y dy,
    chans = [y; dy] /\
    GammaDifferenceHRF.kernel_main h = Ok y /\
    length dy = length y /\
    nth 0 dy 0 = 0 /\
    sum (map Rsqr dy) = sum (map Rsqr y).
Proof.
  intros Hd H. unfold GammaDifferenceHRF.kernel in H. rewrite Hd in H.
  apply bind_Ok_inv in H as (y & Hy & H).
  apply bind_Ok_inv in H as (q & Hq & H).
  set (d0 := 0 :: GammaDifferenceHRF.diff y) in *.
  destruct (Nat.eqb_spec (length y) (length (map (fun d => d * sqrt q) d0)))
    as [Hlen|]; [|discriminate].
  exists y, (map (fun d => d * sqrt q) d0).
  split; [inversion H; reflexivity|]. split; [exact Hy|].
  split; [symmetry; exact Hlen|]. split; [unfold d0; simpl; ring|].
  unfold npdiv in Hq.
  destruct (Req_dec_T (sum (map Rsqr d0)) 0) as [|Hden]; [discriminate|].
  assert (Eq : q = sum (map Rsqr y) / sum (map Rsqr d0)) by (inversion Hq; reflexivity).
  rewrite sum_squares_scaled, sqrt_sqrt.
  - rewrite Eq. field. exact Hden.
  - rewrite Eq.
    pose proof (sum_squares_nonneg y).
    pose proof (sum_squares_nonneg d0).
    apply Rmult_le_pos; [assumption|]. apply Rlt_le, Rinv_0_lt_compat. lra.
Qed.

Lemma derivative_channel_matches_main_energy_witness :
  exists chans y dy,
    GammaDifferenceHRF.kernel hrf_two_points = Ok chans /\
    chans = [y; dy] /\
    length dy = length y /\
    nth 0 dy 0 = 0 /\
    sum (map Rsqr dy) = sum (map Rsqr y).
Proof.
  destruct hrf_two_points_kernel as (a0 & a1 & b0 & b1 & H).
  destruct (derivative_channel_matches_main_energy hrf_two_points _ eq_refl H)
    as (y & dy & E & _ & Hl & H0 & Hs).
  exists [[a0; a1]; [b0; b1]], y, dy. repeat split; assumption.
Defined.

Lemma np_convolve_length (a v l : list R) :
  np_convolve a v = Ok l -> v <> [] /\ length l = (length a + length v - 1)%nat.
Proof.
  unfold np_convolve. destruct a as [|x a]; [discriminate|].
  destruct v as [|y v]; [discriminate|]. intros H. inversion H.
  split; [discriminate|]. rewrite length_map, length_seq. reflexivity.
Qed.

(** X5. A convolution that succeeds returns a table on the given
    frametimes, with as many frametimes as samples, a column called by the
    name and, with a temporal derivative, a second one called name_deriv;
    every column is as long as the data. *)
Theorem convolve_result_shape
        (h : GammaDifferenceHRF.t) (data frametimes : list R) (name : string)
        (res : DataFrame) :
  GammaDifferenceHRF.convolve h data (Some frametimes) name = Ok res ->
  index res = frametimes /\
  length frametimes = length data /\
  column_labels res =
    (if GammaDifferenceHRF._temporal_deriv h
     then [LStr name; LStr (String.append name "_deriv"%string)]
     else [LStr name]) /\
  forall col, In col (columns res) -> length (snd col) = length data.
Proof.
  unfold GammaDifferenceHRF.convolve. cbn [bind]. intros H.
  apply bind_Ok_inv in H as (chans & _ & H).
  apply bind_Ok_inv in H as (out & Hout & H).
  unfold DataFrame_of_array in H. cbn [shape0 acolumns] in H.
  match type of H with
  | (if negb (?a && ?b) then _ else _) = _ =>
      destruct a eqn:Ea; destruct b eqn:Eb; cbn [andb negb] in H; try discriminate
  end.
  apply Nat.eqb_eq in Ea, Eb. inversion H; subst res; clear H. cbn [index columns].
  split; [reflexivity|]. split; [symmetry; exact Ea|]. split.
  - unfold column_labels. cbn [columns]. apply map_fst_combine.
    rewrite Eb. reflexivity.
  - intros [lbl v] Hcol. apply in_combine_r in Hcol. cbn [snd].
    destruct (mapM_In_inv _ _ _ _ Hout Hcol) as (ch & _ & Hch).
    apply bind_Ok_inv in Hch as (c & Hc & Hch). inversion Hch.
    apply np_convolve_length in Hc as (Hne & Hl).
    rewrite length_firstn, Hl. destruct ch; [congruence | simpl; lia].
Qed.

Lemma two_points_convolution :
  exists res,
    GammaDifferenceHRF.convolve hrf_two_points [1; 0; 0] (Some [0; 1; 2]) "A"%string
    = Ok res.
Proof.
  unfold GammaDifferenceHRF.convolve. cbn [bind].
  destruct hrf_two_points_kernel as (a0 & a1 & b0 & b1 & ->).
  unfold DataFrame_of_array. cbn. eexists. reflexivity.
Qed.

Lemma convolve_result_shape_witness :
  exists res,
    GammaDifferenceHRF.convolve hrf_two_points [1; 0; 0] (Some [0; 1; 2]) "A"%string
    = Ok res /\
    index res = [0; 1; 2] /\
    column_labels res = [LStr "A"%string; LStr "A_deriv"%string] /\
    forall col, In col (columns res) -> length (snd col) = 3%nat.
Proof.
  destruct two_points_convolution as (res & H). exists res. split; [exact H|].
  destruct (convolve_result_shape hrf_two_points [1; 0; 0] [0; 1; 2] "A"%string res H)
    as (Hi & _ & Hl & Hc).
  repeat split; assumption.
Defined.

Lemma sum_map_zero {A : Type} (f : A -> R) (l : list A) :
  (forall x, In x l -> f x = 0) -> sum (map f l) = 0.
Proof.
  induction l as [|a l IH]; intros H; simpl; [reflexivity|].
  rewrite (H a) by (left; reflexivity).
  rewrite IH by (intros; apply H; right; assumption). lra.
Qed.

Lemma mapM_pointwise {A B : Type} (f : A -> outcome B) (g : A -> B)
      (l : list A) (r : list B) :
  mapM f l = Ok r -> (forall a b, f a = Ok b -> b = g a) -> r = map g l.
Proof.
  revert r; induction l as [|a l IH]; simpl; intros r H Hg.
  - inversion H; reflexivity.
  - apply bind_Ok_inv in H as (b & Hb & H).
    apply bind_Ok_inv in H as (bs & Hbs & H). inversion H; subst r.
    rewrite (Hg a b Hb), (IH bs Hbs Hg). reflexivity.
Qed.

Lemma firstn_seq_prefix (n k s : nat) : firstn n (seq s (n + k)) = seq s n.
Proof.
  revert s; induction n as [|n IH]; intros s; [reflexivity|].
  simpl. f_equal. apply IH.
Qed.

Lemma np_convolve_nonempty (a v : list R) :
  a <> [] -> v <> [] ->
  np_convolve a v =
  Ok (map (fun k =>
             sum (map (fun i => if Nat.leb i k
                                then nth i a 0 * nth (k - i) v 0 else 0)
                      (seq 0 (length a))))
          (seq 0 (length a + length v - 1))).
Proof. destruct a, v; intros; try congruence. reflexivity. Qed.

Lemma np_convolve_impulse (m : nat) (ch c : list R) :
  np_convolve (1 :: repeat 0 m) ch = Ok c ->
  firstn (S m) c = map (fun k => nth k ch 0) (seq 0 (S m)).
Proof.
  intros H. destruct ch as [|y ch]; [discriminate|].
  set (v := y :: ch) in *. set (a := 1 :: repeat 0 m) in *.
  rewrite np_convolve_nonempty in H by (unfold a, v; discriminate).
  apply Ok_inj in H. subst c.
  assert (Ha : length a = S m) by (unfold a; cbn [length]; rewrite repeat_length; reflexivity).
  rewrite Ha.
  replace (S m + length v - 1)%nat with (S m + length ch)%nat
    by (unfold v; cbn [length]; lia).
  rewrite firstn_map, firstn_seq_prefix.
  apply map_ext. intros k.
  change (seq 0 (S m)) with (0%nat :: seq 1 m).
  cbn [map sum Nat.leb]. change (nth 0 a 0) with 1.
  rewrite Nat.sub_0_r.
  rewrite sum_map_zero; [ring|].
  intros i Hi. apply in_seq in Hi.
  destruct i as [|i]; [lia|].
  change (nth (S i) a 0) with (nth i (repeat 0 m) 0).
  rewrite nth_repeat_lt by lia.
  destruct (Nat.leb (S i) k); ring.
Qed.

(** X6. The response to a unit impulse at the first sample is the kernel
    itself: every column of the convolution is its kernel channel, cut off
    at, or padded with zeros to, the length of the data. *)
Theorem impulse_response_is_kernel
        (h : GammaDifferenceHRF.t) (m : nat) (frametimes : list R) (name : string)
        (res : DataFrame) (chans : list (list R)) :
  GammaDifferenceHRF.convolve h (1 :: repeat 0 m) (Some frametimes) name = Ok res ->
  GammaDifferenceHRF.kernel h = Ok chans ->
  map snd (columns res)
  = map (fun ch => map (fun k => nth k ch 0) (seq 0 (S m))) chans.
Proof.
  unfold GammaDifferenceHRF.convolve. cbn [bind]. intros H Hk.
  rewrite Hk in H. cbn [bind] in H.
  apply bind_Ok_inv in H as (out & Hout & H).
  unfold DataFrame_of_array in H. cbn [shape0 acolumns] in H.
  match type of H with
  | (if negb (?a && ?b) then _ else _) = _ =>
      destruct a eqn:Ea; destruct b eqn:Eb; cbn [andb negb] in H; try discriminate
  end.
  apply Nat.eqb_eq in Eb. inversion H; subst res; clear H. cbn [columns].
  rewrite map_snd_combine by (symmetry; exact Eb).
  apply (mapM_pointwise _ _ _ _ Hout).
  intros ch b Hb. apply bind_Ok_inv in Hb as (c & Hc & Hb). inversion Hb; subst b.
  cbn [length]. rewrite repeat_length. apply np_convolve_impulse. exact Hc.
Qed.

Lemma impulse_response_is_kernel_witness :
  exists chans res,
    GammaDifferenceHRF.kernel hrf_two_points = Ok chans /\
    GammaDifferenceHRF.convolve hrf_two_points [1; 0; 0] (Some [0; 1; 2]) "A"%string
    = Ok res /\
    map snd (columns res) = map (fun ch => map (fun k => nth k ch 0) (seq 0 3)) chans.
Proof.
  destruct hrf_two_points_kernel as (a0 & a1 & b0 & b1 & Hk).
  destruct two_points_convolution as (res & H).
  exists [[a0; a1]; [b0; b1]], res. split; [exact Hk|]. split; [exact H|].
  exact (impulse_response_is_kernel hrf_two_points 2 [0; 1; 2] "A"%string res _ H Hk).
Defined.

(* ------------------------------------------------------------------ *)
(** ** The identity model *)

Lemma hires_base_columns design names hft cols :
  mapM (fun cond =>
          ev <- _make_hires_ev_base hft
                  (boolean_index (map (String.eqb cond) (condition design)) (onset design))
                  (boolean_index (map (String.eqb cond) (condition design))
                                 (column_or_empty (duration design)))
                  (boolean_index (map (String.eqb cond) (condition design))
                                 (column_or_empty (value design))) ;;
          Ok (LStr cond, ev)) names = Ok cols ->
  forall c, In c cols ->
    length (snd c) = length hft /\
    forall c', In c' cols -> fst c' = fst c -> c' = c.
Proof.
  intros H c Hc.
  destruct (mapM_In_inv _ _ _ _ H Hc) as (cond & _ & Hcond).
  apply bind_Ok_inv in Hcond as (ev & Hev & Hcond). inversion Hcond; subst c.
  split; [exact (make_hires_ev_base_length _ _ _ _ _ Hev)|].
  intros c' Hc' Hfst.
  destruct (mapM_In_inv _ _ _ _ H Hc') as (cond' & _ & Hcond').
  apply bind_Ok_inv in Hcond' as (ev' & Hev' & Hcond'). inversion Hcond'; subst c'.
  cbn [fst] in Hfst. inversion Hfst; subst cond'. congruence.
Qed.

(** X7. With the identity model the convolution step changes nothing:
    the convolved hires matrix is the hires matrix of the encoded events. *)
Theorem identity_model_keeps_hires_base
        (design : EventTable) (condition_names : list string) (hft : list R)
        (hires_base : DataFrame) :
  _make_hires_base design condition_names hft = Ok hires_base ->
  _convolve Identity hires_base condition_names hft = Ok hires_base.
Proof.
  unfold _make_hires_base. intros H.
  apply bind_Ok_inv in H as (cols & Hcols & H). inversion H; subst hires_base; clear H.
  pose proof (hires_base_columns _ _ _ _ Hcols) as Hinv.
  unfold _convolve.
  assert (Hgen : forall todo,
             (forall c, In c todo -> In c condition_names) ->
             fold_left
               (fun acc cond =>
                  hires_conditions <- acc ;;
                  data <- getcol (mkDataFrame hft cols) (LStr cond) ;;
                  res <- hrf_convolve Identity data hft cond ;;
                  Ok (fold_left (fun df c => setcol df (fst c) (snd c))
                                (columns res) hires_conditions))
               todo (Ok (mkDataFrame hft cols)) = Ok (mkDataFrame hft cols)).
  { induction todo as [|cond todo IH]; intros Hin; [reflexivity|].
    cbn [fold_left bind].
    destruct (find_in_mapM _ LStr _ _ (LStr cond) Hcols) as (x & v & _ & Hx & _ & Hfind).
    { exists cond. split; [apply Hin; left|]; reflexivity. }
    unfold getcol. cbn [columns]. rewrite Hfind. cbn [bind snd].
    pose proof (find_some _ _ Hfind) as (Hv & _).
    destruct (Hinv _ Hv) as (Hlen & Huniq). cbn [snd fst] in Hlen, Huniq.
    unfold hrf_convolve, IdentityHRF.convolve, DataFrame_of_array.
    cbn [shape0 acolumns length]. rewrite Hlen, !Nat.eqb_refl.
    cbn [andb negb bind columns combine fold_left fst snd].
    replace (setcol (mkDataFrame hft cols) (LStr cond) v) with (mkDataFrame hft cols).
    - apply IH. intros c Hc. apply Hin. right. exact Hc.
    - unfold setcol, column_labels. cbn [columns index].
      replace (existsb (label_eqb (LStr cond)) (map fst cols)) with true.
      + f_equal. symmetry. rewrite <- (map_id cols) at 2.
        apply map_ext_in. intros c Hc.
        destruct (label_eqb (LStr cond) (fst c)) eqn:E; [|reflexivity].
        apply label_eqb_eq in E. symmetry. apply Huniq; [exact Hc | congruence].
      + symmetry. apply existsb_label_In.
        change (LStr cond) with (fst (LStr cond, v)). apply in_map. exact Hv. }
  apply Hgen. auto.
Qed.

Lemma identity_model_keeps_hires_base_witness :
  exists hires_base,
    _make_hires_base (mkEventTable ["A"%string] [0] (Some [0]) (Some [1]))
      ["A"%string] [0; 1; 2] = Ok hires_base /\
    _convolve Identity hires_base ["A"%string] [0; 1; 2] = Ok hires_base.
Proof.
  assert (H : exists hb,
             _make_hires_base (mkEventTable ["A"%string] [0] (Some [0]) (Some [1]))
               ["A"%string] [0; 1; 2] = Ok hb).
  { unfold _make_hires_base.
    cbn [mapM map condition onset duration value column_or_empty boolean_index].
    change (String.eqb "A" "A") with true. cbn [boolean_index].
    destruct one_event_encoded as (e0 & e1 & e2 & ->). cbn [bind].
    eexists. reflexivity. }
  destruct H as (hb & H). exists hb. split; [exact H|].
  exact (identity_model_keeps_hires_base _ _ _ _ H).
Defined.

(* ------------------------------------------------------------------ *)
(** ** The resampler, outside the grid *)




(* ------------------------------------------------------------------ *)
(** ** The filter and linear trends *)

(** The filter matrix as the function builds it, with the positive weights
    [K] of its rows. *)
Lemma highpass_matrix_built (ntp : nat) (cutoff tr : R) :
  (1 <= ntp)%nat -> 0 < cutoff -> 0 < tr ->
  exists K : matrix,
    (forall k i, (k < ntp)%nat -> 0 < K k i) /\
    fsl_highpass_matrix ntp cutoff tr
    = Ok (fun i j =>
            eye i j
            - dot ntp (dot 2 design_X (pinv ntp (dot ntp (diag (K i)) design_X)))
                  (diag (K i)) i j).
Proof.
  intros Hn Hc Htr. unfold fsl_highpass_matrix.
  rewrite pydiv_Ok by lra. cbn [bind].
  set (sig2n := Rsqr (cutoff / tr / sqrt 2)).
  assert (Hsig : 0 < sig2n).
  { unfold sig2n. apply Rsqr_pos_lt.
    assert (0 < sqrt 2) by (apply sqrt_lt_R0; lra).
    assert (0 < cutoff / tr) by (apply Rdiv_lt_0_compat; assumption).
    assert (0 < cutoff / tr / sqrt 2) by (apply Rdiv_lt_0_compat; assumption).
    lra. }
  destruct (Req_dec_T sig2n 0) as [E|_]; [lra|].
  set (K0 := toeplitz (gauss_kernel sig2n)).
  exists (dot ntp (diag (fun i => 1 / rsum ntp (fun j => K0 i j))) K0).
  split; [|reflexivity].
  assert (HK0 : forall i j, 0 < K0 i j).
  { intros i j. apply toeplitz_pos. intros m. apply gauss_kernel_pos. exact Hsig. }
  intros k i Hk. rewrite dot_diag_l by exact Hk.
  apply Rmult_lt_0_compat; [|apply HK0].
  apply Rdiv_lt_0_compat; [lra|]. apply rsum_pos; [lia|]. intros; apply HK0.
Qed.

(** Every row of the hat matrix reproduces both columns of the local
    design, the constant and the time index. *)
Lemma hat_row_reproduces_design (ntp : nat) (w : vector) (k c : nat) :
  (2 <= ntp)%nat ->
  (forall i, (i < ntp)%nat -> 0 < w i) ->
  rsum ntp (fun j =>
              dot ntp (dot 2 design_X (pinv ntp (dot ntp (diag w) design_X)))
                  (diag w) k j * design_X j c)
  = design_X k c.
Proof.
  intros Hn Hw.
  set (A := dot ntp (diag w) design_X).
  assert (HA : forall i c', (i < ntp)%nat -> A i c' = w i * design_X i c').
  { intros i c' Hi. unfold A. apply dot_diag_l. exact Hi. }
  set (a := fun i => w i * w i).
  assert (Hdet :
    rsum ntp (fun i => A i 0%nat * A i 0%nat) * rsum ntp (fun i => A i 1%nat * A i 1%nat)
    - rsum ntp (fun i => A i 0%nat * A i 1%nat) * rsum ntp (fun i => A i 0%nat * A i 1%nat)
    <> 0).
  { rewrite (rsum_ext ntp (fun i => A i 0%nat * A i 0%nat) a)
      by (intros i Hi; rewrite HA by exact Hi; unfold a; simpl; ring).
    rewrite (rsum_ext ntp (fun i => A i 1%nat * A i 1%nat)
                      (fun i => a i * Rsqr (INR i)))
      by (intros i Hi; rewrite HA by exact Hi; unfold a, Rsqr; simpl; ring).
    rewrite (rsum_ext ntp (fun i => A i 0%nat * A i 1%nat) (fun i => a i * INR i))
      by (intros i Hi; rewrite !HA by exact Hi; unfold a; simpl; ring).
    assert (Hg := gram_pos ntp a Hn).
    unfold Rsqr at 2 in Hg.
    assert (0 < rsum ntp a * rsum ntp (fun i => a i * Rsqr (INR i))
                - rsum ntp (fun i => a i * INR i) * rsum ntp (fun i => a i * INR i)).
    { apply Hg. intros i Hi. unfold a. specialize (Hw i Hi). nra. }
    lra. }
  destruct (pinv_left_inverse ntp A Hdet) as (H00 & H10 & H01 & H11).
  unfold dot in H00, H10, H01, H11.
  destruct c as [|c].
  - rewrite (rsum_ext ntp _
               (fun j => pinv ntp A 0%nat j * A j 0%nat
                         + INR k * (pinv ntp A 1%nat j * A j 0%nat))).
    + rewrite rsum_plus, rsum_scal_l, H00, H10. simpl. ring.
    + intros j Hj. rewrite dot_diag_r by exact Hj.
      rewrite HA by exact Hj. unfold dot. simpl. ring.
  - rewrite (rsum_ext ntp _
               (fun j => pinv ntp A 0%nat j * A j 1%nat
                         + INR k * (pinv ntp A 1%nat j * A j 1%nat))).
    + rewrite rsum_plus, rsum_scal_l, H01, H11. simpl. ring.
    + intros j Hj. rewrite dot_diag_r by exact Hj.
      rewrite HA by exact Hj. unfold dot. simpl. ring.
Qed.

Lemma rsum_eye_pick n k (f : nat -> R) :
  (k < n)%nat -> rsum n (fun j => eye k j * f j) = f k.
Proof.
  intros Hk. rewrite (rsum_single n _ k Hk).
  - unfold eye. rewrite Nat.eqb_refl. ring.
  - intros j Hj. unfold eye. destruct (Nat.eqb_spec k j); [congruence | ring].
Qed.

(** A row of the filter applied to a line [a + b j] gives 0. *)
Lemma filter_row_removes_line (ntp : nat) (K : matrix) (a b : R) (k : nat) :
  (2 <= ntp)%nat -> (k < ntp)%nat ->
  (forall i, (i < ntp)%nat -> 0 < K k i) ->
  rsum ntp (fun j =>
              (eye k j
               - dot ntp (dot 2 design_X (pinv ntp (dot ntp (diag (K k)) design_X)))
                     (diag (K k)) k j) * (a + b * INR j)) = 0.
Proof.
  intros Hn Hk HK.
  set (hat := dot ntp (dot 2 design_X (pinv ntp (dot ntp (diag (K k)) design_X)))
                  (diag (K k)) k).
  rewrite (rsum_ext ntp _
             (fun j => a * (eye k j * 1) + b * (eye k j * INR j)
                       - (a * (hat j * design_X j 0%nat)
                          + b * (hat j * design_X j 1%nat))))
    by (intros; simpl; ring).
  rewrite rsum_minus, !rsum_plus, !rsum_scal_l.
  rewrite (rsum_eye_pick ntp k (fun _ => 1)) by exact Hk.
  rewrite (rsum_eye_pick ntp k INR) by exact Hk.
  unfold hat. rewrite !hat_row_reproduces_design by assumption.
  simpl. ring.
Qed.

(** X9. For at least two timepoints and a positive cutoff and TR, the
    filter removes every linear trend: applied to a signal [a + b j] it
    gives 0 at every timepoint. *)
Theorem highpass_matrix_removes_linear_trends (ntp : nat) (cutoff tr : R) :
  (2 <= ntp)%nat -> 0 < cutoff -> 0 < tr ->
  exists F,
    fsl_highpass_matrix ntp cutoff tr = Ok F /\
    forall a b,
      dot_vec ntp F (map (fun j => a + b * INR j) (seq 0 ntp)) = Ok (repeat 0 ntp).
Proof.
  intros Hn Hc Htr.
  destruct (highpass_matrix_built ntp cutoff tr ltac:(lia) Hc Htr) as (K & HK & HF).
  eexists. split; [exact HF|].
  intros a b. unfold dot_vec. rewrite length_map, length_seq, Nat.eqb_refl. f_equal.
  apply map_seq_zero. intros k Hk.
  etransitivity; [|apply (filter_row_removes_line ntp K a b k Hn); [lia|]].
  - apply rsum_ext. intros j Hj. cbv beta.
    rewrite (nth_indep _ 0 (a + b * INR 0)) by (rewrite length_map, length_seq; exact Hj).
    rewrite (map_nth (fun j => a + b * INR j)), seq_nth by exact Hj. reflexivity.
  - intros i _. apply HK. lia.
Qed.

Lemma highpass_matrix_removes_linear_trends_witness :
  exists F,
    fsl_highpass_matrix 10 128 2 = Ok F /\
    forall a b,
      dot_vec 10 F (map (fun j => a + b * INR j) (seq 0 10)) = Ok (repeat 0 10).
Proof.
  apply (highpass_matrix_removes_linear_trends 10 128 2); [lia | lra | lra].
Defined.

Lemma hat_single_timepoint (w : vector) :
  0 < w 0%nat ->
  dot 1 (dot 2 design_X (pinv 1 (dot 1 (diag w) design_X))) (diag w) 0%nat 0%nat = 1.
Proof.
  intros Hw. unfold dot, pinv, diag, design_X. cbn [rsum Nat.eqb INR].
  set (x := w 0%nat) in *.
  destruct (Req_dec_T _ 0) as [Hdet | Hdet].
  - destruct (Req_dec_T _ 0) as [Htr | Htr].
    + exfalso. nra.
    + cbn [Nat.eqb]. fold x. field. nra.
  - exfalso. apply Hdet. ring.
Qed.

(** X10. With a single timepoint the filter matrix is the zero matrix:
    whatever the one sample is, it is filtered to 0. *)
Theorem highpass_matrix_single_timepoint (cutoff tr : R) :
  0 < cutoff -> 0 < tr ->
  exists F,
    fsl_highpass_matrix 1 cutoff tr = Ok F /\
    F 0%nat 0%nat = 0 /\
    forall x, dot_vec 1 F [x] = Ok [0].
Proof.
  intros Hc Htr.
  destruct (highpass_matrix_built 1 cutoff tr ltac:(lia) Hc Htr) as (K & HK & HF).
  eexists. split; [exact HF|].
  assert (H0 : eye 0%nat 0%nat
               - dot 1 (dot 2 design_X (pinv 1 (dot 1 (diag (K 0%nat)) design_X)))
                     (diag (K 0%nat)) 0%nat 0%nat = 0).
  { rewrite hat_single_timepoint by (apply HK; lia). unfold eye. simpl. ring. }
  split; [exact H0|].
  intros x. unfold dot_vec. cbn [length Nat.eqb seq map rsum nth].
  rewrite H0. do 2 f_equal. ring.
Qed.

Lemma highpass_matrix_single_timepoint_witness :
  exists F,
    fsl_highpass_matrix 1 128 2 = Ok F /\
    F 0%nat 0%nat = 0 /\
    forall x, dot_vec 1 F [x] = Ok [0].
Proof.
  apply (highpass_matrix_single_timepoint 128 2); lra.
Defined.

(** X11. For at least two frames and a positive cutoff and TR, filtering a
    table whose columns have one entry per frame succeeds; index and column
    names stay, every column keeps its length, and a column that is a line
    [a + b j] in the frame number becomes a column of zeros. *)
Theorem highpass_filter_on_tables
        (ntp : nat) (tr cutoff : R) (mat : DataFrame) :
  (2 <= ntp)%nat -> 0 < cutoff -> 0 < tr ->
  (forall col, In col (columns mat) -> length (snd col) = ntp) ->
  exists X,
    _highpass_filter ntp tr mat cutoff = Ok X /\
    index X = index mat /\
    column_labels X = column_labels mat /\
    (forall col, In col (columns X) -> length (snd col) = ntp) /\
    forall k key vals a b,
      nth_error (columns mat) k = Some (key, vals) ->
      (forall j, (j < ntp)%nat -> nth j vals 0 = a + b * INR j) ->
      nth_error (columns X) k = Some (key, repeat 0 ntp).
Proof.
  intros Hn Hc Htr Hlen.
  destruct (highpass_matrix_built ntp cutoff tr ltac:(lia) Hc Htr) as (K & HK & HF).
  unfold _highpass_filter. rewrite HF. cbn [bind].
  set (F := fun i j =>
              eye i j
              - dot ntp (dot 2 design_X (pinv ntp (dot ntp (diag (K i)) design_X)))
                    (diag (K i)) i j).
  set (g := fun col : label * list R =>
              (fst col,
               map (fun k => rsum ntp (fun j => F k j * nth j (snd col) 0)) (seq 0 ntp))).
  rewrite (mapM_Ok_map _ g).
  2:{ intros col Hcol. unfold dot_vec. rewrite (Hlen col Hcol), Nat.eqb_refl.
      reflexivity. }
  cbn [bind]. eexists. split; [reflexivity|]. cbn [index columns].
  split; [reflexivity|]. split.
  { unfold column_labels. cbn [columns]. rewrite map_map. reflexivity. }
  split.
  { intros col Hcol. apply in_map_iff in Hcol as (c & <- & _).
    unfold g. cbn [snd]. rewrite length_map, length_seq. reflexivity. }
  intros k key vals a b Hk Hline.
  rewrite nth_error_map, Hk. cbn [option_map]. unfold g. cbn [fst snd].
  do 2 f_equal. apply map_seq_zero. intros i Hi.
  etransitivity; [|apply (filter_row_removes_line ntp K a b i Hn); [lia|]].
  - apply rsum_ext. intros j Hj. rewrite Hline by exact Hj. reflexivity.
  - intros m _. apply HK. lia.
Qed.

Lemma highpass_filter_on_tables_witness :
  exists X,
    _highpass_filter 2 2 (mkDataFrame [0; 2] [(LStr "A"%string, [3; 5])]) 128 = Ok X /\
    index X = [0; 2] /\
    column_labels X = [LStr "A"%string] /\
    (forall col, In col (columns X) -> length (snd col) = 2%nat) /\
    forall k key vals a b,
      nth_error [(LStr "A"%string, [3; 5])] k = Some (key, vals) ->
      (forall j, (j < 2)%nat -> nth j vals 0 = a + b * INR j) ->
      nth_error (columns X) k = Some (key, repeat 0 2).
Proof.
  apply (highpass_filter_on_tables 2 2 128
           (mkDataFrame [0; 2] [(LStr "A"%string, [3; 5])])); try lra; try lia.
  intros col [<- | []]. reflexivity.
Defined.

(* ------------------------------------------------------------------ *)
(** ** Contrast vectors *)

Lemma zipWith_length {A B C : Type} (f : A -> B -> C) (l : list A) (m : list B) :
  length l = length m -> length (zipWith f l m) = length l.
Proof.
  revert m; induction l as [|a l IH]; intros [|b m] H; simpl in *; try discriminate;
    [reflexivity|]. f_equal. apply IH. congruence.
Qed.

Lemma nth_contrast_step (cols : list label) (vector : list R) (nw : label * R)
      (k : nat) (d : label) :
  length vector = length cols -> (k < length cols)%nat ->
  nth k (zipWith (fun col v => if label_eqb col (fst nw) then snd nw else v)
                 cols vector) 0
  = if label_eqb (nth k cols d) (fst nw) then snd nw else nth k vector 0.
Proof.
  revert vector k; induction cols as [|c cols IH]; intros [|v vector] k Hl Hk;
    simpl in *; try lia.
  destruct k; [reflexivity|]. apply IH; lia.
Qed.

Lemma contrast_fold_length (cols : list label) (pairs : list (label * R))
      (vector : list R) :
  length vector = length cols ->
  length (fold_left (fun vector nw =>
                       zipWith (fun col v => if label_eqb col (fst nw) then snd nw else v)
                               cols vector) pairs vector) = length cols.
Proof.
  revert vector; induction pairs as [|p pairs IH]; intros vector H; [exact H|].
  cbn [fold_left]. apply IH. rewrite zipWith_length; congruence.
Qed.

Lemma contrast_fold_unlisted (cols : list label) (pairs : list (label * R))
      (vector : list R) (k : nat) (d : label) :
  length vector = length cols -> (k < length cols)%nat ->
  ~ In (nth k cols d) (map fst pairs) ->
  nth k (fold_left (fun vector nw =>
                      zipWith (fun col v => if label_eqb col (fst nw) then snd nw else v)
                              cols vector) pairs vector) 0
  = nth k vector 0.
Proof.
  revert vector; induction pairs as [|p pairs IH]; intros vector Hl Hk Hn; [reflexivity|].
  cbn [fold_left]. rewrite IH.
  - rewrite (nth_contrast_step _ _ _ _ d) by assumption.
    destruct (label_eqb (nth k cols d) (fst p)) eqn:E; [|reflexivity].
    apply label_eqb_eq in E. exfalso. apply Hn. left. congruence.
  - rewrite zipWith_length; congruence.
  - exact Hk.
  - intros H. apply Hn. right. exact H.
Qed.

Lemma contrast_fold_listed (cols : list label) (names : list label) (weights : list R)
      (vector : list R) (k i : nat) (d : label) :
  length vector = length cols -> (k < length cols)%nat ->
  NoDup names -> length names = length weights ->
  (i < length names)%nat -> nth k cols d = nth i names d ->
  nth k (fold_left (fun vector nw =>
                      zipWith (fun col v => if label_eqb col (fst nw) then snd nw else v)
                              cols vector) (combine names weights) vector) 0
  = nth i weights 0.
Proof.
  revert weights vector i; induction names as [|n names IH];
    intros [|w weights] vector i Hl Hk Hnd Hlen Hi Hname; simpl in Hi, Hlen; try lia.
  cbn [combine fold_left]. inversion Hnd as [|? ? Hnotin Hnd']; subst.
  destruct i as [|i].
  - cbn [nth] in Hname. rewrite (contrast_fold_unlisted _ _ _ _ d).
    + rewrite (nth_contrast_step _ _ _ _ d) by assumption. cbn [fst snd].
      rewrite Hname. replace (label_eqb n n) with true; [reflexivity|].
      symmetry. apply label_eqb_eq. reflexivity.
    + rewrite zipWith_length; congruence.
    + exact Hk.
    + rewrite map_fst_combine by congruence. rewrite Hname. exact Hnotin.
  - cbn [nth] in Hname |- *. apply IH; auto; try lia.
    rewrite zipWith_length; congruence.
Qed.

(** X12. For distinct names with one weight each, the contrast vector has
    one entry for each column of the design matrix: the weight of the name
    that the column carries, and 0 where the column carries none of the
    names.  A name that no column carries is passed over. *)
Theorem contrast_vector_entries
        (self : DesignMatrix.t) (names : list label) (weights : list R) (d : label) :
  NoDup names ->
  length names = length weights ->
  let cols := column_labels (DesignMatrix.design_matrix self) in
  length (contrast_vector self names weights) = length cols /\
  (forall k i, (k < length cols)%nat -> (i < length names)%nat ->
     nth k cols d = nth i names d ->
     nth k (contrast_vector self names weights) 0 = nth i weights 0) /\
  (forall k, (k < length cols)%nat -> ~ In (nth k cols d) names ->
     nth k (contrast_vector self names weights) 0 = 0).
Proof.
  intros Hnd Hlen cols. unfold contrast_vector, contrast_vector_of. fold cols.
  assert (Hz : length (map (fun _ : label => 0) cols) = length cols) by apply length_map.
  repeat split.
  - apply contrast_fold_length. exact Hz.
  - intros k i Hk Hi Hname.
    apply (contrast_fold_listed cols names weights _ k i d); assumption.
  - intros k Hk Hnot. rewrite (contrast_fold_unlisted _ _ _ _ d).
    + clear. revert k. induction cols as [|c cols IH]; intros [|k]; simpl; auto.
    + exact Hz.
    + exact Hk.
    + rewrite map_fst_combine by exact Hlen. exact Hnot.
Qed.

Lemma contrast_vector_entries_witness :
  exists dm,
    DesignMatrix.__init__ no_pca one_event Identity 2 None
      (Some (CArray (mkArray 2 [[3; 5]]))) (Some [false; false]) None false
      1 None 1
    = (mkEventTable ["A"%string] [0] (Some [0]) (Some [1]), Ok dm) /\
    length (contrast_vector dm [LStr "A"%string] [1])
    = length (column_labels (DesignMatrix.design_matrix dm)).
Proof.
  destruct identity_construction as (dm & H). exists dm. split; [exact H|].
  apply (contrast_vector_entries dm [LStr "A"%string] [1] (LInt 0)).
  - constructor; [intros [] | constructor].
  - reflexivity.
Defined.

(* ------------------------------------------------------------------ *)
(** ** The assembled matrix *)

Lemma setcol_labels_grow df key vals :
  exists ext, column_labels (setcol df key vals) = column_labels df ++ ext.
Proof.
  unfold setcol. destruct (existsb (label_eqb key) (column_labels df)) eqn:E.
  - exists []. rewrite app_nil_r. unfold column_labels. cbn [columns].
    rewrite map_map. apply map_ext. intros c.
    destruct (label_eqb key (fst c)) eqn:Ec; [|reflexivity].
    apply label_eqb_eq in Ec. exact Ec.
  - exists [key]. unfold column_labels. cbn [columns]. rewrite map_app. reflexivity.
Qed.

Lemma convolve_labels_grow hrf hb names hft hc :
  _convolve hrf hb names hft = Ok hc ->
  exists ext, column_labels hc = column_labels hb ++ ext.
Proof.
  unfold _convolve.
  assert (Hgen : forall todo acc,
             (forall df, acc = Ok df ->
                exists ext, column_labels df = column_labels hb ++ ext) ->
             fold_left
               (fun acc cond =>
                  hires_conditions <- acc ;;
                  data <- getcol hb (LStr cond) ;;
                  res <- hrf_convolve hrf data hft cond ;;
                  Ok (fold_left (fun df c => setcol df (fst c) (snd c))
                                (columns res) hires_conditions))
               todo acc = Ok hc ->
             exists ext, column_labels hc = column_labels hb ++ ext).
  { induction todo as [|cond todo IH]; intros acc Hacc H.
    - simpl in H. apply Hacc. exact H.
    - cbn [fold_left] in H. eapply IH; [|exact H].
      intros df Hdf.
      apply bind_Ok_inv in Hdf as (hcs & Ha & Hdf).
      apply bind_Ok_inv in Hdf as (data & _ & Hdf).
      apply bind_Ok_inv in Hdf as (res & _ & Hdf).
      apply Ok_inj in Hdf. subst df.
      destruct (Hacc _ Ha) as (ext0 & Hext0).
      clear - Hext0. revert hcs ext0 Hext0.
      induction (columns res) as [|c cs IHc]; intros hcs ext0 Hext0.
      + exists ext0. exact Hext0.
      + cbn [fold_left].
        destruct (setcol_labels_grow hcs (fst c) (snd c)) as (e & He).
        apply (IHc _ (ext0 ++ e)). rewrite He, Hext0, app_assoc. reflexivity. }
  apply Hgen. intros df Hdf. apply Ok_inj in Hdf. subst df.
  exists []. rewrite app_nil_r. reflexivity.
Qed.

Section InitMore.

Variable PCA_fit_transform : R -> option DataFrame -> outcome ndarray.
Variables (design : EventTable) (hrf : hrf_model) (ntp : nat).
Variables (regressors confounds : option component).
Variables (artifacts : option (list bool)) (condition_names : option (list string)).
Variables (confound_pca : bool) (tr : R) (hpf_cutoff : option R) (oversampling : R).
Variables (design' : EventTable) (dm : DesignMatrix.t).

Hypothesis Hinit :
  DesignMatrix.__init__ PCA_fit_transform design hrf ntp regressors confounds
    artifacts condition_names confound_pca tr hpf_cutoff oversampling
  = (design', Ok dm).

Lemma init_condition_vector :
  DesignMatrix.condition_vector dm
  = isin (DesignMatrix._full_names dm) (map LStr (DesignMatrix._condition_names dm)) /\
  index (DesignMatrix.design_matrix dm) = DesignMatrix.frametimes dm /\
  DesignMatrix.design dm = design'.
Proof.
  pose proof (init_table _ _ _ _ _ _ _ _ _ _ _ _ _ _ Hinit) as Ht.
  unfold DesignMatrix.__init__ in Hinit.
  rewrite <- Ht in Hinit.
  assert (H : snd (design', Ok dm) = Ok dm) by reflexivity.
  rewrite <- Hinit in H. cbn [snd] in H. clear Hinit.
  repeat match type of H with
         | bind _ _ = Ok _ => apply bind_Ok_inv in H as (? & ? & H)
         end.
  match goal with
  | HX : demean _ = Ok ?X |- _ =>
      unfold demean in HX; apply bind_Ok_inv in HX as (? & _ & HX);
      apply Ok_inj in HX; subst X
  end.
  apply Ok_inj in H. subst dm. cbn. repeat split.
Qed.

Lemma init_column_order :
  exists derivs regs,
    DesignMatrix._full_names dm
    = map LStr (DesignMatrix._condition_names dm) ++ derivs ++ regs
      ++ DesignMatrix._confound_names dm ++ DesignMatrix._artifact_names dm /\
    DesignMatrix._main_names dm = map LStr (DesignMatrix._condition_names dm) ++ regs.
Proof.
  destruct (init_steps _ _ _ _ _ _ _ _ _ _ _ _ _ _ Hinit)
    as (ft & hft & hb & hc & s & c & conds & regs & confs & confs' & arts & H).
  destruct H as (_ & Hhb & Hhc & Hs & Hc & Hcond & _ & _ & _ & _ & HX & _ & Hcn
                 & Hfull & Hmain & Hconf & Hart & _).
  destruct (convolve_labels_grow _ _ _ _ _ Hhc) as (ext & Hext).
  rewrite (make_hires_base_labels _ _ _ _ Hhb) in Hext.
  assert (Hlc : column_labels conds = map LStr (DesignMatrix._condition_names dm) ++ ext).
  { rewrite Hcn, <- Hext, <- (subsample_labels _ _ _ _ _ Hs), <- (demean_labels _ _ Hc).
    destruct hpf_cutoff as [cutoff|].
    - apply (highpass_labels _ _ _ _ _ Hcond).
    - apply Ok_inj in Hcond. subst conds. reflexivity. }
  exists ext, (map fst (optional_columns regs)). split.
  - rewrite Hfull, (demean_labels _ _ HX), Hconf, Hart.
    unfold column_labels in *. cbn [columns].
    rewrite !map_app, Hlc, <- !app_assoc. reflexivity.
  - rewrite Hmain, Hcn. reflexivity.
Qed.

End InitMore.

Lemma design_columns_and_names
      (PCA_fit_transform : R -> option DataFrame -> outcome ndarray)
      (design : EventTable) (hrf : hrf_model) (ntp : nat)
      (regressors confounds : option component) (artifacts : option (list bool))
      (condition_names : option (list string)) (confound_pca : bool)
      (tr : R) (hpf_cutoff : option R) (oversampling : R)
      (design' : EventTable) (dm : DesignMatrix.t) :
  DesignMatrix.__init__ PCA_fit_transform design hrf ntp regressors confounds
    artifacts condition_names confound_pca tr hpf_cutoff oversampling
  = (design', Ok dm) ->
  exists derivs regs,
    column_labels (DesignMatrix.design_matrix dm)
    = map LStr (DesignMatrix._condition_names dm) ++ derivs ++ regs
      ++ DesignMatrix._confound_names dm ++ DesignMatrix._artifact_names dm /\
    DesignMatrix._main_names dm = map LStr (DesignMatrix._condition_names dm) ++ regs /\
    index (DesignMatrix.design_matrix dm) = DesignMatrix.frametimes dm.
Proof.
  intros Hinit.
  destruct (init_column_order _ _ _ _ _ _ _ _ _ _ _ _ _ _ Hinit)
    as (derivs & regs & Hfull & Hmain).
  destruct (init_condition_vector _ _ _ _ _ _ _ _ _ _ _ _ _ _ Hinit) as (_ & Hidx & _).
  destruct (init_steps _ _ _ _ _ _ _ _ _ _ _ _ _ _ Hinit)
    as (ft & hft & hb & hc & s & c & conds & rg & confs & confs' & arts & H).
  destruct H as (_ & _ & _ & _ & _ & _ & _ & _ & _ & _ & _ & _ & _ & Hnames & _).
  exists derivs, regs. rewrite <- Hnames. auto.
Qed.

(** X13. In every constructed design matrix the columns come in a fixed
    order: the conditions in the order of the condition names, then any
    derivative columns, the regressors, the confounds and the artifacts;
    the main names are the condition names followed by the regressors; the
    rows are indexed by the frametimes; and every column flagged by the
    condition mask is flagged by the main mask. *)
Theorem design_matrix_column_order
        (PCA_fit_transform : R -> option DataFrame -> outcome ndarray)
        (design : EventTable) (hrf : hrf_model) (ntp : nat)
        (regressors confounds : option component) (artifacts : option (list bool))
        (condition_names : option (list string)) (confound_pca : bool)
        (tr : R) (hpf_cutoff : option R) (oversampling : R)
        (design' : EventTable) (dm : DesignMatrix.t) :
  DesignMatrix.__init__ PCA_fit_transform design hrf ntp regressors confounds
    artifacts condition_names confound_pca tr hpf_cutoff oversampling
  = (design', Ok dm) ->
  (exists derivs regs,
     column_labels (DesignMatrix.design_matrix dm)
     = map LStr (DesignMatrix._condition_names dm) ++ derivs ++ regs
       ++ DesignMatrix._confound_names dm ++ DesignMatrix._artifact_names dm /\
     DesignMatrix._main_names dm
     = map LStr (DesignMatrix._condition_names dm) ++ regs) /\
  index (DesignMatrix.design_matrix dm) = DesignMatrix.frametimes dm /\
  forall k, nth k (DesignMatrix.condition_vector dm) false = true ->
            nth k (DesignMatrix.main_vector dm) false = true.
Proof.
  intros Hinit.
  destruct (init_column_order _ _ _ _ _ _ _ _ _ _ _ _ _ _ Hinit)
    as (derivs & regs & Hfull & Hmain).
  destruct (init_condition_vector _ _ _ _ _ _ _ _ _ _ _ _ _ _ Hinit)
    as (Hcv & Hidx & _).
  destruct (init_steps _ _ _ _ _ _ _ _ _ _ _ _ _ _ Hinit)
    as (ft & hft & hb & hc & s & c & conds & rg & confs & confs' & arts & H).
  destruct H as (_ & _ & _ & _ & _ & _ & _ & _ & _ & _ & _ & _ & _
                 & Hnames & _ & _ & _ & Hmv & _).
  split; [|split; [exact Hidx|]].
  - exists derivs, regs. rewrite <- Hnames. auto.
  - intros k Hk. rewrite Hcv in Hk. rewrite Hmv.
    destruct (Nat.lt_ge_cases k (length (DesignMatrix._full_names dm))) as [Hlt | Hge].
    + rewrite (nth_isin _ _ _ (LInt 0) Hlt) in Hk.
      rewrite (nth_isin _ _ _ (LInt 0) Hlt).
      apply existsb_label_In in Hk. apply existsb_label_In.
      rewrite Hmain. apply in_or_app. left. exact Hk.
    + rewrite nth_overflow in Hk; [discriminate|].
      unfold isin. rewrite length_map. exact Hge.
Qed.

Lemma design_matrix_column_order_witness :
  exists dm,
    DesignMatrix.__init__ no_pca one_event (GammaDifference hrf_two_points) 2
      None None None None false 1 None 1
    = (mkEventTable ["A"%string] [0] (Some [0]) (Some [1]), Ok dm) /\
    index (DesignMatrix.design_matrix dm) = DesignMatrix.frametimes dm /\
    forall k, nth k (DesignMatrix.condition_vector dm) false = true ->
              nth k (DesignMatrix.main_vector dm) false = true.
Proof.
  destruct derivative_construction as (dm & H & _). exists dm. split; [exact H|].
  exact (proj2 (design_matrix_column_order _ _ _ _ _ _ _ _ _ _ _ _ _ _ H)).
Defined.

(* ------------------------------------------------------------------ *)
(** ** Artifact columns and default names *)

Lemma boolean_index_length {A : Type} (mask : list bool) (col : list A) :
  length mask = length col ->
  length (boolean_index mask col) = length (filter (fun b => b) mask).
Proof.
  revert col; induction mask as [|b mask IH]; intros [|x col] H; simpl in *;
    try discriminate; [reflexivity|].
  destruct b; simpl; rewrite IH by congruence; reflexivity.
Qed.

Lemma validate_array_labels frametimes a base comp :
  _validate_component frametimes (Some (CArray a)) base = Ok (Some comp) ->
  shape0 a = length frametimes /\
  index comp = frametimes /\
  column_labels comp = default_names base (length (acolumns a)).
Proof.
  unfold _validate_component, DataFrame_of_array. intros H.
  apply bind_Ok_inv in H as (df & Hdf & H).
  match type of Hdf with
  | (if negb (?x && ?y) then _ else _) = _ =>
      destruct x eqn:Ex; destruct y eqn:Ey; cbn [andb negb] in Hdf; try discriminate
  end.
  apply Nat.eqb_eq in Ex, Ey. apply Ok_inj in Hdf. subst df.
  apply bind_Ok_inv in H as (m & _ & H).
  apply bind_Ok_inv in H as (fm & _ & H).
  destruct (negb fm); [discriminate|].
  apply bind_Ok_inv in H as (comp' & Hset & H).
  apply Ok_inj in H. inversion H; subst comp'; clear H.
  unfold set_index in Hset.
  destruct (Nat.eqb _ _); [|discriminate]. apply Ok_inj in Hset. subst comp.
  split; [exact Ex|]. split; [reflexivity|].
  unfold column_labels, relabelled. cbn [columns index].
  destruct (labels_eqb _ _); cbn [columns].
  - apply map_fst_combine.
    rewrite default_names_length, length_map, length_combine, default_names_length.
    rewrite Ey, default_names_length. lia.
  - apply map_fst_combine. rewrite default_names_length. reflexivity.
Qed.

(** X14. When the artifact mask flags a frame, a design matrix is only
    constructed if the mask has one entry per frame, and it then has one
    artifact column for each flagged frame, named artifact_0, artifact_1
    and so on. *)
Theorem flagged_frames_give_artifact_columns
        (PCA_fit_transform : R -> option DataFrame -> outcome ndarray)
        (design : EventTable) (hrf : hrf_model) (ntp : nat)
        (regressors confounds : option component) (artifacts : list bool)
        (condition_names : option (list string)) (confound_pca : bool)
        (tr : R) (hpf_cutoff : option R) (oversampling : R)
        (design' : EventTable) (dm : DesignMatrix.t) :
  existsb (fun b => b) artifacts = true ->
  DesignMatrix.__init__ PCA_fit_transform design hrf ntp regressors confounds
    (Some artifacts) condition_names confound_pca tr hpf_cutoff oversampling
  = (design', Ok dm) ->
  length artifacts = length (DesignMatrix.frametimes dm) /\
  DesignMatrix._artifact_names dm
  = default_names "artifact"%string (length (filter (fun b => b) artifacts)) /\
  DesignMatrix.artifact_vector dm
  = Some (isin (DesignMatrix._full_names dm) (DesignMatrix._artifact_names dm)).
Proof.
  intros Hany Hinit.
  destruct (init_steps _ _ _ _ _ _ _ _ _ _ _ _ _ _ Hinit)
    as (ft & hft & hb & hc & s & c & conds & rg & confs & confs' & arts & H).
  destruct H as (_ & _ & _ & _ & _ & _ & _ & _ & _ & Harts & _ & Hft & _ & _ & _ & _
                 & Han & _ & _ & Hav).
  rewrite Hany in Harts.
  destruct arts as [comp|].
  - apply validate_array_labels in Harts as (Hshape & _ & Hl).
    cbn [artifact_indicators shape0 acolumns] in Hshape, Hl.
    rewrite length_map, boolean_index_length in Hl
      by (rewrite length_seq; reflexivity).
    rewrite Hft, Hav, Han. repeat split; assumption.
  - exfalso. unfold _validate_component in Harts.
    apply bind_Ok_inv in Harts as (df & _ & Harts).
    apply bind_Ok_inv in Harts as (m & _ & Harts).
    apply bind_Ok_inv in Harts as (fm & _ & Harts).
    destruct (negb fm); [discriminate|].
    apply bind_Ok_inv in Harts as (comp' & _ & Harts). discriminate.
Qed.

(** The table [one_event], the identity model and two frames, the first of
    them flagged as an artifact. *)
Lemma artifact_construction :
  exists dm,
    DesignMatrix.__init__ no_pca one_event Identity 2 None None
      (Some [true; false]) None false 1 None 1
    = (mkEventTable ["A"%string] [0] (Some [0]) (Some [1]), Ok dm).
Proof.
  first_steps e0 e1 e2.
  unfold _convolve, getcol, hrf_convolve, IdentityHRF.convolve, DataFrame_of_array.
  cbn.
  unfold _subsample_condition_matrix, interp1d_nearest. cbn. decide_Rltb. cbn.
  unfold demean, demean_column, mean. cbn. decide_npdiv. cbn.
  rewrite !Reqb_true by reflexivity. cbn. decide_npdiv. cbn.
  eexists. reflexivity.
Qed.

Lemma flagged_frames_give_artifact_columns_witness :
  exists dm,
    DesignMatrix.__init__ no_pca one_event Identity 2 None None
      (Some [true; false]) None false 1 None 1
    = (mkEventTable ["A"%string] [0] (Some [0]) (Some [1]), Ok dm) /\
    length [true; false] = length (DesignMatrix.frametimes dm) /\
    DesignMatrix._artifact_names dm = [LStr "artifact_0"%string].
Proof.
  destruct artifact_construction as (dm & H). exists dm. split; [exact H|].
  destruct (flagged_frames_give_artifact_columns _ _ _ _ _ _ [true; false]
              _ _ _ _ _ _ _ eq_refl H) as (Hl & Hn & _).
  split; [exact Hl | exact Hn].
Defined.

Lemma all_strings_not_positions (names : list label) (n : nat) :
  names <> [] ->
  (forall l, In l names -> exists s, l = LStr s) ->
  labels_eqb names (map LInt (seq 0 n)) = false.
Proof.
  intros Hne Hs. destruct names as [|l names]; [congruence|].
  destruct (Hs l (or_introl eq_refl)) as (s & ->).
  destruct n; reflexivity.
Qed.

Lemma labels_eqb_refl (names : list label) : labels_eqb names names = true.
Proof.
  induction names as [|l names IH]; [reflexivity|]. simpl. rewrite IH.
  replace (label_eqb l l) with true; [reflexivity|].
  symmetry. apply label_eqb_eq. reflexivity.
Qed.

(** X15. Validation names the columns: an array gets the default names
    base_0, base_1, ...; so does a table whose columns are labelled by
    their positions 0..n-1; a table whose columns are labelled by strings
    keeps its labels. *)
Theorem validate_component_names
        (frametimes : list R) (name_base : string) (comp : DataFrame) :
  (forall a,
     _validate_component frametimes (Some (CArray a)) name_base = Ok (Some comp) ->
     column_labels comp = default_names name_base (length (acolumns a))) /\
  (forall df,
     column_labels df = map LInt (seq 0 (length (columns df))) ->
     _validate_component frametimes (Some (CFrame df)) name_base = Ok (Some comp) ->
     column_labels comp = default_names name_base (length (columns df))) /\
  (forall df,
     (forall l, In l (column_labels df) -> exists s, l = LStr s) ->
     _validate_component frametimes (Some (CFrame df)) name_base = Ok (Some comp) ->
     column_labels comp = column_labels df).
Proof.
  assert (Hframe : forall df,
            _validate_component frametimes (Some (CFrame df)) name_base = Ok (Some comp) ->
            column_labels comp
            = column_labels (relabelled name_base (length (columns df)) df)).
  { intros df H. rewrite validate_frame_unfold in H.
    apply bind_Ok_inv in H as (m & _ & H).
    apply bind_Ok_inv in H as (fm & _ & H).
    destruct (negb fm); [discriminate|].
    apply bind_Ok_inv in H as (comp' & Hset & H).
    apply Ok_inj in H. inversion H; subst comp'; clear H.
    unfold set_index in Hset. destruct (Nat.eqb _ _); [|discriminate].
    apply Ok_inj in Hset. subst comp. reflexivity. }
  repeat split.
  - intros a H. apply validate_array_labels in H as (_ & _ & H). exact H.
  - intros df Hpos H. rewrite (Hframe df H). unfold relabelled.
    rewrite Hpos at 1. rewrite labels_eqb_refl.
    unfold column_labels. cbn [columns]. apply map_fst_combine.
    rewrite default_names_length, length_map. reflexivity.
  - intros df Hstr H. rewrite (Hframe df H). unfold relabelled.
    destruct (columns df) as [|c cs] eqn:E.
    + unfold column_labels. rewrite E. reflexivity.
    + rewrite all_strings_not_positions; [reflexivity | | exact Hstr].
      unfold column_labels. rewrite E. discriminate.
Qed.

Lemma positional_table_validated :
  exists comp,
    _validate_component [0; 2]
      (Some (CFrame (mkDataFrame [0; 1] [(LInt 0, [3; 5])]))) "confound"%string
    = Ok (Some comp).
Proof.
  rewrite validate_frame_unfold. cbn [index all_eq bind length positions seq map].
  rewrite (Reqb_true 0 0), (Reqb_false 1 2), (Reqb_true 0 (INR 0)),
    (Reqb_true 1 (INR 1)) by (simpl; lra).
  cbn. eexists. reflexivity.
Qed.

Lemma validate_component_names_witness :
  exists comp,
    _validate_component [0; 2]
      (Some (CFrame (mkDataFrame [0; 1] [(LInt 0, [3; 5])]))) "confound"%string
    = Ok (Some comp) /\
    column_labels comp = [LStr "confound_0"%string].
Proof.
  destruct positional_table_validated as (comp & H).
  exists comp. split; [exact H|].
  apply (proj1 (proj2 (validate_component_names [0; 2] "confound"%string comp))
           (mkDataFrame [0; 1] [(LInt 0, [3; 5])])); [reflexivity | exact H].
Defined.

(* ------------------------------------------------------------------ *)
(** ** The submatrix views *)

Lemma select_present (df : DataFrame) (names : list label) :
  (forall l, In l names -> In l (column_labels df)) ->
  exists sub,
    select df names = Ok sub /\
    index sub = index df /\
    (forall l, In l names -> In l (column_labels sub)) /\
    forall col, In col (columns sub) ->
                In col (columns df) /\ In (fst col) names.
Proof.
  intros Hin. unfold select.
  set (g := fun key => filter (fun c => label_eqb key (fst c)) (columns df)).
  rewrite (mapM_Ok_map _ g).
  - cbn [bind]. eexists. split; [reflexivity|]. cbn [index columns].
    split; [reflexivity|]. split.
    + intros l Hl. specialize (Hin l Hl). unfold column_labels in *. cbn [columns].
      apply in_map_iff in Hin as (c & Hc & Hcin).
      apply in_map_iff. exists c. split; [exact Hc|].
      apply in_concat. exists (g l). split; [apply in_map; exact Hl|].
      unfold g. apply filter_In. split; [exact Hcin|].
      apply label_eqb_eq. congruence.
    + intros col Hcol. apply in_concat in Hcol as (cs & Hcs & Hcol).
      apply in_map_iff in Hcs as (key & <- & Hkey).
      unfold g in Hcol. apply filter_In in Hcol as (Hc & E).
      apply label_eqb_eq in E. split; [exact Hc | congruence].
  - intros key Hkey. fold (g key).
    destruct (g key) as [|c cs] eqn:E; [|reflexivity].
    exfalso. specialize (Hin key Hkey). unfold column_labels in Hin.
    apply in_map_iff in Hin as (c & Hc & Hcin).
    assert (Hg : In c (g key)).
    { unfold g. apply filter_In. split; [exact Hcin|]. apply label_eqb_eq. congruence. }
    rewrite E in Hg. contradiction.
Qed.

(** X16. On a constructed design matrix none of the four submatrix views
    raises: the main and condition views return columns of the design
    matrix that carry a main, or a condition, name, on the same rows; the
    confound and artifact views return [None] exactly when there are no
    confound, or artifact, names. *)
Theorem submatrix_views_succeed
        (PCA_fit_transform : R -> option DataFrame -> outcome ndarray)
        (design : EventTable) (hrf : hrf_model) (ntp : nat)
        (regressors confounds : option component) (artifacts : option (list bool))
        (condition_names : option (list string)) (confound_pca : bool)
        (tr : R) (hpf_cutoff : option R) (oversampling : R)
        (design' : EventTable) (dm : DesignMatrix.t) :
  DesignMatrix.__init__ PCA_fit_transform design hrf ntp regressors confounds
    artifacts condition_names confound_pca tr hpf_cutoff oversampling
  = (design', Ok dm) ->
  (exists m,
     DesignMatrix.main_submatrix dm = Ok m /\
     index m = DesignMatrix.frametimes dm /\
     (forall l, In l (DesignMatrix._main_names dm) -> In l (column_labels m)) /\
     forall col, In col (columns m) ->
       In col (columns (DesignMatrix.design_matrix dm)) /\
       In (fst col) (DesignMatrix._main_names dm)) /\
  (exists c,
     DesignMatrix.condition_submatrix dm = Ok c /\
     index c = DesignMatrix.frametimes dm /\
     forall col, In col (columns c) ->
       In col (columns (DesignMatrix.design_matrix dm)) /\
       In (fst col) (map LStr (DesignMatrix._condition_names dm))) /\
  (exists r, DesignMatrix.confound_submatrix dm = Ok r /\
             (r = None <-> DesignMatrix._confound_names dm = [])) /\
  (exists r, DesignMatrix.artifact_submatrix dm = Ok r /\
             (r = None <-> DesignMatrix._artifact_names dm = [])).
Proof.
  intros Hinit.
  destruct (design_columns_and_names _ _ _ _ _ _ _ _ _ _ _ _ _ _ Hinit)
    as (derivs & regs & Hfull & Hmain & Hidx).
  set (X := DesignMatrix.design_matrix dm) in *.
  set (cn := map LStr (DesignMatrix._condition_names dm)) in *.
  assert (Hin_main : forall l, In l (DesignMatrix._main_names dm) -> In l (column_labels X)).
  { intros l Hl. rewrite Hfull. rewrite Hmain in Hl.
    rewrite !in_app_iff in *. tauto. }
  assert (Hin_cond : forall l, In l cn -> In l (column_labels X)).
  { intros l Hl. rewrite Hfull. rewrite !in_app_iff. tauto. }
  assert (Hin_conf : forall l, In l (DesignMatrix._confound_names dm) ->
                               In l (column_labels X)).
  { intros l Hl. rewrite Hfull. rewrite !in_app_iff. tauto. }
  assert (Hin_art : forall l, In l (DesignMatrix._artifact_names dm) ->
                              In l (column_labels X)).
  { intros l Hl. rewrite Hfull. rewrite !in_app_iff. tauto. }
  repeat split.
  - destruct (select_present X _ Hin_main) as (m & Hm & Hi & Hl & Hc).
    exists m. rewrite Hi, Hidx. auto.
  - destruct (select_present X _ Hin_cond) as (c & Hc & Hi & _ & Hcols).
    exists c. rewrite Hi, Hidx. auto.
  - unfold DesignMatrix.confound_submatrix.
    destruct (DesignMatrix._confound_names dm) as [|n ns] eqn:E.
    + exists None. repeat split.
    + destruct (select_present X (n :: ns) Hin_conf) as (r & Hr & _).
      fold X. rewrite Hr. exists (Some r). repeat split; discriminate.
  - unfold DesignMatrix.artifact_submatrix.
    destruct (DesignMatrix._artifact_names dm) as [|n ns] eqn:E.
    + exists None. repeat split.
    + destruct (select_present X (n :: ns) Hin_art) as (r & Hr & _).
      fold X. rewrite Hr. exists (Some r). repeat split; discriminate.
Qed.

Lemma submatrix_views_succeed_witness :
  exists dm m,
    DesignMatrix.__init__ no_pca one_event Identity 2 None
      (Some (CArray (mkArray 2 [[3; 5]]))) (Some [false; false]) None false
      1 None 1
    = (mkEventTable ["A"%string] [0] (Some [0]) (Some [1]), Ok dm) /\
    DesignMatrix.main_submatrix dm = Ok m /\
    index m = DesignMatrix.frametimes dm.
Proof.
  destruct identity_construction as (dm & H).
  destruct (proj1 (submatrix_views_succeed _ _ _ _ _ _ _ _ _ _ _ _ _ _ H))
    as (m & Hm & Hi & _).
  exists dm, m. repeat split; assumption.
Defined.

(* ------------------------------------------------------------------ *)
(** ** Which hires sample a frame gets *)

Lemma searchsorted_count (l : list R) (v : R) (p : nat) :
  (p <= length l)%nat ->
  (forall j, (j < p)%nat -> nth j l 0 < v) ->
  ((p < length l)%nat -> ~ nth p l 0 < v) ->
  searchsorted l v = p.
Proof.
  revert p; induction l as [|x l IH]; intros p Hp Hlt Hge.
  - simpl in Hp. simpl. lia.
  - cbn [searchsorted]. destruct p as [|p].
    + rewrite Rltb_false; [reflexivity|]. apply (Hge ltac:(simpl; lia)).
    + rewrite Rltb_true by (apply (Hlt 0%nat); lia). f_equal. apply IH.
      * simpl in Hp. lia.
      * intros j Hj. apply (Hlt (S j)). lia.
      * intros Hpl. apply (Hge ltac:(simpl; lia)).
Qed.

Lemma zipWith_shifted_grid (h : R -> R -> R) (g : nat -> R) (s n : nat) :
  zipWith h (map g (seq (S s) n)) (map g (seq s (S n)))
  = map (fun j => h (g (S j)) (g j)) (seq s n).
Proof.
  revert s; induction n as [|n IH]; intros s; [reflexivity|].
  cbn [seq map zipWith]. f_equal. apply (IH (S s)).
Qed.

Lemma last_map_seq (g : nat -> R) (n : nat) (d : R) :
  last (map g (seq 0 (S n))) d = g n.
Proof.
  rewrite seq_S, map_app. cbn [map]. apply last_last.
Qed.

Lemma nth_map_seq (g : nat -> R) (n j : nat) :
  (j < n)%nat -> nth j (map g (seq 0 n)) 0 = g j.
Proof.
  intros Hj. rewrite (nth_indep _ 0 (g 0%nat)) by (rewrite length_map, length_seq; exact Hj).
  rewrite (map_nth g), seq_nth by exact Hj. reflexivity.
Qed.

(** With an even oversampling [2 m], the midpoint of frame [i] is the
    hires time number [i * 2 m + m], and the search over the midpoints of
    the hires grid finds that number. *)
Lemma midpoint_search (N m i : nat) (tr : R) :
  0 < tr -> (1 <= m)%nat -> (i * (2 * m) + m <= N)%nat ->
  searchsorted
    (map (fun j => (0 + INR (S j) * (tr / INR (2 * m))) / 2
                   + (0 + INR j * (tr / INR (2 * m))) / 2) (seq 0 N))
    (0 + INR i * tr + tr / 2)
  = (i * (2 * m) + m)%nat.
Proof.
  intros Htr Hm Hp.
  assert (Hos : 0 < INR (2 * m)) by (apply lt_0_INR; lia).
  assert (Hm' : 0 < INR m) by (apply lt_0_INR; lia).
  assert (E2m : INR (2 * m) = 2 * INR m) by (rewrite mult_INR; simpl; ring).
  assert (Ev : 0 + INR i * tr + tr / 2
               = INR (i * (2 * m) + m) * (tr / INR (2 * m))).
  { rewrite plus_INR, mult_INR, E2m. field. lra. }
  rewrite Ev.
  set (dt := tr / INR (2 * m)).
  assert (Hdt : 0 < dt) by (apply Rdiv_lt_0_compat; assumption).
  apply searchsorted_count.
  - rewrite length_map, length_seq. exact Hp.
  - intros j Hj. rewrite nth_map_seq by lia. rewrite S_INR.
    apply lt_INR in Hj as Hj'. apply INR_lt in Hj' as Hj''.
    assert (INR j + 1 <= INR (i * (2 * m) + m)).
    { rewrite <- S_INR. apply le_INR. lia. }
    nra.
  - rewrite length_map, length_seq. intros Hlt.
    rewrite nth_map_seq by exact Hlt. rewrite S_INR. nra.
Qed.

(** X17. On frame times [i * tr] and a hires grid of step [tr / (2 m)]
    that reaches the midpoint of the last frame, resampling gives frame [i]
    the hires sample number [i * 2 m + m] of every column, the sample at
    the middle of the frame, however many hires samples follow it. *)
Theorem frames_get_their_midpoint_sample
        (ntp m N : nat) (tr : R) (hires_conditions : DataFrame) :
  0 < tr -> (1 <= m)%nat -> ((ntp - 1) * (2 * m) + m < N)%nat ->
  let frametimes := map (fun i => 0 + INR i * tr) (seq 0 ntp) in
  let hft := map (fun j => 0 + INR j * (tr / INR (2 * m))) (seq 0 N) in
  (forall col, In col (columns hires_conditions) -> length (snd col) = N) ->
  _subsample_condition_matrix frametimes tr hft hires_conditions
  = Ok (mkDataFrame frametimes
          (map (fun col =>
                  (fst col,
                   map (fun i => nth (i * (2 * m) + m) (snd col) 0) (seq 0 ntp)))
               (columns hires_conditions))).
Proof.
  intros Htr Hm HN frametimes hft Hlen.
  assert (Hos : 0 < INR (2 * m)) by (apply lt_0_INR; lia).
  destruct N as [|N']; [exfalso; exact (Nat.nlt_0_r _ HN)|].
  assert (Hmid : forall i, (i < ntp)%nat -> (i * (2 * m) + m <= N')%nat).
  { intros i Hi. assert (i * (2 * m) <= (ntp - 1) * (2 * m))%nat
      by (apply Nat.mul_le_mono_r; lia). lia. }
  unfold _subsample_condition_matrix.
  rewrite (mapM_Ok_map _
             (fun col =>
                (fst col,
                 map (fun i => nth (i * (2 * m) + m) (snd col) 0) (seq 0 ntp))));
    [reflexivity|].
  intros col Hcol.
  assert (Hhl : length hft = S N')
    by (unfold hft; rewrite length_map, length_seq; reflexivity).
  rewrite interp1d_nearest_in_range.
  - cbn [bind]. do 2 f_equal. unfold frametimes. rewrite !map_map.
    apply map_ext_in. intros i Hi. apply in_seq in Hi.
    f_equal. rewrite Hhl. unfold hft.
    change (tl (map (fun j => 0 + INR j * (tr / INR (2 * m))) (seq 0 (S N'))))
      with (map (fun j => 0 + INR j * (tr / INR (2 * m))) (seq 1 N')).
    rewrite (zipWith_shifted_grid (fun a b => a / 2 + b / 2)).
    rewrite midpoint_search by (try assumption; apply Hmid; lia).
    apply Nat.min_l. pose proof (Hmid i ltac:(lia)). lia.
  - unfold hft. discriminate.
  - rewrite Hhl. apply Hlen. exact Hcol.
  - intros v Hv. unfold frametimes in Hv. rewrite map_map in Hv.
    apply in_map_iff in Hv as (i & <- & Hi). apply in_seq in Hi.
    unfold hft. rewrite last_map_seq. cbn [seq map hd].
    assert (Hpos : 0 <= INR i) by apply pos_INR.
    assert (Hle : INR (i * (2 * m) + m) <= INR N')
      by (apply le_INR; apply Hmid; lia).
    assert (Ev : 0 + INR i * tr + tr / 2
                 = INR (i * (2 * m) + m) * (tr / INR (2 * m))).
    { rewrite plus_INR, !mult_INR. simpl INR. field.
      apply Rgt_not_eq. apply lt_0_INR. lia. }
    assert (Hdt : 0 < tr / INR (2 * m)) by (apply Rdiv_lt_0_compat; assumption).
    split.
    + simpl. nra.
    + rewrite Ev. nra.
Qed.

Lemma frames_get_their_midpoint_sample_witness :
  _subsample_condition_matrix
    (map (fun i => 0 + INR i * 2) (seq 0 1)) 2
    (map (fun j => 0 + INR j * (2 / INR (2 * 1))) (seq 0 3))
    (mkDataFrame [0; 1; 2] [(LStr "A"%string, [4; 9; 7])])
  = Ok (mkDataFrame (map (fun i => 0 + INR i * 2) (seq 0 1))
          (map (fun col =>
                  (fst col,
                   map (fun i => nth (i * (2 * 1) + 1) (snd col) 0) (seq 0 1)))
               [(LStr "A"%string, [4; 9; 7])])).
Proof.
  apply (frames_get_their_midpoint_sample 1 1 3 2
           (mkDataFrame [0; 1; 2] [(LStr "A"%string, [4; 9; 7])])); try lra;
    try (simpl; lia).
  intros col [<- | []]. reflexivity.
Defined.

(* ------------------------------------------------------------------ *)
(** ** fsl_highpass_filter *)

(** X18. Filtering a 1-d signal of at least two samples, with a positive
    cutoff and TR, returns a 1-d signal of the same length, and returns
    zeros for every signal that is a line [a + b j]. *)
Theorem highpass_filter_of_a_signal (v : list R) (cutoff tr : R) :
  (2 <= length v)%nat -> 0 < cutoff -> 0 < tr ->
  exists w,
    fsl_highpass_filter (Signal1 v) cutoff tr = Ok (Signal1 w) /\
    length w = length v /\
    forall a b,
      (forall j, (j < length v)%nat -> nth j v 0 = a + b * INR j) ->
      w = repeat 0 (length v).
Proof.
  intros Hn Hc Htr.
  destruct (highpass_matrix_built (length v) cutoff tr ltac:(lia) Hc Htr)
    as (K & HK & HF).
  unfold fsl_highpass_filter, as_columns.
  destruct (Nat.eqb_spec (length v) 0) as [E|_]; [lia|].
  cbn [bind shape0 acolumns mapM]. rewrite HF. cbn [bind].
  unfold dot_vec. rewrite Nat.eqb_refl. cbn [bind].
  eexists. split.
  - f_equal. unfold squeeze. cbn [shape0 acolumns].
    assert (Hsq : forall (n : nat) (c : list R), (2 <= n)%nat ->
              match n with
              | 1%nat => Scalar (nth 0 c 0)
              | _ => Signal1 c
              end = Signal1 c).
    { intros [|[|n]] c Hc2; try lia; reflexivity. }
    apply Hsq. exact Hn.
  - split; [rewrite length_map, length_seq; reflexivity|].
    intros a b Hline. apply map_seq_zero. intros k Hk.
    etransitivity; [|apply (filter_row_removes_line (length v) K a b k Hn); [lia|]].
    + apply rsum_ext. intros j Hj. rewrite Hline by exact Hj. reflexivity.
    + intros i _. apply HK. lia.
Qed.

Lemma highpass_filter_of_a_signal_witness :
  exists w,
    fsl_highpass_filter (Signal1 [1; 3; 5]) 128 2 = Ok (Signal1 w) /\
    length w = 3%nat /\
    forall a b,
      (forall j, (j < 3)%nat -> nth j [1; 3; 5] 0 = a + b * INR j) ->
      w = repeat 0 3.
Proof.
  apply (highpass_filter_of_a_signal [1; 3; 5] 128 2); [simpl; lia | lra | lra].
Defined.

(* ------------------------------------------------------------------ *)
(** ** The kernel's timepoints *)

Lemma Rtrunc_le (x : R) : 0 <= x -> IZR (Rtrunc x) <= x.
Proof.
  intros Hx. unfold Rtrunc.
  destruct (Rlt_dec x 0) as [Hneg|_]; [lra|].
  rewrite minus_IZR. destruct (archimed x) as [_ Hup]. lra.
Qed.

Lemma Rtrunc_neg (x : R) : x < 0 -> (Rtrunc x <= 0)%Z.
Proof.
  intros Hx. unfold Rtrunc.
  destruct (Rlt_dec x 0) as [_|Hn]; [|contradiction].
  destruct (archimed (- x)) as [Hup _].
  assert (0 < IZR (up (- x))) by lra.
  apply lt_IZR in H. lia.
Qed.

(** X19. A model constructed with a positive TR and oversampling that has
    [n >= 2] kernel timepoints has them from 0 to [kernel_secs] inclusive,
    so they lie [kernel_secs / (n - 1)] apart, which is more than the
    hires step [tr / oversampling] of the data the kernel is applied to. *)
Theorem kernel_timepoints_span_kernel_secs
        (temporal_deriv : bool) (tr oversampling kernel_secs : R)
        (pos_shape : nat) (pos_scale : R) (neg_shape : nat) (neg_scale ratio : R)
        (h : GammaDifferenceHRF.t) :
  0 < tr -> 0 < oversampling ->
  GammaDifferenceHRF.__init__ temporal_deriv tr oversampling kernel_secs
    pos_shape pos_scale neg_shape neg_scale ratio = Ok h ->
  (2 <= length (GammaDifferenceHRF._timepoints h))%nat ->
  (forall i, (i < length (GammaDifferenceHRF._timepoints h))%nat ->
     nth i (GammaDifferenceHRF._timepoints h) 0
     = INR i * (kernel_secs / INR (length (GammaDifferenceHRF._timepoints h) - 1))) /\
  nth 0 (GammaDifferenceHRF._timepoints h) 0 = 0 /\
  nth (length (GammaDifferenceHRF._timepoints h) - 1)
      (GammaDifferenceHRF._timepoints h) 0 = kernel_secs /\
  tr / oversampling
  < kernel_secs / INR (length (GammaDifferenceHRF._timepoints h) - 1).
Proof.
  intros Htr Hos Hinit.
  assert (Hdt : 0 < tr / oversampling) by (apply Rdiv_lt_0_compat; assumption).
  unfold GammaDifferenceHRF.__init__ in Hinit.
  rewrite (pydiv_Ok tr oversampling) in Hinit by lra. cbn [bind] in Hinit.
  rewrite pydiv_Ok in Hinit by lra. cbn [bind] in Hinit.
  set (q := kernel_secs / (tr / oversampling)) in *.
  destruct (Z.ltb_spec (Rtrunc q) 0) as [Hneg|Hz]; [discriminate|].
  apply Ok_inj in Hinit. subst h.
  cbn [GammaDifferenceHRF._timepoints]. unfold linspace.
  rewrite length_map, length_seq.
  set (n := Z.to_nat (Rtrunc q)). intros Hn.
  assert (Hn1 : 0 < INR (n - 1)) by (apply lt_0_INR; lia).
  assert (En : INR n = INR (n - 1) + 1).
  { rewrite <- S_INR. f_equal. lia. }
  assert (Hq : INR n <= q).
  { assert (Hq0 : 0 <= q).
    { destruct (Rle_dec 0 q) as [Hle|Hnle]; [exact Hle|].
      assert (Hlt : q < 0) by lra. apply Rtrunc_neg in Hlt. unfold n in Hn. lia. }
    unfold n. rewrite INR_IZR_INZ, Z2Nat.id by exact Hz.
    apply Rtrunc_le; assumption. }
  assert (Hnth : forall i, (i < n)%nat ->
            nth i (map (fun i0 => 0 + INR i0 * ((kernel_secs - 0) / INR (n - 1)))
                       (seq 0 n)) 0
            = INR i * (kernel_secs / INR (n - 1))).
  { intros i Hi. rewrite nth_map_seq by exact Hi. unfold Rdiv. ring. }
  split; [exact Hnth|]. split; [|split].
  - rewrite Hnth by lia. simpl. ring.
  - rewrite Hnth by lia. field. lra.
  - assert (Ek : kernel_secs = q * (tr / oversampling)).
    { unfold q. field. split; lra. }
    rewrite Ek.
    apply (Rmult_lt_reg_r (INR (n - 1))); [exact Hn1|].
    replace (q * (tr / oversampling) / INR (n - 1) * INR (n - 1))
      with (q * (tr / oversampling)) by (field; lra).
    nra.
Qed.

Lemma kernel_timepoints_span_kernel_secs_witness :
  exists h,
    GammaDifferenceHRF.__init__ false 2 16 32 6 1 16 1 (1 / 6) = Ok h /\
    length (GammaDifferenceHRF._timepoints h) = 256%nat /\
    nth 255 (GammaDifferenceHRF._timepoints h) 0 = 32 /\
    2 / 16 < 32 / INR 255.
Proof.
  assert (Hq : 32 / (2 / 16) = IZR 256) by field.
  assert (Hinit : GammaDifferenceHRF.__init__ false 2 16 32 6 1 16 1 (1 / 6)
                  = Ok {| GammaDifferenceHRF._rv_pos := gamma 6 1;
                          GammaDifferenceHRF._rv_neg := gamma 16 1;
                          GammaDifferenceHRF._tr := 2;
                          GammaDifferenceHRF._oversampling := 16;
                          GammaDifferenceHRF._timepoints := linspace 0 32 (32 / (2 / 16));
                          GammaDifferenceHRF._temporal_deriv := false;
                          GammaDifferenceHRF._ratio := 1 / 6 |}).
  { unfold GammaDifferenceHRF.__init__.
    rewrite (pydiv_Ok 2 16) by lra. cbn [bind].
    rewrite pydiv_Ok by lra. cbn [bind].
    rewrite Hq at 1. rewrite Rtrunc_IZR. reflexivity. }
  assert (Hlen : length (linspace 0 32 (32 / (2 / 16))) = 256%nat).
  { unfold linspace. rewrite length_map, length_seq, Hq, Rtrunc_IZR. reflexivity. }
  eexists. split; [exact Hinit|].
  pose proof (kernel_timepoints_span_kernel_secs false 2 16 32 6 1 16 1 (1 / 6) _
                ltac:(lra) ltac:(lra) Hinit) as H.
  cbn [GammaDifferenceHRF._timepoints] in H. rewrite Hlen in H.
  destruct (H ltac:(lia)) as (_ & _ & Hlast & Hstep).
  change (256 - 1)%nat with 255%nat in Hlast, Hstep.
  split; [exact Hlen|]. split; assumption.
Defined.

(* ------------------------------------------------------------------ *)
(** ** Centring, once and twice *)

Lemma mapM_app_inv {A B : Type} (f : A -> outcome B) (l1 l2 : list A) (r : list B) :
  mapM f (l1 ++ l2) = Ok r ->
  exists r1 r2, r = r1 ++ r2 /\ mapM f l1 = Ok r1 /\ mapM f l2 = Ok r2.
Proof.
  revert r; induction l1 as [|a l1 IH]; intros r H.
  - exists [], r. auto.
  - cbn [app mapM] in H.
    apply bind_Ok_inv in H as (b & Hb & H).
    apply bind_Ok_inv in H as (bs & Hbs & H). apply Ok_inj in H. subst r.
    destruct (IH bs Hbs) as (r1 & r2 & -> & H1 & H2).
    exists (b :: r1), r2. cbn [mapM]. rewrite Hb, H1. auto.
Qed.

Lemma demean_column_value (v w : list R) :
  demean_column v = Ok w ->
  w = map (fun x => x - sum v / INR (length v)) v.
Proof.
  unfold demean_column, mean, npdiv. intros H.
  destruct (Req_dec_T (INR (length v)) 0); [discriminate|].
  apply Ok_inj in H. auto.
Qed.

(** X20. Centring is idempotent: a table that came out of the centring of
    line 241 or 280 is returned unchanged when it is centred again. *)
Theorem demean_is_idempotent (df X : DataFrame) :
  demean df = Ok X -> demean X = Ok X.
Proof.
  intros H. pose proof (demean_mean_zero df X H) as Hzero.
  unfold demean. rewrite (mapM_Ok_map _ (fun c => c)).
  - rewrite map_id. destruct X. reflexivity.
  - intros [lbl v] Hc. specialize (Hzero _ Hc). cbn [fst snd] in *.
    unfold demean_column. rewrite Hzero. cbn [bind]. do 2 f_equal.
    rewrite <- (map_id v) at 2. apply map_ext. intros x. ring.
Qed.

Lemma demean_is_idempotent_witness :
  exists X,
    demean (mkDataFrame [0; 1] [(LStr "A"%string, [3; 5])]) = Ok X /\
    demean X = Ok X.
Proof.
  assert (H : exists X, demean (mkDataFrame [0; 1] [(LStr "A"%string, [3; 5])]) = Ok X).
  { unfold demean, demean_column, mean. cbn. decide_npdiv. cbn. eexists. reflexivity. }
  destruct H as (X & H). exists X. split; [exact H|].
  exact (demean_is_idempotent _ X H).
Defined.

Lemma validate_array_columns frametimes a base comp :
  _validate_component frametimes (Some (CArray a)) base = Ok (Some comp) ->
  columns comp = combine (default_names base (length (acolumns a))) (acolumns a).
Proof.
  unfold _validate_component, DataFrame_of_array. intros H.
  apply bind_Ok_inv in H as (df & Hdf & H).
  match type of Hdf with
  | (if negb (?x && ?y) then _ else _) = _ =>
      destruct x eqn:Ex; destruct y eqn:Ey; cbn [andb negb] in Hdf; try discriminate
  end.
  apply Nat.eqb_eq in Ey. apply Ok_inj in Hdf. subst df.
  apply bind_Ok_inv in H as (m & _ & H).
  apply bind_Ok_inv in H as (fm & _ & H).
  destruct (negb fm); [discriminate|].
  apply bind_Ok_inv in H as (comp' & Hset & H).
  apply Ok_inj in H. inversion H; subst comp'; clear H.
  unfold set_index in Hset.
  match type of Hset with
  | (if ?t then _ else _) = _ => destruct t; [|discriminate]
  end.
  apply Ok_inj in Hset. subst comp.
  cbn [columns]. unfold relabelled. cbn [columns index].
  destruct (labels_eqb _ _); cbn [columns]; [|reflexivity].
  rewrite map_snd_combine by (rewrite default_names_length; congruence).
  reflexivity.
Qed.

Lemma map_on_combine {A B C : Type} (g : B -> C) (l : list A) (m : list B) :
  map (fun c => (fst c, g (snd c))) (combine l m) = combine l (map g m).
Proof.
  revert m; induction l as [|a l IH]; intros [|b m]; simpl; try reflexivity.
  f_equal. apply IH.
Qed.

(** X21. Confounds given as an array, without PCA, enter the design matrix
    under the names confound_0, confound_1, ..., each column as given minus
    its mean: they are centred and never filtered, whatever the cutoff. *)
Theorem array_confounds_are_only_centred
        (PCA_fit_transform : R -> option DataFrame -> outcome ndarray)
        (design : EventTable) (hrf : hrf_model) (ntp : nat)
        (regressors : option component) (a : ndarray) (artifacts : option (list bool))
        (condition_names : option (list string))
        (tr : R) (hpf_cutoff : option R) (oversampling : R)
        (design' : EventTable) (dm : DesignMatrix.t) :
  DesignMatrix.__init__ PCA_fit_transform design hrf ntp regressors
    (Some (CArray a)) artifacts condition_names false tr hpf_cutoff oversampling
  = (design', Ok dm) ->
  exists before after,
    columns (DesignMatrix.design_matrix dm)
    = before
      ++ combine (default_names "confound"%string (length (acolumns a)))
                 (map (fun v => map (fun x => x - sum v / INR (length v)) v)
                      (acolumns a))
      ++ after.
Proof.
  intros Hinit.
  destruct (init_steps _ _ _ _ _ _ _ _ _ _ _ _ _ _ Hinit)
    as (ft & hft & hb & hc & s & c & conds & rg & confs & confs' & arts & H).
  destruct H as (_ & _ & _ & _ & _ & _ & _ & Hconfs & Hpca & _ & HX & _).
  apply Ok_inj in Hpca. subst confs'.
  destruct confs as [comp|].
  2:{ exfalso. unfold _validate_component in Hconfs.
      apply bind_Ok_inv in Hconfs as (df & _ & Hconfs).
      apply bind_Ok_inv in Hconfs as (m & _ & Hconfs).
      apply bind_Ok_inv in Hconfs as (fm & _ & Hconfs).
      destruct (negb fm); [discriminate|].
      apply bind_Ok_inv in Hconfs as (comp' & _ & Hconfs). discriminate. }
  apply validate_array_columns in Hconfs.
  unfold demean in HX. apply bind_Ok_inv in HX as (cols & Hcols & HX).
  apply Ok_inj in HX. rewrite <- HX. cbn [columns optional_columns] in *.
  rewrite app_assoc in Hcols.
  apply mapM_app_inv in Hcols as (r1 & r2 & -> & _ & H2).
  apply mapM_app_inv in H2 as (rc & ra & -> & Hc & _).
  exists r1, ra. do 2 f_equal.
  rewrite Hconfs in Hc.
  rewrite (mapM_pointwise _
             (fun c0 => (fst c0,
                         (fun v => map (fun x => x - sum v / INR (length v)) v) (snd c0)))
             _ _ Hc).
  - apply (map_on_combine (fun v => map (fun x => x - sum v / INR (length v)) v)).
  - intros [lbl v] b Hb. apply bind_Ok_inv in Hb as (w & Hw & Hb).
    apply Ok_inj in Hb. subst b. cbn [fst snd]. f_equal.
    apply demean_column_value. exact Hw.
Qed.

Lemma array_confounds_are_only_centred_witness :
  exists dm before after,
    DesignMatrix.__init__ no_pca one_event Identity 2 None
      (Some (CArray (mkArray 2 [[3; 5]]))) (Some [false; false]) None false
      1 None 1
    = (mkEventTable ["A"%string] [0] (Some [0]) (Some [1]), Ok dm) /\
    columns (DesignMatrix.design_matrix dm)
    = before
      ++ combine (default_names "confound"%string 1)
                 (map (fun v => map (fun x => x - sum v / INR (length v)) v) [[3; 5]])
      ++ after.
Proof.
  destruct identity_construction as (dm & H).
  destruct (array_confounds_are_only_centred _ _ _ _ _ _ _ _ _ _ _ _ _ H)
    as (before & after & E).
  exists dm, before, after. split; [exact H | exact E].
Defined.

(* ------------------------------------------------------------------ *)
(** ** Two events of one condition *)





